(** * CodeMate: function detection, brace extraction and complexity highlighting

    A shallow embedding of the core of the CodeMate editor extension
    ([extension.js], [modules/utils.js]) together with the properties its
    specification states about it.

    Conventions of the embedding:
    - a JavaScript string is the list of its UTF-16 code units ([list N]);
    - JavaScript integers (line numbers, columns, timestamps, complexity
      scores) are [Z]; IEEE doubles of the maintainability calculator are
      idealised as real numbers;
    - the host editor (documents, ranges, decorations, messages) is modelled
      by records and by a log of the calls the extension makes on it;
    - a JavaScript exception is the [Throw] outcome of the handler monad [M];
    - the session singleton [state] of [extension.js] is the record [State],
      threaded through every handler. *)

From Stdlib Require Import ZArith NArith List String Ascii Bool Lia.
From Stdlib Require Import Reals Lra.
From stdpp Require Import list.
Import ListNotations.

Local Open Scope Z_scope.

(** ** JavaScript strings *)

Module JS.

Abbreviation jsstring := (list N).

(** A source literal, as the list of its code units. *)
Definition lit (s : string) : jsstring :=
  List.map N_of_ascii (list_ascii_of_string s).
Arguments lit : simpl never.

(** ECMAScript WhiteSpace and LineTerminator code units: the class behind
    both [\s] and [String.prototype.trim]. *)
Definition is_space (c : N) : bool :=
  ((9 <=? c) && (c <=? 13) || (c =? 32) || (c =? 160) || (c =? 5760)
   || (8192 <=? c) && (c <=? 8202) || (c =? 8232) || (c =? 8233)
   || (c =? 8239) || (c =? 8287) || (c =? 12288) || (c =? 65279))%N.

(** [\w] without the unicode or ignore-case flags: [A-Za-z0-9_]. *)
Definition is_word (c : N) : bool :=
  ((48 <=? c) && (c <=? 57) || (65 <=? c) && (c <=? 90) || (c =? 95)
   || (97 <=? c) && (c <=? 122))%N.

Fixpoint trimStart (s : jsstring) : jsstring :=
  match s with
  | c :: t => if is_space c then trimStart t else s
  | [] => []
  end.

Definition trimEnd (s : jsstring) : jsstring := rev (trimStart (rev s)).

Definition trim (s : jsstring) : jsstring := trimEnd (trimStart s).

Fixpoint startsWith (s p : jsstring) : bool :=
  match p, s with
  | [], _ => true
  | a :: p', b :: s' => (a =? b)%N && startsWith s' p'
  | _ :: _, [] => false
  end.

Definition endsWith (s p : jsstring) : bool := startsWith (rev s) (rev p).

(** [s.indexOf(p)]: the first index at which [p] occurs, [None] for -1. *)
Fixpoint indexOf_from (s p : jsstring) (i : nat) : option nat :=
  if startsWith s p then Some i
  else match s with
       | [] => None
       | _ :: t => indexOf_from t p (S i)
       end.

Definition indexOf (s p : jsstring) : option nat := indexOf_from s p 0.

Fixpoint repeat_str (s : jsstring) (n : nat) : jsstring :=
  match n with
  | O => []
  | S n' => s ++ repeat_str s n'
  end.

(** [parts.join(sep)]. *)
Fixpoint join (sep : jsstring) (parts : list jsstring) : jsstring :=
  match parts with
  | [] => []
  | [p] => p
  | p :: rest => p ++ sep ++ join sep rest
  end.

(** [s.includes(p)]. *)
Definition includes (s p : jsstring) : bool :=
  match indexOf s p with Some _ => true | None => false end.

Fixpoint eqb (a b : jsstring) : bool :=
  match a, b with
  | [], [] => true
  | x :: a', y :: b' => (x =? y)%N && eqb a' b'
  | _, _ => false
  end.

End JS.

Import JS.

(** ** The regular expressions of [findFunctionDefinition]

    A backtracking matcher for the fragment of ECMAScript regular
    expressions that the four shape patterns use: the start anchor,
    literals, greedy [*] and [+] over a character class, a greedy optional
    non-capturing group, one capture group and concatenation.  Alternatives
    are explored in the priority order of the ECMAScript semantics (greedy
    first), and the first complete match wins. *)

Module Regex.

Inductive cclass : Type :=
| CSpace                 (* \s *)
| CWord                  (* \w *)
| CNot (c : N).          (* [^c] *)

Definition cclass_matches (cc : cclass) (c : N) : bool :=
  match cc with
  | CSpace => is_space c
  | CWord => is_word c
  | CNot d => negb (c =? d)%N
  end.

Inductive regex : Type :=
| RBol                        (* ^ *)
| RLit (s : jsstring)         (* literal characters *)
| RStar (cc : cclass)         (* cc* *)
| RPlus (cc : cclass)         (* cc+ *)
| ROpt (r : regex)            (* (?:r)? *)
| RGroup (r : regex)          (* (r), capture group 1 *)
| RSeq (r1 r2 : regex).

(** A continuation receives the index reached, the input left and the
    capture recorded so far. *)
Definition cont (A : Type) : Type := nat -> jsstring -> option jsstring -> option A.

Fixpoint strip_prefix (p s : jsstring) : option jsstring :=
  match p, s with
  | [], _ => Some s
  | a :: p', b :: s' => if (a =? b)%N then strip_prefix p' s' else None
  | _ :: _, [] => None
  end.

(** Greedy repetition of a character class: take one more character first,
    and fall back to stopping here when the rest fails. *)
Fixpoint star_loop {A} (cc : cclass) (pos : nat) (inp : jsstring)
         (cap : option jsstring) (k : cont A) : option A :=
  match inp with
  | c :: t =>
      if cclass_matches cc c then
        match star_loop cc (S pos) t cap k with
        | Some res => Some res
        | None => k pos inp cap
        end
      else k pos inp cap
  | [] => k pos inp cap
  end.

Fixpoint rmatch {A} (r : regex) (pos : nat) (inp : jsstring)
         (cap : option jsstring) (k : cont A) : option A :=
  match r with
  | RBol => match pos with O => k pos inp cap | S _ => None end
  | RLit s =>
      match strip_prefix s inp with
      | Some rest => k (pos + length s)%nat rest cap
      | None => None
      end
  | RStar cc => star_loop cc pos inp cap k
  | RPlus cc =>
      match inp with
      | c :: t => if cclass_matches cc c then star_loop cc (S pos) t cap k else None
      | [] => None
      end
  | ROpt r' =>
      match rmatch r' pos inp cap k with
      | Some res => Some res
      | None => k pos inp cap
      end
  | RGroup r' =>
      rmatch r' pos inp cap
        (fun pos' rest _ => k pos' rest (Some (firstn (pos' - pos) inp)))
  | RSeq r1 r2 =>
      rmatch r1 pos inp cap (fun pos' rest cap' => rmatch r2 pos' rest cap' k)
  end.

(** The result of [text.match(re)] for a non-global expression: the index
    of the match and its first capture. *)
Record MatchResult : Type := { index : nat; group1 : option jsstring }.

Fixpoint exec_from (r : regex) (start : nat) (inp : jsstring) : option MatchResult :=
  match rmatch r start inp None
          (fun _ _ cap => Some {| index := start; group1 := cap |}) with
  | Some m => Some m
  | None =>
      match inp with
      | [] => None
      | _ :: t => exec_from r (S start) t
      end
  end.

Definition exec (r : regex) (text : jsstring) : option MatchResult :=
  exec_from r 0 text.

(** What the expressions mean, independently of the search order: [matches
    r pos w cap cap'] says that [r] can consume [w] at index [pos], turning
    the capture [cap] into [cap']. *)
Inductive matches : regex -> nat -> jsstring -> option jsstring -> option jsstring -> Prop :=
| matches_bol cap : matches RBol 0 [] cap cap
| matches_lit s pos cap : matches (RLit s) pos s cap cap
| matches_star cc pos w cap :
    Forall (fun c => cclass_matches cc c = true) w ->
    matches (RStar cc) pos w cap cap
| matches_plus cc pos w cap :
    w <> [] -> Forall (fun c => cclass_matches cc c = true) w ->
    matches (RPlus cc) pos w cap cap
| matches_opt_taken r pos w cap cap' :
    matches r pos w cap cap' -> matches (ROpt r) pos w cap cap'
| matches_opt_skipped r pos cap : matches (ROpt r) pos [] cap cap
| matches_group r pos w cap cap' :
    matches r pos w cap cap' -> matches (RGroup r) pos w cap (Some w)
| matches_seq r1 r2 pos w1 w2 cap cap1 cap2 :
    matches r1 pos w1 cap cap1 ->
    matches r2 (pos + length w1) w2 cap1 cap2 ->
    matches (RSeq r1 r2) pos (w1 ++ w2) cap cap2.

Fixpoint seq_of (rs : list regex) : regex :=
  match rs with
  | [] => RLit []
  | [r] => r
  | r :: rest => RSeq r (seq_of rest)
  end.

End Regex.

Import Regex.

(** The four shape patterns, in the order of the source. *)

(** Source pattern 1, token by token:
    ^ (?:export \s+)? (?:async \s+)? function \s+ (\w+) \s* \( *)
Definition pattern_function : regex :=
  seq_of [RBol; ROpt (RSeq (RLit (lit "export")) (RPlus CSpace));
          ROpt (RSeq (RLit (lit "async")) (RPlus CSpace));
          RLit (lit "function"); RPlus CSpace; RGroup (RPlus CWord);
          RStar CSpace; RLit (lit "(")].

(** Source pattern 2, token by token:
    ^ (?:export \s+)? const \s+ (\w+) \s* = \s* (?:async \s* )? \( [^)]* \) \s* => *)
Definition pattern_arrow : regex :=
  seq_of [RBol; ROpt (RSeq (RLit (lit "export")) (RPlus CSpace));
          RLit (lit "const"); RPlus CSpace; RGroup (RPlus CWord);
          RStar CSpace; RLit (lit "="); RStar CSpace;
          ROpt (RSeq (RLit (lit "async")) (RStar CSpace));
          RLit (lit "("); RStar (CNot 41); RLit (lit ")");
          RStar CSpace; RLit (lit "=>")].

(** Source pattern 3, token by token:
    ^ (?:export \s+)? const \s+ (\w+) \s* = \s* function \s* \( *)
Definition pattern_function_expression : regex :=
  seq_of [RBol; ROpt (RSeq (RLit (lit "export")) (RPlus CSpace));
          RLit (lit "const"); RPlus CSpace; RGroup (RPlus CWord);
          RStar CSpace; RLit (lit "="); RStar CSpace;
          RLit (lit "function"); RStar CSpace; RLit (lit "(")].

(** Source pattern 4, token by token:
    ^ (?:export \s+)? (?:async \s+)? (\w+) \s* \( [^)]* \) \s* { *)
Definition pattern_method : regex :=
  seq_of [RBol; ROpt (RSeq (RLit (lit "export")) (RPlus CSpace));
          ROpt (RSeq (RLit (lit "async")) (RPlus CSpace));
          RGroup (RPlus CWord); RStar CSpace; RLit (lit "(");
          RStar (CNot 41); RLit (lit ")"); RStar CSpace; RLit (lit "{")].

Definition patterns : list regex :=
  [pattern_function; pattern_arrow; pattern_function_expression; pattern_method].

(** [match[1]]: the first group takes part in every match of the four
    patterns, so it is always a string. *)
Definition match_name (m : MatchResult) : jsstring :=
  match group1 m with Some n => n | None => [] end.

(** [findFunctionDefinition(text)]: the name captured by the first pattern
    that matches and whose match starts before the first [//] of the
    line; [None] is the source's [null]. *)
Fixpoint find_in_patterns (ps : list regex) (text : jsstring) : option jsstring :=
  match ps with
  | [] => None
  | pattern :: rest =>
      match exec pattern text with
      | Some m =>
          match indexOf text (lit "//") with
          | None => Some (match_name m)
          | Some commentIndex =>
              if (index m <? commentIndex)%nat then Some (match_name m)
              else find_in_patterns rest text
          end
      | None => find_in_patterns rest text
      end
  end.

Definition findFunctionDefinition (text : jsstring) : option jsstring :=
  find_in_patterns patterns text.


(** The declaration shapes the detector is specified to recognise, as
    sets of line texts: an instance of a shape starts at the first column
    and may be followed by anything. *)

Definition spaces (w : jsstring) : Prop := Forall (fun c => is_space c = true) w.
Definition spaces1 (w : jsstring) : Prop := w <> [] /\ spaces w.
Definition word1 (n : jsstring) : Prop := n <> [] /\ Forall (fun c => is_word c = true) n.
Definition no_rparen (a : jsstring) : Prop := Forall (fun c => (c =? 41)%N = false) a.

(** An optional keyword, followed by white space when present. *)
Inductive opt_keyword (kw : jsstring) : jsstring -> Prop :=
| keyword_absent : opt_keyword kw []
| keyword_present w : spaces1 w -> opt_keyword kw (kw ++ w).

(** The optional [async] of an arrow function, which needs no white space
    after it. *)
Inductive opt_async_arrow : jsstring -> Prop :=
| async_absent : opt_async_arrow []
| async_present w : spaces w -> opt_async_arrow (lit "async" ++ w).

Inductive Shape : Type :=
| NamedFunction | ConstArrow | ConstFunctionExpression | MethodShorthand.

Definition declaration (sh : Shape) (n text : jsstring) : Prop :=
  match sh with
  | NamedFunction =>
      exists e a w1 w2 rest,
        opt_keyword (lit "export") e /\ opt_keyword (lit "async") a /\
        spaces1 w1 /\ word1 n /\ spaces w2 /\
        text = e ++ a ++ lit "function" ++ w1 ++ n ++ w2 ++ lit "(" ++ rest
  | ConstArrow =>
      exists e w1 w2 w3 a args w4 rest,
        opt_keyword (lit "export") e /\ spaces1 w1 /\ word1 n /\ spaces w2 /\
        spaces w3 /\ opt_async_arrow a /\ no_rparen args /\ spaces w4 /\
        text = e ++ lit "const" ++ w1 ++ n ++ w2 ++ lit "=" ++ w3 ++ a ++
               lit "(" ++ args ++ lit ")" ++ w4 ++ lit "=>" ++ rest
  | ConstFunctionExpression =>
      exists e w1 w2 w3 w4 rest,
        opt_keyword (lit "export") e /\ spaces1 w1 /\ word1 n /\ spaces w2 /\
        spaces w3 /\ spaces w4 /\
        text = e ++ lit "const" ++ w1 ++ n ++ w2 ++ lit "=" ++ w3 ++
               lit "function" ++ w4 ++ lit "(" ++ rest
  | MethodShorthand =>
      exists e a w1 args w2 rest,
        opt_keyword (lit "export") e /\ opt_keyword (lit "async") a /\
        word1 n /\ spaces w1 /\ no_rparen args /\ spaces w2 /\
        text = e ++ a ++ n ++ w1 ++ lit "(" ++ args ++ lit ")" ++ w2 ++ lit "{" ++ rest
  end.

Definition pattern_of (sh : Shape) : regex :=
  match sh with
  | NamedFunction => pattern_function
  | ConstArrow => pattern_arrow
  | ConstFunctionExpression => pattern_function_expression
  | MethodShorthand => pattern_method
  end.

(** ** The host editor: documents, positions and ranges *)

(** What a handler call can end in: a value, or a JavaScript exception. *)
Inductive Outcome (A : Type) : Type :=
| Ret (a : A)
| Throw (msg : string).
Arguments Ret {A} a.
Arguments Throw {A} msg.

Record Position : Type := { line : Z; character : Z }.

Record Range : Type := { range_start : Position; range_end : Position }.

(** [new vscode.Position(line, character)] rejects negative arguments. *)
Definition new_Position (l c : Z) : Outcome Position :=
  if l <? 0 then Throw "line must be non-negative"
  else if c <? 0 then Throw "character must be non-negative"
  else Ret {| line := l; character := c |}.

Definition isBefore (p q : Position) : bool :=
  (line p <? line q) || ((line p =? line q) && (character p <? character q)).

(** [new vscode.Range(startLine, startCharacter, endLine, endCharacter)]
    builds both positions and orders them. *)
Definition new_Range (sl sc el ec : Z) : Outcome Range :=
  match new_Position sl sc with
  | Throw e => Throw e
  | Ret s =>
      match new_Position el ec with
      | Throw e => Throw e
      | Ret e =>
          if isBefore s e then Ret {| range_start := s; range_end := e |}
          else Ret {| range_start := e; range_end := s |}
      end
  end.

Record TextLine : Type := { lineNumber : Z; text : jsstring }.

Record TextDocument : Type := {
  languageId : jsstring;
  fileName : jsstring;
  doc_lines : list jsstring;   (* the text of each line, without terminator *)
  eol : jsstring               (* the line terminator used by getText *)
}.

Definition lineCount (d : TextDocument) : Z := Z.of_nat (length (doc_lines d)).

(** [document.lineAt(n)] rejects a line number outside the document. *)
Definition lineAt (d : TextDocument) (n : Z) : Outcome TextLine :=
  if (n <? 0) || (lineCount d <=? n) then Throw "Illegal value for `line`"
  else match nth_error (doc_lines d) (Z.to_nat n) with
       | Some t => Ret {| lineNumber := n; text := t |}
       | None => Throw "Illegal value for `line`"
       end.

Definition getText (d : TextDocument) : jsstring := join (eol d) (doc_lines d).

Definition str_length (s : jsstring) : Z := Z.of_nat (length s).

Record TextEditor : Type := { editor_id : nat; document : TextDocument }.

(** [a === b] on editor objects. *)
Definition same_editor (a b : TextEditor) : bool := Nat.eqb (editor_id a) (editor_id b).

Record Selection : Type := { anchor : Position; active : Position }.

Definition isEmpty (s : Selection) : bool :=
  (line (anchor s) =? line (active s)) && (character (anchor s) =? character (active s)).

Record SelectionChangeEvent : Type := {
  textEditor : TextEditor;
  selections : list Selection
}.

(** ** JavaScript [Map] with string keys: insertion-ordered, one entry per key *)

Module JSMap.

Definition t (V : Type) : Type := list (jsstring * V).

Definition empty {V} : t V := [].

(** [m.set(k, v)]: an existing key keeps its place and gets the new value. *)
Fixpoint set {V} (k : jsstring) (v : V) (m : t V) : t V :=
  match m with
  | [] => [(k, v)]
  | (k', v') :: rest =>
      if JS.eqb k' k then (k', v) :: rest else (k', v') :: set k v rest
  end.

Fixpoint get {V} (k : jsstring) (m : t V) : option V :=
  match m with
  | [] => None
  | (k', v') :: rest => if JS.eqb k' k then Some v' else get k rest
  end.

Definition size {V} (m : t V) : Z := Z.of_nat (length m).

Definition entries {V} (m : t V) : list (jsstring * V) := m.

End JSMap.

(** ** Decorations and the calls made on the host *)

Inductive DecorationType : Type :=
| decorationType | complexityDecorationType | refactorDecorationType.

(** The text a decoration shows; the template strings of the source are
    kept as their kind and arguments. *)
Inductive DecorationLabel : Type :=
| TestLabel (name : jsstring)                          (* "Test", click to generate *)
| HighLabel (complexity : Z) (name : jsstring)         (* "High", red *)
| OptimalLabel (complexity : Z) (name : jsstring)      (* "Optimal", green *)
| RefactorIcon (name : jsstring).                      (* gutter icon *)

Record Decoration : Type := { range : Range; label : DecorationLabel }.

Record TextEdit : Type := { insert_at : Position; newText : jsstring }.

Record FunctionInfo : Type := {
  info_name : jsstring;
  info_range : Range;
  info_code : option jsstring
}.

Inductive HostCall : Type :=
| showErrorMessage (message : string)
| console_error
| console_warn
| setDecorations (ty : DecorationType) (ds : list Decoration)
| statusBar_show
| statusBar_hide
| applyEdit (edits : list TextEdit)
| call_handleBatchTestGeneration (editor : TextEditor)
| call_handleTestGeneration (functionInfo : FunctionInfo).

(** ** Session state and the handler monad *)

Record State : Type := {
  activeEditor : option TextEditor;
  functionRanges : JSMap.t Range;
  complexityRanges : JSMap.t Range;
  isEditingFunction : bool;
  lastClickTime : Z;
  lastTypingTime : Z;
  calls : list HostCall         (* calls made on the host so far, oldest first *)
}.

(** The [state] object as the module creates it. *)
Definition initial_state : State :=
  {| activeEditor := None;
     functionRanges := JSMap.empty;
     complexityRanges := JSMap.empty;
     isEditingFunction := false;
     lastClickTime := 0;
     lastTypingTime := 0;
     calls := [] |}.

Definition M (A : Type) : Type := State -> Outcome A * State.

Definition ret {A} (a : A) : M A := fun st => (Ret a, st).

Definition bind {A B} (m : M A) (f : A -> M B) : M B :=
  fun st =>
    match m st with
    | (Ret a, st') => f a st'
    | (Throw e, st') => (Throw e, st')
    end.

Notation "x <- m ;; k" := (bind m (fun x => k))
  (at level 62, m at next level, right associativity).
Notation "m ;;; k" := (bind m (fun _ => k))
  (at level 62, right associativity).

(** A host operation that may throw, run inside a handler. *)
Definition lift {A} (o : Outcome A) : M A := fun st => (o, st).

Definition get : M State := fun st => (Ret st, st).

(** Updates of one field of the session state. *)
Definition with_call (c : HostCall) (st : State) : State :=
  {| activeEditor := activeEditor st;
     functionRanges := functionRanges st;
     complexityRanges := complexityRanges st;
     isEditingFunction := isEditingFunction st;
     lastClickTime := lastClickTime st;
     lastTypingTime := lastTypingTime st;
     calls := calls st ++ [c] |}.

Definition with_functionRanges (m : JSMap.t Range) (st : State) : State :=
  {| activeEditor := activeEditor st;
     functionRanges := m;
     complexityRanges := complexityRanges st;
     isEditingFunction := isEditingFunction st;
     lastClickTime := lastClickTime st;
     lastTypingTime := lastTypingTime st;
     calls := calls st |}.

Definition with_complexityRanges (m : JSMap.t Range) (st : State) : State :=
  {| activeEditor := activeEditor st;
     functionRanges := functionRanges st;
     complexityRanges := m;
     isEditingFunction := isEditingFunction st;
     lastClickTime := lastClickTime st;
     lastTypingTime := lastTypingTime st;
     calls := calls st |}.

Definition with_lastClickTime (t : Z) (st : State) : State :=
  {| activeEditor := activeEditor st;
     functionRanges := functionRanges st;
     complexityRanges := complexityRanges st;
     isEditingFunction := isEditingFunction st;
     lastClickTime := t;
     lastTypingTime := lastTypingTime st;
     calls := calls st |}.

(** A call on the host, recorded in the log. *)
Definition call (c : HostCall) : M unit := fun st => (Ret tt, with_call c st).

Definition set_functionRanges (m : JSMap.t Range) : M unit :=
  fun st => (Ret tt, with_functionRanges m st).

Definition set_complexityRanges (m : JSMap.t Range) : M unit :=
  fun st => (Ret tt, with_complexityRanges m st).

Definition set_lastClickTime (t : Z) : M unit :=
  fun st => (Ret tt, with_lastClickTime t st).

(** ** Function Boundary Detector *)

(** [isValidSourceFile(document)]. *)
Definition isValidSourceFile (d : TextDocument) : bool :=
  let isJavaScript :=
    JS.eqb (languageId d) (lit "javascript") || JS.eqb (languageId d) (lit "typescript") in
  let isTestFile :=
    includes (fileName d) (lit ".test.") || includes (fileName d) (lit ".spec.") in
  isJavaScript && negb isTestFile.

(** [" ".repeat(50)]. *)
Definition placeholder : jsstring := repeat_str (lit " ") 50.

(** The test of the loop body that makes it [continue]: a blank line, or one
    whose trimmed text opens a line or block comment. *)
Definition skipped_line (t : jsstring) : bool :=
  let trimmedLine := trim t in
  match trimmedLine with
  | [] => true
  | _ => startsWith trimmedLine (lit "//") || startsWith trimmedLine (lit "/*")
  end.

(** The body of the [for] loop of [detectFunctions]; [n] counts the
    iterations left, so that [i < document.lineCount] holds exactly when
    [n] is not zero. *)
Fixpoint detect_loop (n : nat) (d : TextDocument) (i : Z) (edits : list TextEdit)
  : M (list TextEdit) :=
  match n with
  | O => ret edits
  | S n' =>
      l <- lift (lineAt d i) ;;
      if skipped_line (text l) then detect_loop n' d (i + 1) edits
      else
        match findFunctionDefinition (text l) with
        | Some name =>
            r <- lift (new_Range i 0 i (str_length (trim (text l)))) ;;
            st <- get ;;
            set_functionRanges (JSMap.set name r (functionRanges st)) ;;;
            if negb (endsWith (text l) placeholder) then
              p <- lift (new_Position i (str_length (text l))) ;;
              detect_loop n' d (i + 1)
                (edits ++ [{| insert_at := p; newText := placeholder |}])
            else detect_loop n' d (i + 1) edits
        | None => detect_loop n' d (i + 1) edits
        end
  end.

(** [detectFunctions(document)]. *)
Definition detectFunctions (d : TextDocument) : M unit :=
  set_functionRanges JSMap.empty ;;;
  edits <- detect_loop (Z.to_nat (lineCount d - 0)) d 0 [] ;;
  match edits with
  | [] => ret tt
  | _ => call (applyEdit edits)
  end.

(** [Array.prototype.map] with a callback that may throw. *)
Fixpoint map_outcome {A B} (f : A -> Outcome B) (l : list A) : Outcome (list B) :=
  match l with
  | [] => Ret []
  | a :: rest =>
      match f a with
      | Throw e => Throw e
      | Ret b =>
          match map_outcome f rest with
          | Throw e => Throw e
          | Ret bs => Ret (b :: bs)
          end
      end
  end.

(** [createDecorations()]. *)
Definition createDecorations : M (list Decoration) :=
  st <- get ;;
  lift (map_outcome
          (fun '(name, r) =>
             match new_Range (line (range_end r)) (character (range_end r) + 4)
                             (line (range_end r)) (character (range_end r) + 5) with
             | Throw e => Throw e
             | Ret r' => Ret {| range := r'; label := TestLabel name |}
             end)
          (JSMap.entries (functionRanges st))).

(** ** Function Body Extractor *)

(** The separator of [code.join] in the extractor: a line feed. *)
Definition newline : jsstring := [10%N].

(** The [for (const char of text)] loop: the brace counter and the
    opening-brace flag after scanning [text] from the left. *)
Fixpoint scan_braces (t : jsstring) (braceCount : Z) (foundOpening : bool) : Z * bool :=
  match t with
  | [] => (braceCount, foundOpening)
  | c :: rest =>
      if (c =? 123)%N then scan_braces rest (braceCount + 1) true
      else if (c =? 125)%N then scan_braces rest (braceCount - 1) foundOpening
      else scan_braces rest braceCount foundOpening
  end.

(** The [while (line < document.lineCount)] loop; [n] counts the iterations
    left. *)
Fixpoint extract_loop (n : nat) (d : TextDocument) (l : Z) (braceCount : Z)
         (foundOpening : bool) (code : list jsstring) : Outcome (option jsstring) :=
  match n with
  | O => Ret None
  | S n' =>
      match lineAt d l with
      | Throw e => Throw e
      | Ret tl =>
          let code' := code ++ [text tl] in
          let '(braceCount', foundOpening') :=
            scan_braces (text tl) braceCount foundOpening in
          if foundOpening' && (braceCount' =? 0) then Ret (Some (join newline code'))
          else extract_loop n' d (l + 1) braceCount' foundOpening' code'
      end
  end.

(** [extractFunctionCode(startLine)], given the session's active editor. *)
Definition extractFunctionCode (editor : option TextEditor) (startLine : Z)
  : Outcome (option jsstring) :=
  match editor with
  | None => Ret None
  | Some ed =>
      let d := document ed in
      extract_loop (Z.to_nat (lineCount d - startLine)) d startLine 0 false []
  end.

(** ** Maintainability Calculator *)

Module Maintainability.
Local Open Scope R_scope.

Definition epsilon : R := 1 / 100000.

(** The number that [x.toFixed(2)] denotes: the multiple of 0.01 nearest
    to [x], the larger one on a tie. *)
Definition toFixed2 (x : R) : R := IZR (Int_part (x * 100 + / 2)) / 100.

(** [calculateMaintainability] of [extension.js] (and of the later copy in
    [modules/utils.js]). *)
Definition calculateMaintainability (halsteadEffort cyclomatic sloc : R) : R :=
  let effortLn := ln (halsteadEffort + epsilon) in
  let slocLn := ln (sloc + epsilon) in
  let MI :=
    Rmax 0 ((171 - 5.2 * effortLn - 0.23 * cyclomatic - 16.2 * slocLn) * 100 / 171) in
  toFixed2 MI.

(** The earlier copy of the calculator kept in [modules/utils.js], which
    adds 1 instead of [epsilon] inside the logarithms. *)
Definition calculateMaintainability_v1 (effort cyclomatic sloc : R) : R :=
  let lnEffort := ln (effort + 1) in
  let lnSloc := ln (sloc + 1) in
  toFixed2
    (Rmax 0 ((171 - 5.2 * lnEffort - 0.23 * cyclomatic - 16.2 * lnSloc) * 100 / 171)).

End Maintainability.

Import Maintainability.
Arguments calculateMaintainability : simpl never.

(** ** Complexity Mapper *)

(** One entry of [analysis.methods], as the metrics engine reports it
    (every field present, as the engine's contract has it). *)
Record Method : Type := {
  method_name : jsstring;
  cyclomatic : Z;
  halstead_effort : R;
  sloc_logical : Z;
  lineStart : Z;
  lineEnd : Z;
  method_errors : list jsstring
}.

(** The report of [escomplex.analyzeModule]; [methods] may be missing. *)
Record Analysis : Type := { methods : option (list Method) }.

(** The metrics engine: it may throw, or return nothing. *)
Definition Engine : Type := jsstring -> Outcome (option Analysis).

(** A number-valued property that may be missing or of another type. *)
Record LineSpan : Type := { span_start : option Z; span_end : option Z }.

Record Metric : Type := {
  name : jsstring;
  complexity : Z;
  maintainability : R;
  lines : option LineSpan;
  errors : Z
}.

Definition metric_of_method (data : Method) : Metric :=
  {| name := method_name data;
     complexity := cyclomatic data;
     maintainability :=
       calculateMaintainability (halstead_effort data) (IZR (cyclomatic data))
                                (IZR (sloc_logical data));
     lines := Some {| span_start := Some (lineStart data);
                      span_end := Some (lineEnd data) |};
     errors := Z.of_nat (length (method_errors data)) |}.

(** [analyzeComplexity(document)]; [None] is the source's [null]. *)
Definition analyzeComplexity (escomplex : Engine) (doc : option TextDocument)
  : M (option (list (option Metric))) :=
  match doc with
  | None => call (showErrorMessage "No active document found.") ;;; ret None
  | Some d =>
      let sourceCode := getText d in
      match sourceCode with
      | [] => call (showErrorMessage "The file is empty or invalid.") ;;; ret None
      | _ =>
          match escomplex sourceCode with
          | Throw _ => call console_error ;;; ret None
          | Ret None | Ret (Some {| methods := None |}) =>
              call (showErrorMessage "Failed to analyze complexity. Invalid results.") ;;;
              call console_error ;;;
              ret None
          | Ret (Some {| methods := Some ms |}) =>
              ret (Some (List.map (fun data => Some (metric_of_method data)) ms))
          end
      end
  end.

(** ** Decoration/Highlight Projector *)

(** The guard at the top of the loop body: the metric and its [lines]
    exist and both ends of the span are numbers. *)
Definition valid_metric (m : option Metric) : option (Metric * Z * Z) :=
  match m with
  | Some metric =>
      match lines metric with
      | Some {| span_start := Some s; span_end := Some e |} => Some (metric, s, e)
      | _ => None
      end
  | None => None
  end.

(** The [for (const metric of metrics)] loop.  The two decoration arrays
    are threaded through it; an exception raised inside the [try] block is
    caught, logged, and the loop goes on with what was pushed before it. *)
Fixpoint highlight_loop (d : TextDocument) (metrics : list (option Metric))
         (complexityDecorations refactorDecorations : list Decoration)
  : M (list Decoration * list Decoration) :=
  match metrics with
  | [] => ret (complexityDecorations, refactorDecorations)
  | m :: rest =>
      match valid_metric m with
      | None =>
          call console_warn ;;;
          highlight_loop d rest complexityDecorations refactorDecorations
      | Some (metric, s, e) =>
          let startLine := s - 1 in
          let endLine := e - 1 in
          match lineAt d endLine with
          | Throw _ =>
              call console_error ;;;
              highlight_loop d rest complexityDecorations refactorDecorations
          | Ret tl =>
              match new_Range startLine 0 endLine (str_length (trim (text tl))) with
              | Throw _ =>
                  call console_error ;;;
                  highlight_loop d rest complexityDecorations refactorDecorations
              | Ret r =>
                  let decoration :=
                    {| range := r;
                       label := if complexity metric >? 9
                                then HighLabel (complexity metric) (name metric)
                                else OptimalLabel (complexity metric) (name metric) |} in
                  let complexityDecorations' := complexityDecorations ++ [decoration] in
                  if complexity metric >? 9 then
                    match new_Range startLine 0 startLine 0 with
                    | Throw _ =>
                        call console_error ;;;
                        highlight_loop d rest complexityDecorations' refactorDecorations
                    | Ret refactorRange =>
                        st <- get ;;
                        set_complexityRanges
                          (JSMap.set (name metric) r (complexityRanges st)) ;;;
                        highlight_loop d rest complexityDecorations'
                          (refactorDecorations ++
                             [{| range := refactorRange;
                                 label := RefactorIcon (name metric) |}])
                    end
                  else highlight_loop d rest complexityDecorations' refactorDecorations
              end
          end
      end
  end.

(** [highlightComplexFunctions(metrics)]; [None] is a [null] argument. *)
Definition highlightComplexFunctions (metrics : option (list (option Metric))) : M unit :=
  st <- get ;;
  match activeEditor st with
  | None => call console_error
  | Some ed =>
      let d := document ed in
      if lineCount d <? 10 then ret tt
      else
        match metrics with
        | None | Some [] =>
            call (setDecorations complexityDecorationType []) ;;;
            call (setDecorations refactorDecorationType [])
        | Some ms =>
            if lineCount d <? 10 then
              call (setDecorations complexityDecorationType []) ;;;
              call (setDecorations refactorDecorationType [])
            else
              set_complexityRanges JSMap.empty ;;;
              ds <- highlight_loop d ms [] [] ;;
              call (setDecorations complexityDecorationType (fst ds)) ;;;
              call (setDecorations refactorDecorationType (snd ds))
        end
  end.

(** ** Event handlers *)

(** [updateDecorations()]. *)
Definition updateDecorations (escomplex : Engine) : M unit :=
  st <- get ;;
  match activeEditor st with
  | None => ret tt
  | Some ed =>
      let d := document ed in
      if negb (isValidSourceFile d) then call (setDecorations decorationType [])
      else
        (if lineCount d >? 10 then
           metrics <- analyzeComplexity escomplex (Some d) ;;
           highlightComplexFunctions metrics
         else call (setDecorations complexityDecorationType [])) ;;;
        detectFunctions d ;;;
        decorations <- createDecorations ;;
        call (setDecorations decorationType decorations)
  end.

(** [updateBatchButton()]. *)
Definition updateBatchButton : M unit :=
  st <- get ;;
  match activeEditor st with
  | None => call statusBar_hide
  | Some ed =>
      (if negb (isValidSourceFile (document ed)) then call statusBar_hide else ret tt) ;;;
      st' <- get ;;
      if JSMap.size (functionRanges st') >=? 2 then call statusBar_show
      else call statusBar_hide
  end.

Definition CLICK_DEBOUNCE_TIME : Z := 2000.
Definition TYPING_COOLDOWN : Z := 2000.

(** The [for ... of state.functionRanges] loop of the single-function
    click: the first entry that starts on the caret's line, if any. *)
Fixpoint find_range_on_line (entries : list (jsstring * Range)) (l : Z)
  : option (jsstring * Range) :=
  match entries with
  | [] => None
  | (n, r) :: rest =>
      if line (range_start r) =? l then Some (n, r) else find_range_on_line rest l
  end.

(** [handleSelectionChange(event)]; [currentTime] is what [Date.now()]
    returns during the call. *)
Definition handleSelectionChange (escomplex : Engine) (currentTime : Z)
           (event : SelectionChangeEvent) : M unit :=
  st <- get ;;
  match activeEditor st with
  | None => ret tt
  | Some ed =>
      if negb (same_editor (textEditor event) ed) then ret tt
      else
        match selections event with
        | [] => ret tt
        | selection :: _ =>
            if negb (isEmpty selection) then ret tt
            else
              updateDecorations escomplex ;;;
              updateBatchButton ;;;
              (if lineCount (document ed) >? 10 then
                 metrics <- analyzeComplexity escomplex (Some (document ed)) ;;
                 highlightComplexFunctions metrics
               else ret tt) ;;;
              let position := active selection in
              let d := document ed in
              l <- lift (lineAt d (line position)) ;;
              let lineLength := str_length (trim (text l)) in
              match trim (text l) with
              | [] => ret tt
              | _ =>
                  st1 <- get ;;
                  if isEditingFunction st1
                     || (currentTime - lastTypingTime st1 <? TYPING_COOLDOWN)
                  then ret tt
                  else
                    let isBatchClick :=
                      (character position >=? lineLength - 2)
                      && (character position <=? lineLength + 1) in
                    if (lineNumber l =? lineCount d - 1)
                       && (JSMap.size (functionRanges st1) >=? 2)
                       && (currentTime - lastClickTime st1 >? CLICK_DEBOUNCE_TIME)
                       && (isBatchClick && (Z.of_nat (length (selections event)) >? 1))
                    then
                      set_lastClickTime currentTime ;;;
                      call (call_handleBatchTestGeneration ed)
                    else
                      let isDeliberateClick :=
                        ((character position =? lineLength + 5)
                         || (character position =? lineLength + 6))
                        && (currentTime - lastClickTime st1 >? CLICK_DEBOUNCE_TIME) in
                      if isDeliberateClick then
                        set_lastClickTime currentTime ;;;
                        st2 <- get ;;
                        match find_range_on_line
                                (JSMap.entries (functionRanges st2)) (line position) with
                        | None => ret tt
                        | Some (n, r) =>
                            code <- lift (extractFunctionCode (activeEditor st2)
                                            (line (range_start r))) ;;
                            call (call_handleTestGeneration
                                    {| info_name := n; info_range := r;
                                       info_code := code |})
                        end
                      else ret tt
              end
        end
  end.

(** ** Notions used to state and prove the properties *)

(** The characters that can come before the name and inside it: word
    characters and white space. *)
Definition plain (c : N) : bool := is_word c || is_space c.

(** The last character of [x], if there is one, satisfies [Q]. *)
Definition last_sat (Q : N -> Prop) (x : jsstring) : Prop :=
  match rev x with
  | [] => True
  | c :: _ => Q c
  end.

(** [n] is the word right before the first character [c] of [text] that is
    neither a word character nor white space, and the line has only such
    characters before it. *)
Definition name_before (c : N) (text n : jsstring) : Prop :=
  exists y w rest,
    text = y ++ n ++ w ++ c :: rest /\
    Forall (fun a => plain a = true) y /\
    last_sat (fun a => is_word a = false) y /\
    word1 n /\ spaces w.

(** The range [detectFunctions] records for line [i] with text [t]. *)
Definition line_range (i : Z) (t : jsstring) : Range :=
  {| range_start := {| line := i; character := 0 |};
     range_end := {| line := i; character := str_length (trim t) |} |}.

(** What the loop of [detectFunctions] computes, as a fold over the lines
    from index [i] on: the map of names and the padding edits. *)
Fixpoint detect_fold (ls : list jsstring) (i : Z) (m : JSMap.t Range)
         (edits : list TextEdit) : JSMap.t Range * list TextEdit :=
  match ls with
  | [] => (m, edits)
  | t :: rest =>
      if skipped_line t then detect_fold rest (i + 1) m edits
      else
        match findFunctionDefinition t with
        | Some n =>
            detect_fold rest (i + 1) (JSMap.set n (line_range i t) m)
              (if negb (endsWith t placeholder)
               then edits ++ [{| insert_at := {| line := i; character := str_length t |};
                                 newText := placeholder |}]
               else edits)
        | None => detect_fold rest (i + 1) m edits
        end
  end.

(** The map [detectFunctions] leaves in [state.functionRanges]. *)
Definition detected (d : TextDocument) : JSMap.t Range :=
  fst (detect_fold (doc_lines d) 0 JSMap.empty []).

(** The state [detectFunctions] leaves behind. *)
Definition after_detect (d : TextDocument) (st : State) : State :=
  let '(m, edits) := detect_fold (doc_lines d) 0 JSMap.empty [] in
  match edits with
  | [] => with_functionRanges m st
  | _ => with_call (applyEdit edits) (with_functionRanges m st)
  end.

(** The brace counter and the opening-brace flag after scanning whole
    lines, one after the other. *)
Fixpoint scan_lines (ls : list jsstring) (braceCount : Z) (foundOpening : bool) : Z * bool :=
  match ls with
  | [] => (braceCount, foundOpening)
  | t :: rest =>
      let '(b, f) := scan_braces t braceCount foundOpening in scan_lines rest b f
  end.

(** At the end of line [k] of [ls] (counted from 0) the counter is zero and
    an opening brace has been seen, the scan having started with counter
    [b] and flag [f]. *)
Definition closes_at (b : Z) (f : bool) (ls : list jsstring) (k : nat) : bool :=
  let '(b', f') := scan_lines (firstn (S k) ls) b f in f' && (b' =? 0).

(** What the loop of [extractFunctionCode] computes on the lines left. *)
Fixpoint extract_fold (ls : list jsstring) (braceCount : Z) (foundOpening : bool)
         (code : list jsstring) : option jsstring :=
  match ls with
  | [] => None
  | t :: rest =>
      let '(b, f) := scan_braces t braceCount foundOpening in
      if f && (b =? 0) then Some (join newline (code ++ [t]))
      else extract_fold rest b f (code ++ [t])
  end.

(** A JavaScript document with the given lines, for the examples. *)
Definition js_document (ls : list jsstring) : TextDocument :=
  {| languageId := lit "javascript"; fileName := lit "a.js";
     doc_lines := ls; eol := newline |}.

Definition editor_of (d : TextDocument) : TextEditor :=
  {| editor_id := 1; document := d |}.

(** The session right after [ed] became the active editor. *)
Definition session_on (ed : TextEditor) : State :=
  {| activeEditor := Some ed;
     functionRanges := JSMap.empty; complexityRanges := JSMap.empty;
     isEditingFunction := false; lastClickTime := 0; lastTypingTime := 0;
     calls := [] |}.

(** A caret (empty selection) at the given line and column. *)
Definition caret (l c : Z) : Selection :=
  {| anchor := {| line := l; character := c |};
     active := {| line := l; character := c |} |}.

(** A two-function document, for the examples of the selection handler. *)
Definition two_functions : TextDocument :=
  js_document [lit "function a() {}"; lit "function b() {}"].

(** Everything but [complexityRanges] and the log of host calls is the
    same in both states. *)
Definition same_session (st st' : State) : Prop :=
  activeEditor st' = activeEditor st /\
  functionRanges st' = functionRanges st /\
  isEditingFunction st' = isEditingFunction st /\
  lastClickTime st' = lastClickTime st /\
  lastTypingTime st' = lastTypingTime st.

(** The metrics-engine record of Scenario B of the specification, and the
    metric the complexity mapper makes of it. *)
Definition scenario_method : Method :=
  {| method_name := lit "foo"; cyclomatic := 12; halstead_effort := 500%R;
     sloc_logical := 20; lineStart := 3; lineEnd := 10; method_errors := [] |}.

Definition scenario_metric : Metric := metric_of_method scenario_method.

(** The functions the selection handler sees as detected once it has
    refreshed the decorations: those of the active document when it is a
    valid source file, and otherwise whatever [functionRanges] held. *)
Definition functions_in_view (st : State) (ed : TextEditor) : JSMap.t Range :=
  if isValidSourceFile (document ed) then detected (document ed) else functionRanges st.

Definition is_batch_dispatch (c : HostCall) : bool :=
  match c with
  | call_handleBatchTestGeneration _ => true
  | _ => false
  end.

(** Fixed-point arithmetic with 20 decimals, used to bound [exp] and [ln]:
    [n] squarings of [z / 10^20], each rounded down, respectively up. *)
Definition fixed_scale : Z := 10 ^ 20.

Fixpoint square_down (n : nat) (z : Z) : Z :=
  match n with
  | O => z
  | S n' => square_down n' ((z * z) / fixed_scale)
  end.

Fixpoint square_up (n : nat) (z : Z) : Z :=
  match n with
  | O => z
  | S n' => square_up n' ((z * z + fixed_scale - 1) / fixed_scale)
  end.

(** The line starts with a word character. *)
Definition starts_word (text : jsstring) : Prop :=
  match text with
  | c :: _ => is_word c = true
  | [] => False
  end.

(** The character that ends the header of a shape: the opening parenthesis
    or the equals sign. *)
Definition delimiter (sh : Shape) : N :=
  match sh with
  | NamedFunction | MethodShorthand => 40%N
  | ConstArrow | ConstFunctionExpression => 61%N
  end.

(** ** The padding edits, as the host applies them *)

(** A detected declaration line that does not yet end with the 50 spaces
    of padding: the lines for which [detectFunctions] requests an edit. *)
Definition needs_padding (t : jsstring) : bool :=
  negb (skipped_line t)
  && match findFunctionDefinition t with Some _ => true | None => false end
  && negb (endsWith t placeholder).

(** [TextEdit.insert(position, text)] applied to the lines of a document
    (the inserted text holds no line break). *)
Definition insert_text (t : jsstring) (c : Z) (s : jsstring) : jsstring :=
  firstn (Z.to_nat c) t ++ s ++ skipn (Z.to_nat c) t.

Fixpoint update_line (ls : list jsstring) (i : nat) (f : jsstring -> jsstring)
  : list jsstring :=
  match ls, i with
  | [], _ => []
  | t :: rest, O => f t :: rest
  | t :: rest, S i' => t :: update_line rest i' f
  end.

Definition apply_edit (e : TextEdit) (ls : list jsstring) : list jsstring :=
  update_line ls (Z.to_nat (line (insert_at e)))
    (fun t => insert_text t (character (insert_at e)) (newText e)).

(** The edits of one [WorkspaceEdit]; those of [detectFunctions] are on
    distinct lines, so that applying them one after the other is applying
    them together. *)
Definition apply_edits (es : list TextEdit) (ls : list jsstring) : list jsstring :=
  fold_left (fun l e => apply_edit e l) es ls.

Definition with_lines (d : TextDocument) (ls : list jsstring) : TextDocument :=
  {| languageId := languageId d; fileName := fileName d; doc_lines := ls; eol := eol d |}.

(** The edits [detectFunctions] requests for a document. *)
Definition requested_edits (d : TextDocument) : list TextEdit :=
  snd (detect_fold (doc_lines d) 0 JSMap.empty []).

(** ** The remaining handlers *)

Definition with_activeEditor (e : option TextEditor) (st : State) : State :=
  {| activeEditor := e;
     functionRanges := functionRanges st;
     complexityRanges := complexityRanges st;
     isEditingFunction := isEditingFunction st;
     lastClickTime := lastClickTime st;
     lastTypingTime := lastTypingTime st;
     calls := calls st |}.

Definition set_activeEditor (e : option TextEditor) : M unit :=
  fun st => (Ret tt, with_activeEditor e st).

(** [handleEditorChange(editor)]; [None] is no editor. *)
Definition handleEditorChange (escomplex : Engine) (editor : option TextEditor) : M unit :=
  set_activeEditor editor ;;;
  match editor with
  | Some _ => updateDecorations escomplex ;;; updateBatchButton
  | None => call statusBar_hide
  end.

(** The test of [handleDocumentChange] for a change that matters: some
    change of the batch whose text the pattern below does not match. *)

(** Source pattern, token by token:  ^ \s* \/ \/ *)
Definition pattern_comment_insertion : regex :=
  seq_of [RBol; RStar CSpace; RLit (lit "//")].

Definition significantChange (contentChanges : list jsstring) : bool :=
  existsb (fun changeText =>
             match exec pattern_comment_insertion changeText with
             | Some _ => false
             | None => true
             end) contentChanges.

(** A call that starts test generation. *)
Definition is_dispatch (c : HostCall) : bool :=
  match c with
  | call_handleBatchTestGeneration _ | call_handleTestGeneration _ => true
  | _ => false
  end.

(** From [st] to [st'] no test generation was started, and the editor, the
    editing flag and the click and typing times are the same. *)
Definition undisturbed (st st' : State) : Prop :=
  (exists extra, calls st' = calls st ++ extra /\
                 forallb (fun c => negb (is_dispatch c)) extra = true) /\
  activeEditor st' = activeEditor st /\
  isEditingFunction st' = isEditingFunction st /\
  lastClickTime st' = lastClickTime st /\
  lastTypingTime st' = lastTypingTime st.

(** A computation that leaves every state undisturbed, whether it returns
    or throws. *)
Definition background {A} (m : M A) : Prop := forall st, undisturbed st (snd (m st)).

(** A metric the projector records in [complexityRanges]: its complexity
    exceeds 9 and its span of one-based lines starts at line 1 or later
    and ends on a line of the document. *)
Definition recordable (d : TextDocument) (metric : Metric) : Prop :=
  9 < complexity metric /\
  exists s e, lines metric = Some {| span_start := Some s; span_end := Some e |} /\
              1 <= s /\ 1 <= e <= lineCount d.

(** ** The code block of an API response *)

(** The opening fence of the pattern, with its line feed, and the closing
    fence. *)
Definition fence_open : jsstring := lit "```javascript" ++ newline.
Definition fence_close : jsstring := lit "```".

(** The lazy group of the pattern followed by the closing fence: the
    shortest run of characters, of any kind, after which [closing] comes. *)
Fixpoint lazy_until (closing inp : jsstring) : option jsstring :=
  if startsWith inp closing then Some []
  else match inp with
       | [] => None
       | c :: t =>
           match lazy_until closing t with
           | Some g => Some (c :: g)
           | None => None
           end
       end.

(** Group 1 of [response.match] for the pattern of the extractors (an
    opening fence, the lazy group, a closing fence), tried from each start
    index from the left; [None] when there is no match. *)
Fixpoint match_fenced (text : jsstring) : option jsstring :=
  match match strip_prefix fence_open text with
        | Some rest => lazy_until fence_close rest
        | None => None
        end with
  | Some g => Some g
  | None =>
      match text with
      | [] => None
      | _ :: t => match_fenced t
      end
  end.

(** [extractTestCode(response)]. *)
Definition extractTestCode (response : jsstring) : jsstring :=
  match match_fenced response with
  | Some code => trim code
  | None => response
  end.

(** [extractRefactoredCode(response)]. *)
Definition extractRefactoredCode (response : jsstring) : jsstring :=
  match match_fenced response with
  | Some code => trim code
  | None => trim response
  end.

(** * Properties *)

(** ** Strings *)

Lemma is_space_not_word c : is_space c = true -> is_word c = false.
Proof.
  unfold is_space, is_word. intros H.
  repeat (apply orb_prop in H; destruct H as [H | H]);
    repeat (apply andb_prop in H; destruct H as [H ?]);
    repeat match goal with
           | H : (_ <=? _)%N = true |- _ => apply N.leb_le in H
           | H : (_ =? _)%N = true |- _ => apply N.eqb_eq in H
           end;
    repeat (apply orb_false_intro); try apply andb_false_iff;
    try (apply N.eqb_neq; lia);
    try (left; apply N.leb_gt; lia); try (right; apply N.leb_gt; lia).
Qed.

Lemma is_word_not_space c : is_word c = true -> is_space c = false.
Proof.
  intros H. destruct (is_space c) eqn:E; [|reflexivity].
  apply is_space_not_word in E. congruence.
Qed.

Lemma jseqb_eq a b : JS.eqb a b = true <-> a = b.
Proof.
  revert b. induction a as [|x a IH]; intros [|y b]; simpl; split; intros H;
    try congruence; try discriminate.
  - apply andb_prop in H as [H1 H2]. apply N.eqb_eq in H1. apply IH in H2. congruence.
  - injection H as -> ->. rewrite N.eqb_refl. simpl. apply IH. reflexivity.
Qed.

Lemma jseqb_refl a : JS.eqb a a = true.
Proof. apply jseqb_eq. reflexivity. Qed.

Lemma jseqb_neq a b : JS.eqb a b = false <-> a <> b.
Proof.
  split.
  - intros H E. apply jseqb_eq in E. congruence.
  - intros H. destruct (JS.eqb a b) eqn:E; [|reflexivity].
    apply jseqb_eq in E. contradiction.
Qed.

Lemma startsWith_spec s p : startsWith s p = true <-> exists r, s = p ++ r.
Proof.
  revert s. induction p as [|a p IH]; intros s; simpl.
  - destruct s; (split; [intros _; eexists; reflexivity | reflexivity]).
  - destruct s as [|b s].
    + split; [discriminate | intros [r Hr]; discriminate].
    + split.
      * intros H. apply andb_prop in H as [H1 H2]. apply N.eqb_eq in H1.
        apply IH in H2 as [r ->]. exists r. congruence.
      * intros [r Hr]. injection Hr as -> ->. simpl. rewrite N.eqb_refl. simpl.
        apply IH. eauto.
Qed.

Lemma indexOf_from_ge s p i j : indexOf_from s p i = Some j -> (i <= j)%nat.
Proof.
  revert i. induction s as [|c s IH]; intros i; cbn [indexOf_from].
  - destruct (startsWith [] p); intros H; inversion H; subst; lia.
  - destruct (startsWith (c :: s) p); intros H; [inversion H; subst; lia |].
    apply IH in H. lia.
Qed.

Lemma indexOf_zero s p : indexOf s p = Some O -> startsWith s p = true.
Proof.
  unfold indexOf. destruct s as [|c s]; cbn [indexOf_from].
  - destruct (startsWith [] p); [reflexivity | discriminate].
  - destruct (startsWith (c :: s) p); [reflexivity |].
    intros H. apply indexOf_from_ge in H. lia.
Qed.

(** Leading characters of a class are determined by the text. *)
Lemma span_unique (P : N -> bool) (w w' x x' : jsstring) :
  w ++ x = w' ++ x' ->
  Forall (fun c => P c = true) w -> Forall (fun c => P c = true) w' ->
  match x with [] => True | c :: _ => P c = false end ->
  match x' with [] => True | c :: _ => P c = false end ->
  w = w' /\ x = x'.
Proof.
  revert w'. induction w as [|a w IH]; intros [|a' w'] E Hw Hw' Hx Hx'; simpl in E.
  - auto.
  - subst x. inversion Hw'; subst. congruence.
  - subst x'. inversion Hw; subst. congruence.
  - injection E as -> E. inversion Hw; inversion Hw'; subst.
    destruct (IH w' E) as [-> ->]; auto.
Qed.

(** The same for trailing characters. *)
Lemma span_unique_end (P : N -> bool) (w w' x x' : jsstring) :
  x ++ w = x' ++ w' ->
  Forall (fun c => P c = true) w -> Forall (fun c => P c = true) w' ->
  last_sat (fun c => P c = false) x -> last_sat (fun c => P c = false) x' ->
  x = x' /\ w = w'.
Proof.
  intros E Hw Hw' Hx Hx'.
  assert (E' : rev w ++ rev x = rev w' ++ rev x').
  { rewrite <- !rev_app_distr. congruence. }
  apply span_unique with (P := P) in E'; auto using Forall_rev.
  destruct E' as [E1 E2]. split.
  - rewrite <- (rev_involutive x), <- (rev_involutive x'). congruence.
  - rewrite <- (rev_involutive w), <- (rev_involutive w'). congruence.
Qed.

(** ** The regular-expression matcher *)

Lemma strip_prefix_spec p s rest : strip_prefix p s = Some rest <-> s = p ++ rest.
Proof.
  revert s. induction p as [|a p IH]; intros s; simpl.
  - split; congruence.
  - destruct s as [|b s]; [split; discriminate|].
    destruct (N.eqb_spec a b) as [->|Hne].
    + rewrite IH. split; [intros ->; reflexivity | intros [= ->]; reflexivity].
    + split; [discriminate | intros [= -> _]; contradiction].
Qed.

Lemma strip_prefix_app p rest : strip_prefix p (p ++ rest) = Some rest.
Proof. apply strip_prefix_spec. reflexivity. Qed.

(** Whatever the greedy loop returns comes from the continuation, called
    after a run of characters of the class. *)
Lemma star_loop_sound {A} cc pos inp cap (k : cont A) res :
  star_loop cc pos inp cap k = Some res ->
  exists w rest, inp = w ++ rest /\
    Forall (fun c => cclass_matches cc c = true) w /\
    k (pos + length w)%nat rest cap = Some res.
Proof.
  revert pos. induction inp as [|c t IH]; intros pos; simpl.
  - intros H. exists [], []. rewrite Nat.add_0_r. auto.
  - destruct (cclass_matches cc c) eqn:Hc.
    + destruct (star_loop cc (S pos) t cap k) eqn:Hs.
      * intros [= ->]. apply IH in Hs as (w & rest & -> & Hw & Hk).
        exists (c :: w), rest. simpl. rewrite Nat.add_succ_r. auto.
      * intros H. exists [], (c :: t). rewrite Nat.add_0_r. auto.
    + intros H. exists [], (c :: t). rewrite Nat.add_0_r. auto.
Qed.

(** Soundness: a result of the matcher comes from a match in the sense of
    [matches], handed to the continuation. *)
Lemma rmatch_sound {A} r : forall pos inp cap (k : cont A) res,
  rmatch r pos inp cap k = Some res ->
  exists w rest cap', inp = w ++ rest /\ matches r pos w cap cap' /\
    k (pos + length w)%nat rest cap' = Some res.
Proof.
  induction r as [|s|cc|cc|r IH|r IH|r1 IH1 r2 IH2]; intros pos inp cap k res; simpl.
  - destruct pos; [|discriminate]. intros H.
    exists [], inp, cap. repeat split; [constructor | exact H].
  - destruct (strip_prefix s inp) as [rest|] eqn:E; [|discriminate].
    apply strip_prefix_spec in E as ->. intros H.
    exists s, rest, cap. repeat split; [constructor | exact H].
  - intros H. apply star_loop_sound in H as (w & rest & -> & Hw & Hk).
    exists w, rest, cap. repeat split; [constructor; exact Hw | exact Hk].
  - destruct inp as [|c t]; [discriminate|].
    destruct (cclass_matches cc c) eqn:Hc; [|discriminate].
    intros H. apply star_loop_sound in H as (w & rest & -> & Hw & Hk).
    exists (c :: w), rest, cap. simpl. rewrite Nat.add_succ_r.
    repeat split; [constructor; [discriminate | auto] | exact Hk].
  - destruct (rmatch r pos inp cap k) eqn:E.
    + intros [= ->]. apply IH in E as (w & rest & cap' & -> & Hm & Hk).
      exists w, rest, cap'. repeat split; [constructor; exact Hm | exact Hk].
    + intros H. exists [], inp, cap. rewrite Nat.add_0_r.
      repeat split; [apply matches_opt_skipped | exact H].
  - intros H. apply IH in H as (w & rest & cap' & -> & Hm & Hk).
    exists w, rest, (Some w). repeat split; [econstructor; exact Hm |].
    replace (pos + length w - pos)%nat with (length w) in Hk by lia.
    rewrite firstn_app, Nat.sub_diag, firstn_all in Hk. simpl in Hk.
    rewrite app_nil_r in Hk. exact Hk.
  - intros H. apply IH1 in H as (w1 & rest1 & cap1 & -> & Hm1 & H).
    apply IH2 in H as (w2 & rest & cap2 & -> & Hm2 & Hk).
    exists (w1 ++ w2), rest, cap2. rewrite <- app_assoc, length_app, Nat.add_assoc.
    repeat split; [econstructor; eassumption | exact Hk].
Qed.

Lemma star_loop_stop {A} cc pos inp cap (k : cont A) :
  k pos inp cap <> None -> star_loop cc pos inp cap k <> None.
Proof.
  intros H. destruct inp as [|c t]; simpl; [exact H|].
  destruct (cclass_matches cc c); [|exact H].
  destruct (star_loop cc (S pos) t cap k); [discriminate | exact H].
Qed.

Lemma star_loop_complete {A} cc w : forall pos rest cap (k : cont A),
  Forall (fun c => cclass_matches cc c = true) w ->
  k (pos + length w)%nat rest cap <> None ->
  star_loop cc pos (w ++ rest) cap k <> None.
Proof.
  induction w as [|c w IH]; intros pos rest cap k Hw Hk.
  - simpl in *. rewrite Nat.add_0_r in Hk. apply star_loop_stop. exact Hk.
  - inversion Hw; subst. simpl. rewrite H1.
    destruct (star_loop cc (S pos) (w ++ rest) cap k) eqn:E; [discriminate|].
    exfalso. apply (IH (S pos) rest cap k); auto.
    simpl in Hk. rewrite Nat.add_succ_r in Hk. exact Hk.
Qed.

(** Completeness: when the text has a match that the continuation accepts,
    the search returns a result (that of the first accepted match in
    priority order, which need not be this one). *)
Lemma rmatch_complete {A} r pos w cap cap' :
  matches r pos w cap cap' ->
  forall rest (k : cont A),
    k (pos + length w)%nat rest cap' <> None ->
    rmatch r pos (w ++ rest) cap k <> None.
Proof.
  induction 1 as [cap|s pos cap|cc pos w cap Hw|cc pos w cap Hne Hw
                 |r pos w cap cap' Hm IH|r pos cap|r pos w cap cap' Hm IH
                 |r1 r2 pos w1 w2 cap cap1 cap2 Hm1 IH1 Hm2 IH2];
    intros rest k Hk; simpl.
  - exact Hk.
  - rewrite strip_prefix_app. exact Hk.
  - apply star_loop_complete; assumption.
  - destruct w as [|c w]; [contradiction|]. inversion Hw; subst. simpl.
    rewrite H1. apply star_loop_complete; [assumption|].
    simpl in Hk. rewrite Nat.add_succ_r in Hk. exact Hk.
  - specialize (IH rest k Hk).
    destruct (rmatch r pos (w ++ rest) cap k); [discriminate | contradiction].
  - rewrite Nat.add_0_r in Hk.
    destruct (rmatch r pos rest cap k); [discriminate | exact Hk].
  - apply IH.
    replace (pos + length w - pos)%nat with (length w) by lia.
    rewrite firstn_app, Nat.sub_diag, firstn_all. simpl. rewrite app_nil_r. exact Hk.
  - rewrite <- app_assoc. apply IH1. apply IH2.
    rewrite length_app, Nat.add_assoc in Hk. exact Hk.
Qed.

(** An anchored expression can only match at index 0. *)
Lemma exec_from_anchored r n inp : exec_from (RSeq RBol r) (S n) inp = None.
Proof.
  revert n. induction inp as [|c t IH]; intros n; simpl; [reflexivity | apply IH].
Qed.

Lemma exec_anchored r text :
  exec (RSeq RBol r) text =
  rmatch r 0 text None (fun _ _ cap => Some {| index := 0; group1 := cap |}).
Proof.
  unfold exec. destruct text as [|c t]; simpl.
  - destruct (rmatch r 0 [] None _); reflexivity.
  - destruct (rmatch r 0 (c :: t) None _); [reflexivity | apply exec_from_anchored].
Qed.

(** Inversion of [matches], one lemma per construct of the patterns. *)

Lemma matches_seq_inv r1 r2 pos w cap cap' :
  matches (RSeq r1 r2) pos w cap cap' ->
  exists w1 w2 cap1, w = w1 ++ w2 /\ matches r1 pos w1 cap cap1 /\
    matches r2 (pos + length w1) w2 cap1 cap'.
Proof. inversion 1; subst. eauto 6. Qed.

Lemma matches_lit_inv s pos w cap cap' :
  matches (RLit s) pos w cap cap' -> w = s /\ cap' = cap.
Proof. inversion 1; subst. auto. Qed.

Lemma matches_star_inv cc pos w cap cap' :
  matches (RStar cc) pos w cap cap' ->
  Forall (fun c => cclass_matches cc c = true) w /\ cap' = cap.
Proof. inversion 1; subst. auto. Qed.

Lemma matches_plus_inv cc pos w cap cap' :
  matches (RPlus cc) pos w cap cap' ->
  (w <> [] /\ Forall (fun c => cclass_matches cc c = true) w) /\ cap' = cap.
Proof. inversion 1; subst. auto. Qed.

Lemma matches_group_word_inv pos w cap cap' :
  matches (RGroup (RPlus CWord)) pos w cap cap' -> word1 w /\ cap' = Some w.
Proof.
  inversion 1; subst. split; [|reflexivity].
  match goal with H : matches (RPlus _) _ _ _ _ |- _ =>
    apply matches_plus_inv in H as [H _]; exact H end.
Qed.

Lemma matches_opt_keyword_inv kw pos w cap cap' :
  matches (ROpt (RSeq (RLit kw) (RPlus CSpace))) pos w cap cap' ->
  opt_keyword kw w /\ cap' = cap.
Proof.
  inversion 1; subst.
  - match goal with H : matches (RSeq _ _) _ _ _ _ |- _ =>
      apply matches_seq_inv in H as (w1 & w2 & c1 & -> & H1 & H2) end.
    apply matches_lit_inv in H1 as [-> ->].
    apply matches_plus_inv in H2 as [H2 ->].
    split; [constructor; exact H2 | reflexivity].
  - split; [constructor | reflexivity].
Qed.

Lemma matches_opt_async_inv pos w cap cap' :
  matches (ROpt (RSeq (RLit (lit "async")) (RStar CSpace))) pos w cap cap' ->
  opt_async_arrow w /\ cap' = cap.
Proof.
  inversion 1; subst.
  - match goal with H : matches (RSeq _ _) _ _ _ _ |- _ =>
      apply matches_seq_inv in H as (w1 & w2 & c1 & -> & H1 & H2) end.
    apply matches_lit_inv in H1 as [-> ->].
    apply matches_star_inv in H2 as [H2 ->].
    split; [constructor; exact H2 | reflexivity].
  - split; [constructor | reflexivity].
Qed.

(** And the converse constructions. *)

Lemma opt_keyword_matches kw pos w cap :
  opt_keyword kw w -> matches (ROpt (RSeq (RLit kw) (RPlus CSpace))) pos w cap cap.
Proof.
  intros [|w' [Hne Hw]].
  - apply matches_opt_skipped.
  - apply matches_opt_taken. apply matches_seq with (cap1 := cap).
    + constructor.
    + constructor; assumption.
Qed.

Lemma opt_async_matches pos w cap :
  opt_async_arrow w ->
  matches (ROpt (RSeq (RLit (lit "async")) (RStar CSpace))) pos w cap cap.
Proof.
  intros [|w' Hw].
  - apply matches_opt_skipped.
  - apply matches_opt_taken. apply matches_seq with (cap1 := cap).
    + constructor.
    + constructor; assumption.
Qed.

Lemma word_group_matches pos n cap :
  word1 n -> matches (RGroup (RPlus CWord)) pos n cap (Some n).
Proof.
  intros [Hne Hn]. apply matches_group with (cap' := cap). constructor; assumption.
Qed.

Lemma spaces_star_matches pos w cap : spaces w -> matches (RStar CSpace) pos w cap cap.
Proof. intros H. constructor. exact H. Qed.

Lemma spaces_plus_matches pos w cap : spaces1 w -> matches (RPlus CSpace) pos w cap cap.
Proof. intros [Hne H]. constructor; assumption. Qed.

Lemma no_rparen_matches pos a cap : no_rparen a -> matches (RStar (CNot 41)) pos a cap cap.
Proof.
  intros H. constructor. unfold no_rparen in H.
  eapply List.Forall_impl; [|exact H]. simpl. intros c Hc. rewrite Hc. reflexivity.
Qed.

(** ** The four patterns and the declaration shapes *)

Tactic Notation "peel" hyp(H) ident(x) ident(Hx) :=
  apply matches_seq_inv in H as (x & ? & ? & -> & Hx & H).

Lemma not_rparen_class a :
  Forall (fun c => cclass_matches (CNot 41) c = true) a -> no_rparen a.
Proof.
  intros H. unfold no_rparen. eapply List.Forall_impl; [|exact H].
  simpl. intros c Hc. destruct (c =? 41)%N; [discriminate | reflexivity].
Qed.

(** Every match of a pattern starts at index 0, captures a name, and shows
    that the line is a declaration of the pattern's shape. *)
Lemma exec_pattern_sound sh text m :
  exec (pattern_of sh) text = Some m ->
  index m = O /\ exists n, group1 m = Some n /\ declaration sh n text.
Proof.
  destruct sh; cbn [declaration pattern_of];
    [unfold pattern_function | unfold pattern_arrow
     | unfold pattern_function_expression | unfold pattern_method];
    cbn [seq_of]; rewrite exec_anchored; intros H;
    apply rmatch_sound in H as (w & rest & cap' & -> & Hm & Hk);
    injection Hk as <-; (split; [reflexivity|]); cbn [group1].
  - peel Hm e He. apply matches_opt_keyword_inv in He as [He ->].
    peel Hm a Ha. apply matches_opt_keyword_inv in Ha as [Ha ->].
    peel Hm f Hf. apply matches_lit_inv in Hf as [-> ->].
    peel Hm w1 Hw1. apply matches_plus_inv in Hw1 as [Hw1 ->].
    peel Hm n Hn. apply matches_group_word_inv in Hn as [Hn ->].
    peel Hm w2 Hw2. apply matches_star_inv in Hw2 as [Hw2 ->].
    apply matches_lit_inv in Hm as [-> ->].
    exists n. split; [reflexivity|].
    exists e, a, w1, w2, rest. repeat split; try assumption; try apply Hw1; try apply Hn.
    rewrite <- !app_assoc. reflexivity.
  - peel Hm e He. apply matches_opt_keyword_inv in He as [He ->].
    peel Hm f Hf. apply matches_lit_inv in Hf as [-> ->].
    peel Hm w1 Hw1. apply matches_plus_inv in Hw1 as [Hw1 ->].
    peel Hm n Hn. apply matches_group_word_inv in Hn as [Hn ->].
    peel Hm w2 Hw2. apply matches_star_inv in Hw2 as [Hw2 ->].
    peel Hm q Hq. apply matches_lit_inv in Hq as [-> ->].
    peel Hm w3 Hw3. apply matches_star_inv in Hw3 as [Hw3 ->].
    peel Hm a Ha. apply matches_opt_async_inv in Ha as [Ha ->].
    peel Hm lp Hlp. apply matches_lit_inv in Hlp as [-> ->].
    peel Hm args Hargs. apply matches_star_inv in Hargs as [Hargs ->].
    peel Hm rp Hrp. apply matches_lit_inv in Hrp as [-> ->].
    peel Hm w4 Hw4. apply matches_star_inv in Hw4 as [Hw4 ->].
    apply matches_lit_inv in Hm as [-> ->].
    exists n. split; [reflexivity|].
    exists e, w1, w2, w3, a, args, w4, rest.
    repeat split; try assumption; try apply Hw1; try apply Hn;
      try (apply not_rparen_class; assumption).
    rewrite <- !app_assoc. reflexivity.
  - peel Hm e He. apply matches_opt_keyword_inv in He as [He ->].
    peel Hm f Hf. apply matches_lit_inv in Hf as [-> ->].
    peel Hm w1 Hw1. apply matches_plus_inv in Hw1 as [Hw1 ->].
    peel Hm n Hn. apply matches_group_word_inv in Hn as [Hn ->].
    peel Hm w2 Hw2. apply matches_star_inv in Hw2 as [Hw2 ->].
    peel Hm q Hq. apply matches_lit_inv in Hq as [-> ->].
    peel Hm w3 Hw3. apply matches_star_inv in Hw3 as [Hw3 ->].
    peel Hm g Hg. apply matches_lit_inv in Hg as [-> ->].
    peel Hm w4 Hw4. apply matches_star_inv in Hw4 as [Hw4 ->].
    apply matches_lit_inv in Hm as [-> ->].
    exists n. split; [reflexivity|].
    exists e, w1, w2, w3, w4, rest.
    repeat split; try assumption; try apply Hw1; try apply Hn.
    rewrite <- !app_assoc. reflexivity.
  - peel Hm e He. apply matches_opt_keyword_inv in He as [He ->].
    peel Hm a Ha. apply matches_opt_keyword_inv in Ha as [Ha ->].
    peel Hm n Hn. apply matches_group_word_inv in Hn as [Hn ->].
    peel Hm w1 Hw1. apply matches_star_inv in Hw1 as [Hw1 ->].
    peel Hm lp Hlp. apply matches_lit_inv in Hlp as [-> ->].
    peel Hm args Hargs. apply matches_star_inv in Hargs as [Hargs ->].
    peel Hm rp Hrp. apply matches_lit_inv in Hrp as [-> ->].
    peel Hm w2 Hw2. apply matches_star_inv in Hw2 as [Hw2 ->].
    apply matches_lit_inv in Hm as [-> ->].
    exists n. split; [reflexivity|].
    exists e, a, w1, args, w2, rest.
    repeat split; try assumption; try apply Hn;
      try (apply not_rparen_class; assumption).
    rewrite <- !app_assoc. reflexivity.
Qed.

Ltac build_match :=
  repeat (eapply matches_seq;
          [ first [ apply opt_keyword_matches; assumption
                  | apply opt_async_matches; assumption
                  | apply matches_lit
                  | apply spaces_plus_matches; assumption
                  | apply spaces_star_matches; assumption
                  | apply word_group_matches; assumption
                  | apply no_rparen_matches; assumption ] | ]);
  apply matches_lit.

(** A declaration of a shape is matched by the pattern of that shape. *)
Lemma exec_pattern_complete sh n text :
  declaration sh n text -> exec (pattern_of sh) text <> None.
Proof.
  destruct sh; cbn [declaration pattern_of].
  - intros (e & a & w1 & w2 & rest & He & Ha & Hw1 & Hn & Hw2 & ->).
    unfold pattern_function; cbn [seq_of]; rewrite exec_anchored.
    replace (e ++ a ++ lit "function" ++ w1 ++ n ++ w2 ++ lit "(" ++ rest)
      with ((e ++ a ++ lit "function" ++ w1 ++ n ++ w2 ++ lit "(") ++ rest)
      by (rewrite <- !app_assoc; reflexivity).
    apply rmatch_complete with (cap' := Some n); [build_match | discriminate].
  - intros (e & w1 & w2 & w3 & a & args & w4 & rest &
            He & Hw1 & Hn & Hw2 & Hw3 & Ha & Hargs & Hw4 & ->).
    unfold pattern_arrow; cbn [seq_of]; rewrite exec_anchored.
    replace (e ++ lit "const" ++ w1 ++ n ++ w2 ++ lit "=" ++ w3 ++ a ++
             lit "(" ++ args ++ lit ")" ++ w4 ++ lit "=>" ++ rest)
      with ((e ++ lit "const" ++ w1 ++ n ++ w2 ++ lit "=" ++ w3 ++ a ++
             lit "(" ++ args ++ lit ")" ++ w4 ++ lit "=>") ++ rest)
      by (rewrite <- !app_assoc; reflexivity).
    apply rmatch_complete with (cap' := Some n); [build_match | discriminate].
  - intros (e & w1 & w2 & w3 & w4 & rest & He & Hw1 & Hn & Hw2 & Hw3 & Hw4 & ->).
    unfold pattern_function_expression; cbn [seq_of]; rewrite exec_anchored.
    replace (e ++ lit "const" ++ w1 ++ n ++ w2 ++ lit "=" ++ w3 ++
             lit "function" ++ w4 ++ lit "(" ++ rest)
      with ((e ++ lit "const" ++ w1 ++ n ++ w2 ++ lit "=" ++ w3 ++
             lit "function" ++ w4 ++ lit "(") ++ rest)
      by (rewrite <- !app_assoc; reflexivity).
    apply rmatch_complete with (cap' := Some n); [build_match | discriminate].
  - intros (e & a & w1 & args & w2 & rest & He & Ha & Hn & Hw1 & Hargs & Hw2 & ->).
    unfold pattern_method; cbn [seq_of]; rewrite exec_anchored.
    replace (e ++ a ++ n ++ w1 ++ lit "(" ++ args ++ lit ")" ++ w2 ++ lit "{" ++ rest)
      with ((e ++ a ++ n ++ w1 ++ lit "(" ++ args ++ lit ")" ++ w2 ++ lit "{") ++ rest)
      by (rewrite <- !app_assoc; reflexivity).
    apply rmatch_complete with (cap' := Some n); [build_match | discriminate].
Qed.

(** ** A declaration determines its name *)

Lemma plain_word c : is_word c = true -> plain c = true.
Proof. unfold plain. intros ->. reflexivity. Qed.

Lemma plain_space c : is_space c = true -> plain c = true.
Proof. unfold plain. intros ->. apply orb_true_r. Qed.

Lemma Forall_plain_word n : Forall (fun c => is_word c = true) n ->
  Forall (fun c => plain c = true) n.
Proof. intros H. eapply List.Forall_impl; [|exact H]. apply plain_word. Qed.

Lemma Forall_plain_space w : spaces w -> Forall (fun c => plain c = true) w.
Proof. intros H. eapply List.Forall_impl; [|exact H]. apply plain_space. Qed.

Lemma Forall_forallb (P : N -> bool) l : forallb P l = true -> Forall (fun c => P c = true) l.
Proof. intros H. apply List.Forall_forall. apply forallb_forall. exact H. Qed.

Lemma Forall_plain_keyword kw e :
  forallb plain kw = true -> opt_keyword kw e -> Forall (fun c => plain c = true) e.
Proof.
  intros Hkw [|w [_ Hw]]; [constructor|].
  apply Forall_app. split; [apply Forall_forallb; exact Hkw | apply Forall_plain_space; exact Hw].
Qed.

Lemma last_sat_app (Q : N -> Prop) x w :
  w <> [] -> Forall Q w -> last_sat Q (x ++ w).
Proof.
  intros Hne Hw. unfold last_sat. rewrite rev_app_distr.
  destruct (rev w) as [|c t] eqn:E.
  - apply (f_equal (@rev N)) in E. rewrite rev_involutive in E. contradiction.
  - simpl. rewrite List.Forall_forall in Hw. apply Hw.
    apply in_rev. rewrite E. left. reflexivity.
Qed.

Lemma last_sat_spaces1 x w : spaces1 w -> last_sat (fun c => is_word c = false) (x ++ w).
Proof.
  intros [Hne Hw]. apply last_sat_app; [exact Hne|].
  eapply List.Forall_impl; [|exact Hw]. apply is_space_not_word.
Qed.

Lemma last_sat_keyword kw x e :
  opt_keyword kw e -> last_sat (fun c => is_word c = false) x ->
  last_sat (fun c => is_word c = false) (x ++ e).
Proof.
  intros [|w Hw] Hx.
  - rewrite app_nil_r. exact Hx.
  - rewrite app_assoc. apply last_sat_spaces1. exact Hw.
Qed.

Lemma last_sat_word x n : word1 n -> last_sat (fun c => is_space c = false) (x ++ n).
Proof.
  intros [Hne Hn]. apply last_sat_app; [exact Hne|].
  eapply List.Forall_impl; [|exact Hn]. apply is_word_not_space.
Qed.

Ltac solve_plain :=
  repeat (apply Forall_app; split);
  try (eapply Forall_plain_keyword; [|eassumption]; reflexivity);
  try (apply Forall_forallb; reflexivity);
  try (apply Forall_plain_space;
       first [assumption | match goal with H : spaces1 _ |- _ => apply H end]).

(** Every instance of a shape has its name right before the delimiter of
    the shape, which is the first character of the line that is neither a
    word character nor white space. *)
Lemma declaration_name_before sh n text :
  declaration sh n text -> name_before (delimiter sh) text n.
Proof.
  destruct sh; cbn [declaration delimiter].
  - intros (e & a & w1 & w2 & rest & He & Ha & Hw1 & Hn & Hw2 & ->).
    exists (e ++ a ++ lit "function" ++ w1), w2, rest. repeat split; try apply Hn; auto.
    + rewrite <- !app_assoc. reflexivity.
    + solve_plain.
    + rewrite !app_assoc. apply last_sat_spaces1. exact Hw1.
  - intros (e & w1 & w2 & w3 & a & args & w4 & rest &
            He & Hw1 & Hn & Hw2 & Hw3 & Ha & Hargs & Hw4 & ->).
    exists (e ++ lit "const" ++ w1), w2,
      (w3 ++ a ++ lit "(" ++ args ++ lit ")" ++ w4 ++ lit "=>" ++ rest).
    repeat split; try apply Hn; auto.
    + rewrite <- !app_assoc. reflexivity.
    + solve_plain.
    + rewrite !app_assoc. apply last_sat_spaces1. exact Hw1.
  - intros (e & w1 & w2 & w3 & w4 & rest & He & Hw1 & Hn & Hw2 & Hw3 & Hw4 & ->).
    exists (e ++ lit "const" ++ w1), w2, (w3 ++ lit "function" ++ w4 ++ lit "(" ++ rest).
    repeat split; try apply Hn; auto.
    + rewrite <- !app_assoc. reflexivity.
    + solve_plain.
    + rewrite !app_assoc. apply last_sat_spaces1. exact Hw1.
  - intros (e & a & w1 & args & w2 & rest & He & Ha & Hn & Hw1 & Hargs & Hw2 & ->).
    exists (e ++ a), w1, (args ++ lit ")" ++ w2 ++ lit "{" ++ rest).
    repeat split; try apply Hn; auto.
    + rewrite <- !app_assoc. reflexivity.
    + solve_plain.
    + apply last_sat_keyword with (kw := lit "async"); [exact Ha|].
      apply (last_sat_keyword (lit "export") [] e He). exact I.
Qed.

Lemma name_before_unique c c' text n n' :
  plain c = false -> plain c' = false ->
  name_before c text n -> name_before c' text n' -> c = c' /\ n = n'.
Proof.
  intros Hc Hc' (y & w & rest & -> & Hy & Hly & Hn & Hw)
         (y' & w' & rest' & E & Hy' & Hly' & Hn' & Hw').
  assert (E1 : (y ++ n ++ w) ++ c :: rest = (y' ++ n' ++ w') ++ c' :: rest').
  { rewrite <- !app_assoc. exact E. }
  apply span_unique with (P := plain) in E1; auto.
  - destruct E1 as [E1 E2]. injection E2 as -> _. split; [reflexivity|].
    rewrite !app_assoc in E1.
    apply span_unique_end with (P := is_space) in E1; auto.
    + destruct E1 as [E1 _].
      apply span_unique_end with (P := is_word) in E1; [tauto | apply Hn | apply Hn' | auto ..].
    + apply last_sat_word. exact Hn.
    + apply last_sat_word. exact Hn'.
  - repeat (apply Forall_app; split); auto using Forall_plain_space.
    apply Forall_plain_word, Hn.
  - repeat (apply Forall_app; split); auto using Forall_plain_space.
    apply Forall_plain_word, Hn'.
Qed.

Lemma delimiter_not_plain sh : plain (delimiter sh) = false.
Proof. destruct sh; reflexivity. Qed.

(** A line is a declaration of at most one name, whatever the shape. *)
Lemma declaration_unique sh sh' n n' text :
  declaration sh n text -> declaration sh' n' text -> n = n'.
Proof.
  intros H H'. apply declaration_name_before in H, H'.
  eapply name_before_unique; [apply delimiter_not_plain | apply delimiter_not_plain | eassumption ..].
Qed.

Lemma starts_word_app a b : starts_word a -> starts_word (a ++ b).
Proof. destruct a; simpl; [contradiction | auto]. Qed.

Lemma starts_word_keyword kw e x :
  starts_word kw -> opt_keyword kw e -> starts_word x -> starts_word (e ++ x).
Proof.
  intros Hkw [|w _] Hx; [exact Hx|].
  apply starts_word_app, starts_word_app. exact Hkw.
Qed.

Lemma starts_word_name n x : word1 n -> starts_word (n ++ x).
Proof.
  intros [Hne Hn]. destruct n as [|c n]; [contradiction|].
  inversion Hn; subst. assumption.
Qed.

(** A declaration starts, at the first column, with a word character. *)
Lemma declaration_starts_word sh n text : declaration sh n text -> starts_word text.
Proof.
  destruct sh; cbn [declaration].
  - intros (e & a & w1 & w2 & rest & He & Ha & Hw1 & Hn & Hw2 & ->).
    apply (starts_word_keyword (lit "export") _ _ eq_refl He).
    apply (starts_word_keyword (lit "async") _ _ eq_refl Ha). reflexivity.
  - intros (e & w1 & w2 & w3 & a & args & w4 & rest &
            He & Hw1 & Hn & Hw2 & Hw3 & Ha & Hargs & Hw4 & ->).
    apply (starts_word_keyword (lit "export") _ _ eq_refl He). reflexivity.
  - intros (e & w1 & w2 & w3 & w4 & rest & He & Hw1 & Hn & Hw2 & Hw3 & Hw4 & ->).
    apply (starts_word_keyword (lit "export") _ _ eq_refl He). reflexivity.
  - intros (e & a & w1 & args & w2 & rest & He & Ha & Hn & Hw1 & Hargs & Hw2 & ->).
    apply (starts_word_keyword (lit "export") _ _ eq_refl He).
    apply (starts_word_keyword (lit "async") _ _ eq_refl Ha).
    apply starts_word_name. exact Hn.
Qed.

Lemma starts_word_no_comment text : starts_word text -> indexOf text (lit "//") <> Some O.
Proof.
  intros H E. apply indexOf_zero in E. apply startsWith_spec in E as [r ->].
  vm_compute in H. discriminate.
Qed.

(** ** [findFunctionDefinition] finds exactly the declarations *)

Lemma find_in_patterns_sound shs text n :
  find_in_patterns (List.map pattern_of shs) text = Some n ->
  exists sh, In sh shs /\ declaration sh n text.
Proof.
  induction shs as [|sh shs IH]; cbn [List.map find_in_patterns]; [discriminate|].
  destruct (exec (pattern_of sh) text) as [m|] eqn:E.
  - apply exec_pattern_sound in E as (Hi & n0 & Hg & Hd).
    assert (Hname : match_name m = n0) by (unfold match_name; rewrite Hg; reflexivity).
    destruct (indexOf text (lit "//")) as [ci|].
    + destruct (index m <? ci)%nat.
      * intros [= <-]. exists sh. rewrite Hname. split; [left; reflexivity | exact Hd].
      * intros H. apply IH in H as (sh' & Hin & Hd'). exists sh'. split; [right|]; assumption.
    + intros [= <-]. exists sh. rewrite Hname. split; [left; reflexivity | exact Hd].
  - intros H. apply IH in H as (sh' & Hin & Hd'). exists sh'. split; [right|]; assumption.
Qed.

Lemma find_in_patterns_complete shs text n :
  (exists sh, In sh shs /\ declaration sh n text) ->
  find_in_patterns (List.map pattern_of shs) text = Some n.
Proof.
  induction shs as [|sh0 shs IH]; intros (sh & Hin & Hd); [destruct Hin|].
  cbn [List.map find_in_patterns].
  destruct (exec (pattern_of sh0) text) as [m|] eqn:E.
  - apply exec_pattern_sound in E as (Hi & n0 & Hg & Hd0).
    assert (Hname : match_name m = n).
    { unfold match_name. rewrite Hg. eapply declaration_unique; eassumption. }
    rewrite Hname, Hi.
    pose proof (starts_word_no_comment text (declaration_starts_word _ _ _ Hd)) as Hc.
    destruct (indexOf text (lit "//")) as [[|ci]|]; [congruence | reflexivity | reflexivity].
  - destruct Hin as [<-|Hin].
    + apply exec_pattern_complete in Hd. contradiction.
    + apply IH. exists sh. split; assumption.
Qed.

Lemma patterns_shapes :
  patterns = List.map pattern_of
               [NamedFunction; ConstArrow; ConstFunctionExpression; MethodShorthand].
Proof. reflexivity. Qed.

(** [findFunctionDefinition] returns a name exactly when the line is a
    declaration of that name in one of the four shapes. *)
Lemma findFunctionDefinition_spec text n :
  findFunctionDefinition text = Some n <-> exists sh, declaration sh n text.
Proof.
  unfold findFunctionDefinition. rewrite patterns_shapes. split.
  - intros H. apply find_in_patterns_sound in H as (sh & _ & Hd). eauto.
  - intros [sh Hd]. apply find_in_patterns_complete. exists sh. split; [|exact Hd].
    destruct sh; simpl; auto.
Qed.

(** ** The host operations on well-formed arguments *)

Lemma new_Position_ok l c :
  0 <= l -> 0 <= c -> new_Position l c = Ret {| line := l; character := c |}.
Proof.
  intros Hl Hc. unfold new_Position.
  destruct (Z.ltb_spec l 0); [lia|]. destruct (Z.ltb_spec c 0); [lia|]. reflexivity.
Qed.

Lemma str_length_nonneg s : 0 <= str_length s.
Proof. unfold str_length. lia. Qed.

Lemma new_Range_line i t :
  0 <= i -> new_Range i 0 i (str_length (trim t)) = Ret (line_range i t).
Proof.
  intros Hi. unfold new_Range.
  rewrite !new_Position_ok by (auto using str_length_nonneg; lia).
  unfold isBefore, line_range. cbn [line character].
  rewrite Z.ltb_irrefl, Z.eqb_refl. cbn [orb andb].
  destruct (Z.ltb_spec 0 (str_length (trim t))) as [H|H]; [reflexivity|].
  pose proof (str_length_nonneg (trim t)).
  replace (str_length (trim t)) with 0 by lia. reflexivity.
Qed.

Lemma lineAt_app d pre t rest :
  doc_lines d = pre ++ t :: rest ->
  lineAt d (Z.of_nat (length pre)) =
  Ret {| lineNumber := Z.of_nat (length pre); text := t |}.
Proof.
  intros H. unfold lineAt, lineCount. rewrite H, length_app. cbn [length].
  destruct (Z.ltb_spec (Z.of_nat (length pre)) 0); [lia|].
  destruct (Z.leb_spec (Z.of_nat (length pre + S (length rest))) (Z.of_nat (length pre)));
    [lia|].
  cbn [orb]. rewrite Nat2Z.id, nth_error_app2 by lia.
  rewrite Nat.sub_diag. reflexivity.
Qed.

Lemma lineAt_nth d i t :
  nth_error (doc_lines d) i = Some t ->
  lineAt d (Z.of_nat i) = Ret {| lineNumber := Z.of_nat i; text := t |}.
Proof.
  intros H. apply nth_error_split in H as (pre & rest & E & <-).
  apply lineAt_app with (rest := rest). exact E.
Qed.

Lemma lineAt_outside d n : n < 0 \/ lineCount d <= n -> exists e, lineAt d n = Throw e.
Proof.
  intros H. unfold lineAt.
  destruct (Z.ltb_spec n 0); destruct (Z.leb_spec (lineCount d) n); cbn [orb]; eauto; lia.
Qed.

Lemma with_functionRanges_same st : with_functionRanges (functionRanges st) st = st.
Proof. destruct st; reflexivity. Qed.

(** ** [detectFunctions] computes [detect_fold] and never throws *)

Lemma detect_loop_spec d ls : forall pre edits st,
  doc_lines d = pre ++ ls ->
  detect_loop (length ls) d (Z.of_nat (length pre)) edits st =
  (Ret (snd (detect_fold ls (Z.of_nat (length pre)) (functionRanges st) edits)),
   with_functionRanges
     (fst (detect_fold ls (Z.of_nat (length pre)) (functionRanges st) edits)) st).
Proof.
  induction ls as [|t rest IH]; intros pre edits st Hd.
  - cbn. rewrite with_functionRanges_same. reflexivity.
  - assert (Hd' : doc_lines d = (pre ++ [t]) ++ rest) by (rewrite <- app_assoc; exact Hd).
    assert (Hlen : Z.of_nat (length (pre ++ [t])) = Z.of_nat (length pre) + 1).
    { rewrite length_app. cbn [length]. lia. }
    cbn [length detect_loop detect_fold]. unfold bind at 1, lift at 1.
    rewrite (lineAt_app d pre t rest Hd). cbn [text].
    destruct (skipped_line t).
    + rewrite <- Hlen. apply IH. exact Hd'.
    + destruct (findFunctionDefinition t) as [n|].
      * unfold bind at 1, lift at 1. rewrite new_Range_line by lia.
        unfold bind at 1, get at 1. unfold bind at 1, set_functionRanges at 1.
        destruct (endsWith t placeholder); cbn [negb].
        -- rewrite <- Hlen. rewrite (IH (pre ++ [t]) edits _ Hd'). reflexivity.
        -- unfold bind at 1, lift at 1.
           rewrite new_Position_ok by (auto using str_length_nonneg; lia).
           rewrite <- Hlen. rewrite (IH (pre ++ [t]) _ _ Hd'). reflexivity.
      * rewrite <- Hlen. apply IH. exact Hd'.
Qed.

Lemma detectFunctions_spec d st : detectFunctions d st = (Ret tt, after_detect d st).
Proof.
  unfold detectFunctions, after_detect. unfold bind at 1, set_functionRanges at 1.
  unfold bind at 1. rewrite Z.sub_0_r. unfold lineCount. rewrite Nat2Z.id.
  pose proof (detect_loop_spec d (doc_lines d) [] [] (with_functionRanges JSMap.empty st) eq_refl)
    as H.
  change (Z.of_nat (length (@nil jsstring))) with 0 in H.
  rewrite H. cbn [functionRanges with_functionRanges].
  destruct (detect_fold (doc_lines d) 0 JSMap.empty []) as [m [|e es]]; reflexivity.
Qed.

(** ** The insertion-ordered map *)

Lemma jsmap_get_set_eq {V} k (v : V) m : JSMap.get k (JSMap.set k v m) = Some v.
Proof.
  induction m as [|[k' v'] m IH]; cbn [JSMap.set JSMap.get].
  - rewrite jseqb_refl. reflexivity.
  - destruct (JS.eqb k' k) eqn:E; cbn [JSMap.get]; rewrite E; [reflexivity | exact IH].
Qed.

Lemma jsmap_get_set_ne {V} k k' (v : V) m :
  k <> k' -> JSMap.get k' (JSMap.set k v m) = JSMap.get k' m.
Proof.
  intros Hne. induction m as [|[k0 v0] m IH]; cbn [JSMap.set JSMap.get].
  - apply jseqb_neq in Hne. rewrite Hne. reflexivity.
  - destruct (JS.eqb k0 k) eqn:E; cbn [JSMap.get].
    + apply jseqb_eq in E. subst k0. apply jseqb_neq in Hne. rewrite Hne. reflexivity.
    + destruct (JS.eqb k0 k'); [reflexivity | exact IH].
Qed.

Lemma jsmap_in_set {V} k (v : V) m k' v' :
  In (k', v') (JSMap.set k v m) -> In (k', v') m \/ (k' = k /\ v' = v).
Proof.
  induction m as [|[k0 v0] m IH]; cbn [JSMap.set].
  - intros [[= <- <-]|[]]. right. auto.
  - destruct (JS.eqb k0 k) eqn:E.
    + apply jseqb_eq in E. subst k0. intros [[= <- <-]|H]; [right; auto | left; right; exact H].
    + intros [H|H]; [left; left; exact H|].
      apply IH in H as [H|H]; [left; right; exact H | right; exact H].
Qed.

Lemma jsmap_get_in {V} k (v : V) m : JSMap.get k m = Some v -> In (k, v) m.
Proof.
  induction m as [|[k0 v0] m IH]; cbn [JSMap.get]; [discriminate|].
  destruct (JS.eqb k0 k) eqn:E.
  - apply jseqb_eq in E. subst k0. intros [= ->]. left. reflexivity.
  - intros H. right. apply IH. exact H.
Qed.

Lemma jsmap_set_keeps {V} k k' (v : V) m :
  JSMap.get k m <> None -> JSMap.get k (JSMap.set k' v m) <> None.
Proof.
  intros H. destruct (decide (k' = k)) as [->|Hne].
  - rewrite jsmap_get_set_eq. discriminate.
  - rewrite jsmap_get_set_ne by exact Hne. exact H.
Qed.

(** ** What [detect_fold] records *)

(** Every entry was there before or comes from a line that is not skipped
    and on which [findFunctionDefinition] returns the entry's name. *)
Lemma detect_fold_entries ls : forall i m edits k r,
  In (k, r) (fst (detect_fold ls i m edits)) ->
  In (k, r) m \/
  exists j t, nth_error ls j = Some t /\ r = line_range (i + Z.of_nat j) t /\
    skipped_line t = false /\ findFunctionDefinition t = Some k.
Proof.
  induction ls as [|t rest IH]; intros i m edits k r; cbn [detect_fold fst].
  - auto.
  - assert (Hshift : forall m' e',
      In (k, r) (fst (detect_fold rest (i + 1) m' e')) ->
      In (k, r) m' \/
      exists j t0, nth_error (t :: rest) j = Some t0 /\ r = line_range (i + Z.of_nat j) t0 /\
        skipped_line t0 = false /\ findFunctionDefinition t0 = Some k).
    { intros m' e' H. apply IH in H as [H|(j & t0 & Hj & -> & Hs & Hf)]; [left; exact H|].
      right. exists (S j), t0. repeat split; auto. f_equal. lia. }
    destruct (skipped_line t) eqn:Hs; [apply Hshift|].
    destruct (findFunctionDefinition t) as [n|] eqn:Hf; [|apply Hshift].
    intros H. apply Hshift in H as [H|H]; [|right; exact H].
    apply jsmap_in_set in H as [H|[-> ->]]; [left; exact H|].
    right. exists O, t. repeat split; auto. f_equal. lia.
Qed.

Lemma detect_fold_keeps ls : forall i m edits n,
  JSMap.get n m <> None -> JSMap.get n (fst (detect_fold ls i m edits)) <> None.
Proof.
  induction ls as [|t rest IH]; intros i m edits n H; cbn [detect_fold fst]; [exact H|].
  destruct (skipped_line t); [apply IH; exact H|].
  destruct (findFunctionDefinition t); apply IH; [apply jsmap_set_keeps|]; exact H.
Qed.

(** A line that is not skipped and has a definition gets an entry under
    its name. *)
Lemma detect_fold_records ls : forall i m edits j t n,
  nth_error ls j = Some t -> skipped_line t = false ->
  findFunctionDefinition t = Some n ->
  JSMap.get n (fst (detect_fold ls i m edits)) <> None.
Proof.
  induction ls as [|t0 rest IH]; intros i m edits j t n Hj Hs Hf; [destruct j; discriminate|].
  cbn [detect_fold]. destruct j as [|j]; cbn [nth_error] in Hj.
  - injection Hj as ->. rewrite Hs, Hf. apply detect_fold_keeps.
    rewrite jsmap_get_set_eq. discriminate.
  - destruct (skipped_line t0); [eapply IH; eassumption|].
    destruct (findFunctionDefinition t0); eapply IH; eassumption.
Qed.

(** Without a definition on any line, nothing is recorded. *)
Lemma detect_fold_nothing ls : forall i m edits,
  (forall t, In t ls -> findFunctionDefinition t = None) ->
  detect_fold ls i m edits = (m, edits).
Proof.
  induction ls as [|t rest IH]; intros i m edits H; cbn [detect_fold]; [reflexivity|].
  rewrite (H t) by (left; reflexivity).
  destruct (skipped_line t); apply IH; intros t' Ht'; apply H; right; exact Ht'.
Qed.

(** ** Lines that the detector does not skip *)

Lemma trimStart_last x c :
  is_space c = false -> exists u, trimStart (x ++ [c]) = u ++ [c].
Proof.
  intros Hc. induction x as [|a x IH]; cbn [app trimStart].
  - rewrite Hc. exists []. reflexivity.
  - destruct (is_space a); [exact IH | exists (a :: x); reflexivity].
Qed.

Lemma trim_first c t : is_space c = false -> exists u, trim (c :: t) = c :: u.
Proof.
  intros Hc. unfold trim, trimEnd. cbn [trimStart]. rewrite Hc. cbn [rev].
  destruct (trimStart_last (rev t) c Hc) as [u ->].
  exists (rev u). rewrite rev_app_distr. reflexivity.
Qed.

Lemma starts_word_not_skipped t : starts_word t -> skipped_line t = false.
Proof.
  destruct t as [|c t]; [contradiction|]. cbn [starts_word]. intros Hc.
  unfold skipped_line.
  destruct (trim_first c t (is_word_not_space c Hc)) as [u ->].
  change (lit "//") with [47; 47]%N. change (lit "/*") with [47; 42]%N.
  cbn [startsWith]. destruct (N.eqb_spec 47 c) as [<-|_]; [discriminate Hc | reflexivity].
Qed.

Lemma find_none_of_exec t :
  (forall sh, exec (pattern_of sh) t = None) -> findFunctionDefinition t = None.
Proof.
  intros H. destruct (findFunctionDefinition t) as [n|] eqn:E; [|reflexivity].
  apply findFunctionDefinition_spec in E as [sh Hd].
  apply exec_pattern_complete in Hd. rewrite H in Hd. contradiction.
Qed.

Lemma exec_none_of_nonword c t sh : is_word c = false -> exec (pattern_of sh) (c :: t) = None.
Proof.
  intros Hc. destruct (exec (pattern_of sh) (c :: t)) as [m|] eqn:E; [|reflexivity].
  apply exec_pattern_sound in E as (_ & n & _ & Hd).
  apply declaration_starts_word in Hd. cbn [starts_word] in Hd. congruence.
Qed.

(** The name found on a line lies in the part of the line before any
    [//]. *)
Lemma plain_prefix (p x pre post : jsstring) c :
  p ++ x = pre ++ c :: post -> Forall (fun a => plain a = true) p -> plain c = false ->
  exists s, pre = p ++ s.
Proof.
  revert pre. induction p as [|a p IH]; intros pre E Hp Hc.
  - exists pre. reflexivity.
  - inversion Hp; subst. destruct pre as [|b pre]; cbn [app] in E.
    + injection E as -> _. congruence.
    + injection E as -> E. destruct (IH pre E) as [s ->]; auto.
      exists s. reflexivity.
Qed.

Lemma name_before_comment text n pre post :
  findFunctionDefinition text = Some n -> text = pre ++ lit "//" ++ post ->
  exists hdr rest, pre = hdr ++ n ++ rest.
Proof.
  intros H E. apply findFunctionDefinition_spec in H as [sh Hd].
  apply declaration_name_before in Hd as (y & w & rest & E' & Hy & _ & Hn & Hw).
  rewrite E' in E. change (lit "//" ++ post) with (47%N :: 47%N :: post) in E.
  assert (E1 : (y ++ n ++ w) ++ delimiter sh :: rest = pre ++ 47%N :: 47%N :: post).
  { rewrite <- !app_assoc. exact E. }
  apply plain_prefix in E1 as [s ->]; [| | reflexivity].
  2:{ repeat (apply Forall_app; split);
        [exact Hy | apply Forall_plain_word, Hn | apply Forall_plain_space, Hw]. }
  exists y, (w ++ s). rewrite <- !app_assoc. reflexivity.
Qed.

Lemma functionRanges_after_detect d st : functionRanges (after_detect d st) = detected d.
Proof.
  unfold after_detect, detected.
  destruct (detect_fold (doc_lines d) 0 JSMap.empty []) as [m [|e es]]; reflexivity.
Qed.

(** Every entry of the detected map is the declaration line of a line of
    the document on which [findFunctionDefinition] returns its name. *)
Lemma detected_entries d n r :
  In (n, r) (JSMap.entries (detected d)) ->
  exists j t, nth_error (doc_lines d) j = Some t /\ r = line_range (Z.of_nat j) t /\
    skipped_line t = false /\ findFunctionDefinition t = Some n.
Proof.
  unfold detected, JSMap.entries. intros H.
  apply detect_fold_entries in H as [[]|(j & t & Hj & -> & Hs & Hf)].
  exists j, t. repeat split; auto.
Qed.

(** * The function boundary detector *)

(** C5.  For every document, [detectFunctions] returns normally; every
    range of the map it leaves in [functionRanges] starts and ends on one
    line of the document; and when no pattern matches any line, the map
    is empty. *)
Theorem detectFunctions_safe d st :
  exists st', detectFunctions d st = (Ret tt, st') /\
    (forall n r, In (n, r) (JSMap.entries (functionRanges st')) ->
       0 <= line (range_start r) /\ line (range_start r) = line (range_end r) /\
       line (range_end r) < lineCount d) /\
    ((forall t sh, In t (doc_lines d) -> exec (pattern_of sh) t = None) ->
       functionRanges st' = JSMap.empty).
Proof.
  exists (after_detect d st). split; [apply detectFunctions_spec|].
  rewrite functionRanges_after_detect. split.
  - intros n r H. apply detected_entries in H as (j & t & Hj & -> & _ & _).
    cbn [line_range line range_start range_end].
    assert (j < length (doc_lines d))%nat by (apply nth_error_Some; congruence).
    unfold lineCount. lia.
  - intros H. unfold detected. rewrite detect_fold_nothing; [reflexivity|].
    intros t Ht. apply find_none_of_exec. intros sh. apply H. exact Ht.
Qed.

(** C10.  A line that begins with white space is matched by none of the
    four patterns, at no index, so [findFunctionDefinition] returns null on
    it and [detectFunctions] records no entry for it, whatever follows the
    white space. *)
Theorem indented_line_not_detected c t :
  is_space c = true ->
  (forall sh, exec (pattern_of sh) (c :: t) = None) /\
  findFunctionDefinition (c :: t) = None /\
  forall d st i, nth_error (doc_lines d) i = Some (c :: t) ->
    exists st', detectFunctions d st = (Ret tt, st') /\
      forall n r, In (n, r) (JSMap.entries (functionRanges st')) ->
        line (range_start r) <> Z.of_nat i.
Proof.
  intros Hc. apply is_space_not_word in Hc.
  assert (Hnone : findFunctionDefinition (c :: t) = None).
  { apply find_none_of_exec. intros sh. apply exec_none_of_nonword. exact Hc. }
  split; [intros sh; apply exec_none_of_nonword; exact Hc|].
  split; [exact Hnone|].
  intros d st i Hi. exists (after_detect d st). split; [apply detectFunctions_spec|].
  rewrite functionRanges_after_detect. intros n r H.
  apply detected_entries in H as (j & t0 & Hj & -> & _ & Hf).
  cbn [line_range line range_start]. intros E. apply Nat2Z.inj in E. subst j.
  congruence.
Qed.

Lemma indented_line_not_detected_witness :
  is_space 32 = true /\ findFunctionDefinition (32%N :: lit "function foo() {}") = None.
Proof.
  split; [reflexivity|].
  exact (proj1 (proj2 (indented_line_not_detected 32%N (lit "function foo() {}") eq_refl))).
Defined.

(** C4, as the code has it.  A line is an instance of a shape when, from
    its first column on, it reads as follows; white space is the class of
    [\s], the name is a non-empty run of A-Z, a-z, 0-9 and _, and anything
    may follow the part described:
    - named function: an optional [export] with white space after it, an
      optional [async] with white space after it, [function], white
      space, the name, optional white space, an opening parenthesis;
    - const-arrow: an optional [export] with white space after it,
      [const], white space, the name, optional white space, [=], optional
      white space, an optional [async] with optional white space after it,
      an opening parenthesis, a parameter text that holds no closing
      parenthesis, a closing parenthesis, optional white space, [=>];
    - const-function-expression: an optional [export] with white space
      after it, [const], white space, the name, optional white space, [=],
      optional white space, [function], optional white space, an opening
      parenthesis;
    - method shorthand: an optional [export] with white space after it, an
      optional [async] with white space after it, the name, optional white
      space, an opening parenthesis, a parameter text that holds no
      closing parenthesis, a closing parenthesis, optional white space, an
      opening brace.
    Such a line makes [findFunctionDefinition] return the declared name,
    and [detectFunctions] then holds an entry under that name whose range
    is the declaration line of a line declaring it.  The name found on a
    line always lies in the part of the line before its first [//].
    Conversely [findFunctionDefinition] returns a name only for a line of
    one of these forms: a declaration that is indented, or whose parameter
    list holds a closing parenthesis before its end, yields none. *)
Theorem declaration_at_line_start_detected :
  (forall sh n text, declaration sh n text ->
     findFunctionDefinition text = Some n /\
     forall d st i, nth_error (doc_lines d) i = Some text ->
       exists st' r j t,
         detectFunctions d st = (Ret tt, st') /\
         JSMap.get n (functionRanges st') = Some r /\
         nth_error (doc_lines d) j = Some t /\ r = line_range (Z.of_nat j) t /\
         findFunctionDefinition t = Some n) /\
  (forall text n pre post,
     findFunctionDefinition text = Some n -> text = pre ++ lit "//" ++ post ->
     exists hdr rest, pre = hdr ++ n ++ rest) /\
  (forall text n,
     findFunctionDefinition text = Some n -> exists sh, declaration sh n text).
Proof.
  split; [|split; [apply name_before_comment |
                   intros text n; apply findFunctionDefinition_spec]].
  intros sh n text Hd.
  assert (Hf : findFunctionDefinition text = Some n).
  { apply findFunctionDefinition_spec. exists sh. exact Hd. }
  split; [exact Hf|]. intros d st i Hi.
  pose proof (detect_fold_records (doc_lines d) 0 JSMap.empty [] i text n Hi
                (starts_word_not_skipped _ (declaration_starts_word _ _ _ Hd)) Hf) as Hrec.
  fold (detected d) in Hrec.
  destruct (JSMap.get n (detected d)) as [r|] eqn:Hg; [|contradiction].
  pose proof (jsmap_get_in _ _ _ Hg) as Hin.
  apply detected_entries in Hin as (j & t & Hj & Hr & _ & Hft).
  exists (after_detect d st), r, j, t.
  rewrite functionRanges_after_detect. auto using detectFunctions_spec.
Qed.

Lemma declaration_foo : declaration NamedFunction (lit "foo") (lit "function foo() {}").
Proof.
  exists [], [], [32%N], [], (lit ") {}").
  repeat split; try constructor; try discriminate; repeat constructor.
Defined.

Lemma declaration_at_line_start_detected_witness :
  declaration NamedFunction (lit "foo") (lit "function foo() {}") /\
  findFunctionDefinition (lit "function foo() {}") = Some (lit "foo").
Proof.
  split; [exact declaration_foo|].
  exact (proj1 (proj1 declaration_at_line_start_detected _ _ _ declaration_foo)).
Defined.

(** C4, as stated, fails on an indented declaration: the document below
    holds a well-formed named function declaration after two spaces, and
    [detectFunctions] records nothing. *)
Lemma indented_declaration_not_recorded :
  lit "  function foo() {}" = lit "  " ++ lit "function foo() {}" /\
  declaration NamedFunction (lit "foo") (lit "function foo() {}") /\
  detectFunctions
    {| languageId := lit "javascript"; fileName := lit "a.js";
       doc_lines := [lit "  function foo() {}"]; eol := newline |}
    initial_state = (Ret tt, initial_state).
Proof.
  split; [reflexivity|]. split; [exact declaration_foo|]. vm_compute. reflexivity.
Qed.

(** Declarations that are well formed but lie outside the four forms: a
    closing parenthesis inside the parameter list (a default value that
    calls a function, or that is an arrow function) ends the parameter
    text early, and no pattern matches. *)
Lemma nested_parenthesis_not_detected :
  findFunctionDefinition (lit "const f = (a, b = g(1)) => a;") = None /\
  findFunctionDefinition (lit "handler(cb = () => {}) {") = None /\
  findFunctionDefinition (lit "foo(a = bar()) {") = None.
Proof. repeat split; vm_compute; reflexivity. Qed.

Lemma detectFunctions_safe_witness :
  exists st',
    detectFunctions
      {| languageId := lit "javascript"; fileName := lit "a.js";
         doc_lines := [lit "let x = 1;"]; eol := newline |} initial_state = (Ret tt, st') /\
    functionRanges st' = JSMap.empty.
Proof.
  destruct (detectFunctions_safe
              {| languageId := lit "javascript"; fileName := lit "a.js";
                 doc_lines := [lit "let x = 1;"]; eol := newline |} initial_state)
    as (st' & E & _ & H).
  exists st'. split; [exact E|]. apply H.
  intros t sh [<-|[]]. destruct sh; vm_compute; reflexivity.
Defined.

(** Scenario A of the specification: two functions, each on its line. *)
Example scenario_two_functions :
  detected {| languageId := lit "javascript"; fileName := lit "a.js";
              doc_lines := [lit "function add(a,b){return a+b;}";
                            lit "const mul = (a,b) => a*b;"]; eol := newline |}
  = [(lit "add", line_range 0 (lit "function add(a,b){return a+b;}"));
     (lit "mul", line_range 1 (lit "const mul = (a,b) => a*b;"))].
Proof. vm_compute. reflexivity. Qed.

(** * The function body extractor *)

Lemma extract_loop_spec d ls : forall pre b f code,
  doc_lines d = pre ++ ls ->
  extract_loop (length ls) d (Z.of_nat (length pre)) b f code =
  Ret (extract_fold ls b f code).
Proof.
  induction ls as [|t rest IH]; intros pre b f code Hd; cbn [length extract_loop extract_fold].
  - reflexivity.
  - rewrite (lineAt_app d pre t rest Hd). cbn [text].
    destruct (scan_braces t b f) as [b' f'].
    destruct (f' && (b' =? 0)); [reflexivity|].
    replace (Z.of_nat (length pre) + 1) with (Z.of_nat (length (pre ++ [t])))
      by (rewrite length_app; cbn [length]; lia).
    apply IH. rewrite <- app_assoc. exact Hd.
Qed.

Lemma extractFunctionCode_fold ed startLine :
  0 <= startLine ->
  extractFunctionCode (Some ed) startLine =
  Ret (extract_fold (skipn (Z.to_nat startLine) (doc_lines (document ed))) 0 false []).
Proof.
  intros Hs. unfold extractFunctionCode, lineCount.
  set (ls := doc_lines (document ed)).
  destruct (Nat.le_gt_cases (length ls) (Z.to_nat startLine)) as [Hge|Hlt].
  - rewrite skipn_all2 by exact Hge.
    replace (Z.to_nat (Z.of_nat (length ls) - startLine)) with O by lia. reflexivity.
  - pose proof (firstn_skipn (Z.to_nat startLine) ls) as Hsplit.
    replace (Z.to_nat (Z.of_nat (length ls) - startLine))
      with (length (skipn (Z.to_nat startLine) ls)) by (rewrite length_skipn; lia).
    replace startLine with (Z.of_nat (length (firstn (Z.to_nat startLine) ls))) at 2
      by (rewrite length_firstn; lia).
    apply extract_loop_spec. symmetry. exact Hsplit.
Qed.

(** A negative start line reaches [lineAt], which throws. *)
Lemma extractFunctionCode_negative ed startLine :
  (startLine < 0)%Z -> exists e, extractFunctionCode (Some ed) startLine = Throw e.
Proof.
  intros Hs. unfold extractFunctionCode.
  destruct (Z.to_nat (lineCount (document ed) - startLine)) as [|n] eqn:E.
  - unfold lineCount in E. lia.
  - cbn [extract_loop].
    destruct (lineAt_outside (document ed) startLine (or_introl Hs)) as [e ->]. eauto.
Qed.

Lemma closes_at_cons b f t rest k :
  closes_at b f (t :: rest) (S k) =
  closes_at (fst (scan_braces t b f)) (snd (scan_braces t b f)) rest k.
Proof.
  unfold closes_at. cbn [firstn scan_lines].
  destruct (scan_braces t b f) as [b' f']. reflexivity.
Qed.

Lemma closes_at_first b f t rest :
  closes_at b f (t :: rest) 0 =
  snd (scan_braces t b f) && (fst (scan_braces t b f) =? 0).
Proof.
  unfold closes_at. cbn [firstn scan_lines].
  destruct (scan_braces t b f) as [b' f']. reflexivity.
Qed.

(** The extractor stops at the first line at the end of which the counter
    is zero and an opening brace has been seen. *)
Lemma extract_fold_first ls : forall b f code k,
  (k < length ls)%nat -> closes_at b f ls k = true ->
  (forall k', (k' < k)%nat -> closes_at b f ls k' = false) ->
  extract_fold ls b f code = Some (join newline (code ++ firstn (S k) ls)).
Proof.
  induction ls as [|t rest IH]; intros b f code k Hk Hc Hfirst; [cbn in Hk; lia|].
  cbn [extract_fold]. destruct k as [|k].
  - rewrite closes_at_first in Hc. destruct (scan_braces t b f) as [b' f'].
    cbn [fst snd] in Hc. rewrite Hc. reflexivity.
  - pose proof (Hfirst O ltac:(lia)) as H0. rewrite closes_at_first in H0.
    rewrite closes_at_cons in Hc.
    assert (Hfirst' : forall k', (k' < k)%nat ->
              closes_at (fst (scan_braces t b f)) (snd (scan_braces t b f)) rest k' = false).
    { intros k' Hk'. rewrite <- closes_at_cons. apply Hfirst. lia. }
    destruct (scan_braces t b f) as [b' f']. cbn [fst snd] in *. rewrite H0.
    rewrite (IH b' f' (code ++ [t]) k); [|cbn in Hk; lia|exact Hc|exact Hfirst'].
    rewrite <- app_assoc. reflexivity.
Qed.

(** It returns null when no line ends with the counter back at zero. *)
Lemma extract_fold_none ls : forall b f code,
  (forall k, (k < length ls)%nat -> closes_at b f ls k = false) ->
  extract_fold ls b f code = None.
Proof.
  induction ls as [|t rest IH]; intros b f code H; cbn [extract_fold]; [reflexivity|].
  pose proof (H O ltac:(cbn; lia)) as H0. rewrite closes_at_first in H0.
  assert (H' : forall k, (k < length rest)%nat ->
            closes_at (fst (scan_braces t b f)) (snd (scan_braces t b f)) rest k = false).
  { intros k Hk. rewrite <- closes_at_cons. apply H. cbn. lia. }
  destruct (scan_braces t b f) as [b' f']. cbn [fst snd] in *. rewrite H0.
  apply IH. exact H'.
Qed.

(** C3, as the code has it.  For a start line that is not negative,
    [extractFunctionCode] returns the newline-joined text from the start
    line through the first line at the END of which the brace counter is
    zero and an opening brace has been seen, and null when there is no
    such line before the end of the document.  (The counter is looked at
    once per line, after the whole line has been scanned.) *)
Theorem extractFunctionCode_spec ed startLine :
  0 <= startLine ->
  let ls := skipn (Z.to_nat startLine) (doc_lines (document ed)) in
  (forall k, (k < length ls)%nat -> closes_at 0 false ls k = true ->
     (forall k', (k' < k)%nat -> closes_at 0 false ls k' = false) ->
     extractFunctionCode (Some ed) startLine = Ret (Some (join newline (firstn (S k) ls)))) /\
  ((forall k, (k < length ls)%nat -> closes_at 0 false ls k = false) ->
     extractFunctionCode (Some ed) startLine = Ret None).
Proof.
  intros Hs ls. rewrite extractFunctionCode_fold by exact Hs. fold ls. split.
  - intros k Hk Hc Hfirst. rewrite (extract_fold_first ls 0 false [] k Hk Hc Hfirst).
    reflexivity.
  - intros H. rewrite extract_fold_none by exact H. reflexivity.
Qed.

Lemma extractFunctionCode_spec_witness :
  0 <= 0 /\
  extractFunctionCode
    (Some (editor_of (js_document [lit "function f() {"; lit "  return 1;"; lit "}"; lit "g();"])))
    0
  = Ret (Some (lit "function f() {" ++ newline ++ lit "  return 1;" ++ newline ++ lit "}")).
Proof.
  split; [lia|].
  refine (proj1 (extractFunctionCode_spec
                   (editor_of (js_document [lit "function f() {"; lit "  return 1;";
                                            lit "}"; lit "g();"])) 0 (Z.le_refl 0))
                2%nat _ _ _).
  - vm_compute. lia.
  - vm_compute. reflexivity.
  - intros [|[|k']] Hk; [vm_compute; reflexivity | vm_compute; reflexivity | lia].
Defined.

(** C3, as stated, fails when the counter returns to zero in the middle of
    a line and the line ends with an open brace: after the first three
    characters of the line below the counter is back at zero with an
    opening brace seen, yet the extractor goes on to the next line, and
    returns null when there is none.  A negative start line makes the host
    throw. *)
Lemma extract_midline_zero :
  scan_braces (lit "a{}") 0 false = (0, true) /\
  extractFunctionCode (Some (editor_of (js_document [lit "a{}{"; lit "}"]))) 0
    = Ret (Some (lit "a{}{" ++ newline ++ lit "}")) /\
  extractFunctionCode (Some (editor_of (js_document [lit "a{}{"]))) 0 = Ret None /\
  extractFunctionCode (Some (editor_of (js_document [lit "a{}{"; lit "}"]))) (-1)
    = Throw "Illegal value for `line`".
Proof. repeat split; vm_compute; reflexivity. Qed.

(** * The complexity mapper *)

(** C7.  On a document whose text is the empty string, [analyzeComplexity]
    returns null without throwing, and its only call on the host is one
    [showErrorMessage]; the metrics engine is not consulted. *)
Theorem analyzeComplexity_empty_text (escomplex : Engine) d st :
  getText d = [] ->
  analyzeComplexity escomplex (Some d) st =
  (Ret None, with_call (showErrorMessage "The file is empty or invalid.") st).
Proof.
  intros H. unfold analyzeComplexity. rewrite H. reflexivity.
Qed.

Lemma analyzeComplexity_empty_text_witness :
  getText (js_document [[]]) = [] /\
  analyzeComplexity (fun _ => Throw "engine") (Some (js_document [[]])) initial_state =
  (Ret None, with_call (showErrorMessage "The file is empty or invalid.") initial_state).
Proof.
  split; [reflexivity|].
  exact (analyzeComplexity_empty_text (fun _ => Throw "engine") (js_document [[]])
           initial_state eq_refl).
Defined.

(** * The highlight projector *)

Lemma same_session_refl st : same_session st st.
Proof. unfold same_session. auto. Qed.

Lemma same_session_trans st1 st2 st3 :
  same_session st1 st2 -> same_session st2 st3 -> same_session st1 st3.
Proof. unfold same_session. intros (?&?&?&?&?) (?&?&?&?&?). repeat split; congruence. Qed.

Lemma same_session_call c st : same_session st (with_call c st).
Proof. unfold same_session. auto. Qed.

Lemma same_session_complexityRanges m st : same_session st (with_complexityRanges m st).
Proof. unfold same_session. auto. Qed.

Lemma valid_metric_some m metric s e :
  valid_metric m = Some (metric, s, e) ->
  m = Some metric /\ lines metric = Some {| span_start := Some s; span_end := Some e |}.
Proof.
  unfold valid_metric. destruct m as [mt|]; [|discriminate].
  destruct (lines mt) as [[[s'|] [e'|]]|] eqn:El; try discriminate.
  intros [= <- <- <-]. auto.
Qed.

(** The loop of the projector never throws, touches only
    [complexityRanges] and the log, records a range only for a metric whose
    complexity exceeds 9, and labels every decoration by that same test. *)
Lemma highlight_loop_spec d ms : forall cds rds st,
  exists cds' rds' st',
    highlight_loop d ms cds rds st = (Ret (cds', rds'), st') /\
    same_session st st' /\
    (forall n r, In (n, r) (JSMap.entries (complexityRanges st')) ->
       In (n, r) (JSMap.entries (complexityRanges st)) \/
       exists metric, In (Some metric) ms /\ name metric = n /\ 9 < complexity metric) /\
    (forall dec, In dec cds' ->
       In dec cds \/
       exists metric, In (Some metric) ms /\
         label dec = if complexity metric >? 9
                     then HighLabel (complexity metric) (name metric)
                     else OptimalLabel (complexity metric) (name metric)).
Proof.
  induction ms as [|m rest IH]; intros cds rds st.
  - exists cds, rds, st. cbn. auto using same_session_refl.
  - assert (Hskip : forall c,
      exists cds' rds' st',
        (call c ;;; highlight_loop d rest cds rds) st = (Ret (cds', rds'), st') /\
        same_session st st' /\
        (forall n r, In (n, r) (JSMap.entries (complexityRanges st')) ->
           In (n, r) (JSMap.entries (complexityRanges st)) \/
           exists metric, In (Some metric) (m :: rest) /\ name metric = n /\
                          9 < complexity metric) /\
        (forall dec, In dec cds' ->
           In dec cds \/
           exists metric, In (Some metric) (m :: rest) /\
             label dec = if complexity metric >? 9
                         then HighLabel (complexity metric) (name metric)
                         else OptimalLabel (complexity metric) (name metric))).
    { intros c. destruct (IH cds rds (with_call c st)) as (cds' & rds' & st' & E & Hs & Hr & Hd).
      exists cds', rds', st'. unfold bind, call. rewrite E. split; [reflexivity|].
      split; [eapply same_session_trans; [apply same_session_call | exact Hs]|].
      split.
      - intros n r H. apply Hr in H as [H|(mt & Hin & Hn & Hc)]; [left; exact H|].
        right. exists mt. split; [right; exact Hin | auto].
      - intros dec H. apply Hd in H as [H|(mt & Hin & Hl)]; [left; exact H|].
        right. exists mt. split; [right; exact Hin | exact Hl]. }
    cbn [highlight_loop].
    destruct (valid_metric m) as [[[metric s] e]|] eqn:Hv; [|apply Hskip].
    apply valid_metric_some in Hv as [-> _].
    destruct (lineAt d (e - 1)) as [tl|]; [|apply Hskip].
    destruct (new_Range (s - 1) 0 (e - 1) (str_length (trim (text tl)))) as [r|];
      [|apply Hskip].
    destruct (complexity metric >? 9) eqn:Hc.
    + destruct (new_Range (s - 1) 0 (s - 1) 0) as [rr|].
      * unfold bind at 1, get at 1. unfold bind at 1, set_complexityRanges at 1.
        match goal with |- context [highlight_loop d rest ?c ?r ?s] =>
          destruct (IH c r s) as (cds' & rds' & st' & E & Hs & Hr & Hd) end.
        exists cds', rds', st'. split; [exact E|].
        split; [eapply same_session_trans; [apply same_session_complexityRanges | exact Hs]|].
        split.
        -- intros n r0 H. apply Hr in H as [H|(mt & Hin & Hn & Hc')].
           ++ cbn [complexityRanges with_complexityRanges] in H.
              apply jsmap_in_set in H as [H|[-> ->]]; [left; exact H|].
              right. exists metric. split; [left; reflexivity|]. split; [reflexivity|].
              apply Z.gtb_lt in Hc. lia.
           ++ right. exists mt. split; [right; exact Hin | auto].
        -- intros dec H. apply Hd in H as [H|(mt & Hin & Hl)].
           ++ apply in_app_or in H as [H|[<-|[]]]; [left; exact H|].
              right. exists metric. split; [left; reflexivity|]. cbn [label].
              rewrite Hc. reflexivity.
           ++ right. exists mt. split; [right; exact Hin | exact Hl].
      * destruct (IH (cds ++ [{| range := r; label := HighLabel (complexity metric) (name metric) |}])
                    rds (with_call console_error st))
          as (cds' & rds' & st' & E & Hs & Hr & Hd).
        exists cds', rds', st'. unfold bind, call. rewrite E. split; [reflexivity|].
        split; [eapply same_session_trans; [apply same_session_call | exact Hs]|].
        split.
        -- intros n r0 H. apply Hr in H as [H|(mt & Hin & Hn & Hc')]; [left; exact H|].
           right. exists mt. split; [right; exact Hin | auto].
        -- intros dec H. apply Hd in H as [H|(mt & Hin & Hl)].
           ++ apply in_app_or in H as [H|[<-|[]]]; [left; exact H|].
              right. exists metric. split; [left; reflexivity|]. cbn [label].
              rewrite Hc. reflexivity.
           ++ right. exists mt. split; [right; exact Hin | exact Hl].
    + destruct (IH (cds ++ [{| range := r; label := OptimalLabel (complexity metric) (name metric) |}])
                  rds st)
        as (cds' & rds' & st' & E & Hs & Hr & Hd).
      exists cds', rds', st'. split; [exact E|]. split; [exact Hs|]. split.
      * intros n r0 H. apply Hr in H as [H|(mt & Hin & Hn & Hc')]; [left; exact H|].
        right. exists mt. split; [right; exact Hin | auto].
      * intros dec H. apply Hd in H as [H|(mt & Hin & Hl)].
        -- apply in_app_or in H as [H|[<-|[]]]; [left; exact H|].
           right. exists metric. split; [left; reflexivity|]. cbn [label].
           rewrite Hc. reflexivity.
        -- right. exists mt. split; [right; exact Hin | exact Hl].
Qed.

(** C2, what the code does.  When the active document has fewer than 10
    lines, [highlightComplexFunctions] returns at its first line-count test
    and calls nothing on the host: the decorations are left as they are,
    not cleared. *)
Theorem highlight_short_document_returns_early st ed metrics :
  activeEditor st = Some ed -> lineCount (document ed) < 10 ->
  highlightComplexFunctions metrics st = (Ret tt, st).
Proof.
  intros He Hl. unfold highlightComplexFunctions, bind, get. rewrite He.
  destruct (Z.ltb_spec (lineCount (document ed)) 10); [reflexivity | lia].
Qed.

(** With at least 10 lines and no metric, both decoration lists are set to
    the empty list. *)
Lemma highlight_no_metrics_clears st ed metrics :
  activeEditor st = Some ed -> 10 <= lineCount (document ed) ->
  metrics = None \/ metrics = Some [] ->
  highlightComplexFunctions metrics st =
  (Ret tt, with_call (setDecorations refactorDecorationType [])
             (with_call (setDecorations complexityDecorationType []) st)).
Proof.
  intros He Hl Hm. unfold highlightComplexFunctions, bind, get. rewrite He.
  destruct (Z.ltb_spec (lineCount (document ed)) 10); [lia|].
  destruct Hm as [-> | ->]; reflexivity.
Qed.

(** The failing input of C2: nine lines, an empty metric list. *)
Lemma highlight_short_document_returns_early_witness :
  let st := with_call (setDecorations complexityDecorationType
                         [{| range := line_range 0 []; label := HighLabel 12 (lit "foo") |}])
              (session_on (editor_of (js_document (List.repeat (lit "x();") 9)))) in
  lineCount (js_document (List.repeat (lit "x();") 9)) < 10 /\
  highlightComplexFunctions (Some []) st = (Ret tt, st).
Proof.
  intros st. split; [vm_compute; reflexivity|].
  apply (highlight_short_document_returns_early st
           (editor_of (js_document (List.repeat (lit "x();") 9))) (Some []));
    [reflexivity | vm_compute; reflexivity].
Defined.

Lemma highlightComplexFunctions_loop st ed m ms :
  activeEditor st = Some ed -> 10 <= lineCount (document ed) ->
  highlightComplexFunctions (Some (m :: ms)) st =
  (set_complexityRanges JSMap.empty ;;;
   ds <- highlight_loop (document ed) (m :: ms) [] [] ;;
   call (setDecorations complexityDecorationType (fst ds)) ;;;
   call (setDecorations refactorDecorationType (snd ds))) st.
Proof.
  intros He Hl. unfold highlightComplexFunctions. unfold bind at 1, get at 1. rewrite He.
  destruct (Z.ltb_spec (lineCount (document ed)) 10); [lia | reflexivity].
Qed.

Lemma new_Range_ordered sl el c :
  0 <= sl -> sl <= el -> 0 <= c ->
  new_Range sl 0 el c =
  Ret {| range_start := {| line := sl; character := 0 |};
         range_end := {| line := el; character := c |} |}.
Proof.
  intros H1 H2 H3. unfold new_Range. rewrite !new_Position_ok by lia.
  unfold isBefore. cbn [line character].
  destruct (Z.ltb_spec sl el) as [Hlt|Hge]; [reflexivity|].
  assert (sl = el) by lia. subst el. rewrite Z.eqb_refl. cbn [orb andb].
  destruct (Z.ltb_spec 0 c) as [Hc|Hc]; [reflexivity|].
  assert (c = 0) by lia. subst c. reflexivity.
Qed.

(** C8.  On a document of at least 10 lines the metric [foo] of complexity
    12 spanning lines 3 to 10 gets the high-complexity decoration, and its
    zero-based range, lines 2 to 9, is stored in [complexityRanges] under
    [foo].  A metric whose complexity is at most 9 gets the optimal
    decoration and no entry in that map.  In general only a metric whose
    complexity exceeds 9 puts an entry in the map, and every decoration is
    labelled high or optimal by that same test. *)
Theorem scenario_high_complexity :
  (forall st ed t9,
     activeEditor st = Some ed -> nth_error (doc_lines (document ed)) 9 = Some t9 ->
     let r := {| range_start := {| line := 2; character := 0 |};
                 range_end := {| line := 9; character := str_length (trim t9) |} |} in
     highlightComplexFunctions (Some [Some scenario_metric]) st =
     (Ret tt,
      with_call (setDecorations refactorDecorationType
                   [{| range := {| range_start := {| line := 2; character := 0 |};
                                   range_end := {| line := 2; character := 0 |} |};
                       label := RefactorIcon (lit "foo") |}])
        (with_call (setDecorations complexityDecorationType
                      [{| range := r; label := HighLabel 12 (lit "foo") |}])
           (with_complexityRanges [(lit "foo", r)] st)))) /\
  (forall st ed metric s e t,
     activeEditor st = Some ed -> 10 <= lineCount (document ed) ->
     lines metric = Some {| span_start := Some s; span_end := Some e |} ->
     1 <= s -> s <= e ->
     nth_error (doc_lines (document ed)) (Z.to_nat (e - 1)) = Some t ->
     complexity metric <= 9 ->
     highlightComplexFunctions (Some [Some metric]) st =
     (Ret tt,
      with_call (setDecorations refactorDecorationType [])
        (with_call (setDecorations complexityDecorationType
                      [{| range := {| range_start := {| line := s - 1; character := 0 |};
                                      range_end := {| line := e - 1;
                                                      character := str_length (trim t) |} |};
                          label := OptimalLabel (complexity metric) (name metric) |}])
           (with_complexityRanges JSMap.empty st)))) /\
  (forall st ed m ms,
     activeEditor st = Some ed -> 10 <= lineCount (document ed) ->
     exists cds rds st' log,
       highlightComplexFunctions (Some (m :: ms)) st = (Ret tt, st') /\
       calls st' = log ++ [setDecorations complexityDecorationType cds;
                           setDecorations refactorDecorationType rds] /\
       (forall n r, In (n, r) (JSMap.entries (complexityRanges st')) ->
          exists metric, In (Some metric) (m :: ms) /\ name metric = n /\
                         9 < complexity metric) /\
       (forall dec, In dec cds ->
          exists metric, In (Some metric) (m :: ms) /\
            label dec = if complexity metric >? 9
                        then HighLabel (complexity metric) (name metric)
                        else OptimalLabel (complexity metric) (name metric))).
Proof.
  split; [|split].
  - intros st ed t9 He H9 r.
    assert (Hl : 10 <= lineCount (document ed)).
    { assert (9 < length (doc_lines (document ed)))%nat by (apply nth_error_Some; congruence).
      unfold lineCount. lia. }
    rewrite (highlightComplexFunctions_loop st ed _ _ He Hl).
    unfold bind at 1, set_complexityRanges at 1. unfold bind at 1.
    cbn [highlight_loop valid_metric scenario_metric metric_of_method lines
         scenario_method lineStart lineEnd].
    change (10 - 1) with (Z.of_nat 9). rewrite (lineAt_nth _ 9 t9 H9). cbn [text].
    change (3 - 1) with 2.
    unfold new_Range at 1.
    rewrite (new_Position_ok 2 0), (new_Position_ok (Z.of_nat 9)) by
      (auto using str_length_nonneg; lia).
    cbn [isBefore line character Z.ltb Z.compare Z.of_nat Pos.of_succ_nat Pos.succ
         Pos.compare Pos.compare_cont orb complexity cyclomatic name method_name Z.gtb].
    reflexivity.
  - intros st ed metric s e t He Hl Hlines Hs Hse Ht Hc.
    rewrite (highlightComplexFunctions_loop st ed _ _ He Hl).
    unfold bind at 1, set_complexityRanges at 1. unfold bind at 1.
    cbn [highlight_loop valid_metric]. rewrite Hlines.
    pose proof (lineAt_nth _ _ t Ht) as Hla. rewrite Z2Nat.id in Hla by lia.
    rewrite Hla. cbn [text].
    rewrite new_Range_ordered by (auto using str_length_nonneg; lia).
    destruct (Z.gtb_spec (complexity metric) 9); [lia|]. reflexivity.
  - intros st ed m ms He Hl.
    rewrite (highlightComplexFunctions_loop st ed _ _ He Hl).
    unfold bind at 1, set_complexityRanges at 1. unfold bind at 1.
    destruct (highlight_loop_spec (document ed) (m :: ms) [] []
                (with_complexityRanges JSMap.empty st))
      as (cds & rds & st' & E & Hs & Hr & Hd).
    rewrite E. cbn [fst snd].
    exists cds, rds,
      (with_call (setDecorations refactorDecorationType rds)
         (with_call (setDecorations complexityDecorationType cds) st')),
      (calls st').
    split; [reflexivity|]. split.
    + cbn [calls with_call]. rewrite <- app_assoc. reflexivity.
    + split.
      * intros n r H. cbn [complexityRanges with_call] in H.
        apply Hr in H as [[]|H]. exact H.
      * intros dec H. apply Hd in H as [[]|H]. exact H.
Qed.

Lemma scenario_high_complexity_witness :
  JSMap.get (lit "foo")
    (complexityRanges
       (snd (highlightComplexFunctions (Some [Some scenario_metric])
               (session_on (editor_of (js_document (List.repeat (lit "x();") 12)))))))
  = Some {| range_start := {| line := 2; character := 0 |};
            range_end := {| line := 9; character := 4 |} |}.
Proof.
  rewrite (proj1 scenario_high_complexity
             (session_on (editor_of (js_document (List.repeat (lit "x();") 12))))
             (editor_of (js_document (List.repeat (lit "x();") 12))) (lit "x();")
             eq_refl eq_refl).
  reflexivity.
Defined.

(** * The selection handler *)

Lemma analyzeComplexity_total escomplex doc st :
  exists r st', analyzeComplexity escomplex doc st = (Ret r, st') /\ same_session st st'.
Proof.
  unfold analyzeComplexity. destruct doc as [d|].
  - destruct (getText d) as [|c t].
    + eexists _, _. split; [reflexivity | apply same_session_call].
    + destruct (escomplex (c :: t)) as [[[[ms|]]|]|e].
      * eexists _, _. split; [reflexivity | apply same_session_refl].
      * eexists _, _. split; [reflexivity|].
        eapply same_session_trans; apply same_session_call.
      * eexists _, _. split; [reflexivity|].
        eapply same_session_trans; apply same_session_call.
      * eexists _, _. split; [reflexivity | apply same_session_call].
  - eexists _, _. split; [reflexivity | apply same_session_call].
Qed.

Lemma highlightComplexFunctions_total metrics st :
  exists st', highlightComplexFunctions metrics st = (Ret tt, st') /\ same_session st st'.
Proof.
  unfold highlightComplexFunctions. unfold bind at 1, get at 1.
  destruct (activeEditor st) as [ed|] eqn:He.
  - destruct (lineCount (document ed) <? 10).
    + eexists. split; [reflexivity | apply same_session_refl].
    + destruct metrics as [[|m ms]|].
      * eexists. split; [reflexivity|]. eapply same_session_trans; apply same_session_call.
      * unfold bind at 1, set_complexityRanges at 1. unfold bind at 1.
        destruct (highlight_loop_spec (document ed) (m :: ms) [] []
                    (with_complexityRanges JSMap.empty st))
          as (cds & rds & st' & E & Hs & _).
        rewrite E. eexists. split; [reflexivity|].
        eapply same_session_trans; [apply same_session_complexityRanges|].
        eapply same_session_trans; [exact Hs|].
        eapply same_session_trans; apply same_session_call.
      * eexists. split; [reflexivity|]. eapply same_session_trans; apply same_session_call.
  - eexists. split; [reflexivity | apply same_session_call].
Qed.

Lemma map_outcome_total {A B} (f : A -> Outcome B) l :
  (forall a, In a l -> exists b, f a = Ret b) -> exists bs, map_outcome f l = Ret bs.
Proof.
  induction l as [|a l IH]; intros H; cbn [map_outcome]; [eauto|].
  destruct (H a (or_introl eq_refl)) as [b ->].
  destruct IH as [bs ->]; [intros a' Ha'; apply H; right; exact Ha'|]. eauto.
Qed.

(** Right after a detection pass [createDecorations] cannot throw. *)
Lemma createDecorations_detected d st :
  functionRanges st = detected d -> exists ds, createDecorations st = (Ret ds, st).
Proof.
  intros Hf. unfold createDecorations, bind, get, lift. rewrite Hf.
  match goal with |- context [map_outcome ?f ?l] =>
    destruct (map_outcome_total f l) as [bs ->]; [|eauto] end.
  intros [n r] H. apply detected_entries in H as (j & t & _ & -> & _).
  cbn [line_range range_end line character]. unfold new_Range.
  pose proof (str_length_nonneg (trim t)).
  rewrite !new_Position_ok by lia.
  match goal with |- context [isBefore ?a ?b] => destruct (isBefore a b) end; eauto.
Qed.

Lemma analysis_block_total escomplex d (fallback : M unit) st :
  (exists st1, fallback st = (Ret tt, st1) /\ same_session st st1) ->
  exists st1,
    (if lineCount d >? 10
     then metrics <- analyzeComplexity escomplex (Some d) ;;
          highlightComplexFunctions metrics
     else fallback) st = (Ret tt, st1) /\ same_session st st1.
Proof.
  intros Hf. destruct (lineCount d >? 10); [|exact Hf].
  unfold bind. destruct (analyzeComplexity_total escomplex (Some d) st) as (r & st1 & -> & H1).
  destruct (highlightComplexFunctions_total r st1) as (st2 & -> & H2).
  exists st2. split; [reflexivity | eapply same_session_trans; eassumption].
Qed.

Lemma after_detect_session d st :
  activeEditor (after_detect d st) = activeEditor st /\
  isEditingFunction (after_detect d st) = isEditingFunction st /\
  lastClickTime (after_detect d st) = lastClickTime st /\
  lastTypingTime (after_detect d st) = lastTypingTime st.
Proof.
  unfold after_detect.
  destruct (detect_fold (doc_lines d) 0 JSMap.empty []) as [m [|e es]]; cbn; auto.
Qed.

(** [updateDecorations] never throws; it leaves in [functionRanges] the
    functions in view and does not touch the editor, the editing flag or
    the timestamps. *)
Lemma updateDecorations_spec escomplex st ed :
  activeEditor st = Some ed ->
  exists st',
    updateDecorations escomplex st = (Ret tt, st') /\
    activeEditor st' = Some ed /\
    functionRanges st' = functions_in_view st ed /\
    isEditingFunction st' = isEditingFunction st /\
    lastClickTime st' = lastClickTime st /\
    lastTypingTime st' = lastTypingTime st.
Proof.
  intros He. unfold updateDecorations, functions_in_view.
  unfold bind at 1, get at 1. rewrite He.
  destruct (isValidSourceFile (document ed)); cbn [negb].
  - unfold bind at 1.
    destruct (analysis_block_total escomplex (document ed)
                (call (setDecorations complexityDecorationType [])) st)
      as (st1 & -> & (H1a & H1f & H1e & H1c & H1t)).
    { eexists. split; [reflexivity | apply same_session_call]. }
    unfold bind at 1. rewrite detectFunctions_spec.
    unfold bind at 1.
    destruct (createDecorations_detected (document ed) (after_detect (document ed) st1))
      as [ds ->]; [apply functionRanges_after_detect|].
    destruct (after_detect_session (document ed) st1) as (Ha & Hb & Hc & Hd).
    eexists. split; [reflexivity|]. cbn [with_call activeEditor functionRanges
      isEditingFunction lastClickTime lastTypingTime].
    rewrite functionRanges_after_detect. repeat split; congruence.
  - eexists. split; [reflexivity|]. cbn. auto.
Qed.

Lemma updateBatchButton_total st :
  exists st', updateBatchButton st = (Ret tt, st') /\ same_session st st'.
Proof.
  unfold updateBatchButton. unfold bind at 1, get at 1.
  destruct (activeEditor st) as [ed|].
  - unfold bind at 1.
    destruct (negb (isValidSourceFile (document ed))).
    + unfold call at 1. unfold bind, get.
      cbn [functionRanges with_call].
      destruct (JSMap.size (functionRanges st) >=? 2); eexists;
        (split; [reflexivity | eapply same_session_trans; apply same_session_call]).
    + unfold ret at 1. unfold bind, get.
      destruct (JSMap.size (functionRanges st) >=? 2); eexists;
        (split; [reflexivity | apply same_session_call]).
  - eexists. split; [reflexivity | apply same_session_call].
Qed.

(** C6, as the code has it.  The selection handler dispatches batch test
    generation when the event is for the active editor, carries MORE THAN
    ONE selection of which the first is an empty caret on the last line of
    the document, that line is not blank, the caret column lies between
    the trimmed line length minus 2 and plus 1, no edit is in progress, the
    typing cool-down and the click debounce window (2000 ms each) have
    elapsed, and at least two functions are in view. *)
Theorem batch_click_dispatches escomplex currentTime event st ed sel more l :
  activeEditor st = Some ed ->
  same_editor (textEditor event) ed = true ->
  selections event = sel :: more -> more <> [] ->
  isEmpty sel = true ->
  line (active sel) = lineCount (document ed) - 1 ->
  nth_error (doc_lines (document ed)) (Z.to_nat (line (active sel))) = Some l ->
  trim l <> [] ->
  str_length (trim l) - 2 <= character (active sel) <= str_length (trim l) + 1 ->
  isEditingFunction st = false ->
  TYPING_COOLDOWN <= currentTime - lastTypingTime st ->
  CLICK_DEBOUNCE_TIME < currentTime - lastClickTime st ->
  2 <= JSMap.size (functions_in_view st ed) ->
  exists st' log,
    handleSelectionChange escomplex currentTime event st = (Ret tt, st') /\
    lastClickTime st' = currentTime /\
    calls st' = log ++ [call_handleBatchTestGeneration ed].
Proof.
  intros He Hsame Hsel Hmore Hempty Hlast Hl Htrim Hcol Hedit Htyping Hclick Hsize.
  assert (Hline : 0 <= line (active sel)).
  { assert (Z.to_nat (line (active sel)) < length (doc_lines (document ed)))%nat
      by (apply nth_error_Some; congruence).
    unfold lineCount in Hlast. lia. }
  unfold handleSelectionChange. unfold bind at 1, get at 1.
  rewrite He, Hsame, Hsel, Hempty. cbn [negb].
  unfold bind at 1.
  destruct (updateDecorations_spec escomplex st ed He)
    as (st1 & -> & Ha1 & Hf1 & He1 & Hc1 & Ht1).
  unfold bind at 1.
  destruct (updateBatchButton_total st1) as (st2 & -> & (Ha2 & Hf2 & He2 & Hc2 & Ht2)).
  unfold bind at 1.
  destruct (analysis_block_total escomplex (document ed) (ret tt) st2)
    as (st3 & -> & (Ha3 & Hf3 & He3 & Hc3 & Ht3)).
  { eexists. split; [reflexivity | apply same_session_refl]. }
  unfold bind at 1, lift at 1.
  rewrite <- (Z2Nat.id (line (active sel))) by exact Hline.
  rewrite (lineAt_nth _ _ _ Hl). cbn [text lineNumber].
  rewrite (Z2Nat.id (line (active sel))) by exact Hline.
  assert (Hm : forall (x y : M unit),
            match trim l with [] => x | _ :: _ => y end = y).
  { intros x y. destruct (trim l); [contradiction | reflexivity]. }
  rewrite Hm.
  unfold bind at 1, get at 1.
  assert (E1 : isEditingFunction st3 = false) by congruence.
  assert (E2 : lastTypingTime st3 = lastTypingTime st) by congruence.
  assert (E3 : lastClickTime st3 = lastClickTime st) by congruence.
  assert (E4 : functionRanges st3 = functions_in_view st ed) by congruence.
  rewrite E1, E2, E3, E4. cbn [orb].
  destruct (Z.ltb_spec (currentTime - lastTypingTime st) TYPING_COOLDOWN); [lia|].
  rewrite Hlast, Z.eqb_refl.
  destruct (Z.geb_spec (JSMap.size (functions_in_view st ed)) 2); [|lia].
  destruct (Z.gtb_spec (currentTime - lastClickTime st) CLICK_DEBOUNCE_TIME); [|lia].
  destruct (Z.geb_spec (character (active sel)) (str_length (trim l) - 2)); [|lia].
  destruct (Z.leb_spec (character (active sel)) (str_length (trim l) + 1)); [|lia].
  assert (Hlen : (Z.of_nat (length (sel :: more)) >? 1) = true).
  { destruct more; [contradiction|]. cbn [length]. apply Z.gtb_lt. lia. }
  rewrite Hlen. cbn [andb].
  eexists _, _. split; [reflexivity|]. split; reflexivity.
Qed.

Lemma batch_click_dispatches_witness :
  2 <= JSMap.size (functions_in_view (session_on (editor_of two_functions))
                     (editor_of two_functions)) /\
  CLICK_DEBOUNCE_TIME < 10000 - lastClickTime (session_on (editor_of two_functions)) /\
  exists st' log,
    handleSelectionChange (fun _ => Ret None) 10000
      {| textEditor := editor_of two_functions;
         selections := [caret 1 15; caret 0 0] |}
      (session_on (editor_of two_functions)) = (Ret tt, st') /\
    lastClickTime st' = 10000 /\
    calls st' = log ++ [call_handleBatchTestGeneration (editor_of two_functions)].
Proof.
  split; [vm_compute; discriminate|]. split; [vm_compute; reflexivity|].
  apply (batch_click_dispatches (fun _ => Ret None) 10000
           {| textEditor := editor_of two_functions;
              selections := [caret 1 15; caret 0 0] |}
           (session_on (editor_of two_functions)) (editor_of two_functions)
           (caret 1 15) [caret 0 0] (lit "function b() {}"));
    try reflexivity; try discriminate; vm_compute; try split; discriminate.
Defined.

(** C6, as stated, fails for the plain click it describes: one empty caret
    on the last line, inside the column window, with two functions
    detected and the debounce window elapsed.  The handler refreshes the
    decorations and returns without dispatching batch test generation,
    because the event carries a single selection. *)
Lemma single_caret_does_not_dispatch :
  let st := session_on (editor_of two_functions) in
  let event := {| textEditor := editor_of two_functions; selections := [caret 1 15] |} in
  let out := handleSelectionChange (fun _ => Ret None) 10000 event st in
  isEmpty (caret 1 15) = true /\
  line (active (caret 1 15)) = lineCount two_functions - 1 /\
  str_length (trim (lit "function b() {}")) - 2 <= 15
    <= str_length (trim (lit "function b() {}")) + 1 /\
  CLICK_DEBOUNCE_TIME < 10000 - lastClickTime st /\
  fst out = Ret tt /\
  2 <= JSMap.size (functionRanges (snd out)) /\
  existsb is_batch_dispatch (calls (snd out)) = false /\
  lastClickTime (snd out) = 0.
Proof.
  vm_compute. repeat split; try reflexivity; discriminate.
Qed.

(** * Further properties of the detector *)

Lemma detect_fold_unset ls : forall i m edits n,
  (forall t, In t ls -> skipped_line t = false -> findFunctionDefinition t <> Some n) ->
  JSMap.get n (fst (detect_fold ls i m edits)) = JSMap.get n m.
Proof.
  induction ls as [|t rest IH]; intros i m edits n H; cbn [detect_fold fst]; [reflexivity|].
  assert (Hrest : forall t', In t' rest -> skipped_line t' = false ->
                    findFunctionDefinition t' <> Some n).
  { intros t' Ht'. apply H. right. exact Ht'. }
  destruct (skipped_line t) eqn:Hs; [apply IH; exact Hrest|].
  destruct (findFunctionDefinition t) as [n'|] eqn:Hf; [|apply IH; exact Hrest].
  rewrite IH by exact Hrest. apply jsmap_get_set_ne.
  intros ->. apply (H t (or_introl eq_refl) Hs). exact Hf.
Qed.

Lemma detect_fold_last ls : forall i m edits j t n,
  nth_error ls j = Some t -> skipped_line t = false ->
  findFunctionDefinition t = Some n ->
  (forall j' t', (j < j')%nat -> nth_error ls j' = Some t' -> skipped_line t' = false ->
     findFunctionDefinition t' <> Some n) ->
  JSMap.get n (fst (detect_fold ls i m edits)) = Some (line_range (i + Z.of_nat j) t).
Proof.
  induction ls as [|t0 rest IH]; intros i m edits j t n Hj Hs Hf Hlast;
    [destruct j; discriminate|].
  cbn [detect_fold]. destruct j as [|j]; cbn [nth_error] in Hj.
  - injection Hj as ->. rewrite Hs, Hf. rewrite detect_fold_unset.
    + rewrite jsmap_get_set_eq. do 2 f_equal. lia.
    + intros t' Ht' Hs'. apply In_nth_error in Ht' as [k Hk].
      apply (Hlast (S k) t'); [lia | exact Hk | exact Hs'].
  - assert (Hlast' : forall j' t', (j < j')%nat -> nth_error rest j' = Some t' ->
              skipped_line t' = false -> findFunctionDefinition t' <> Some n).
    { intros j' t' Hlt Hn. apply (Hlast (S j') t'); [lia | exact Hn]. }
    replace (i + Z.of_nat (S j)) with (i + 1 + Z.of_nat j) by lia.
    destruct (skipped_line t0); [eapply IH; eassumption|].
    destruct (findFunctionDefinition t0); eapply IH; eassumption.
Qed.

(** X1.  When several lines declare the same name, the entry of that name
    holds the range of the last of them: a later declaration overwrites an
    earlier one. *)
Theorem detect_last_declaration_wins d st j t n :
  nth_error (doc_lines d) j = Some t -> skipped_line t = false ->
  findFunctionDefinition t = Some n ->
  (forall j' t', (j < j')%nat -> nth_error (doc_lines d) j' = Some t' ->
     skipped_line t' = false -> findFunctionDefinition t' <> Some n) ->
  JSMap.get n (functionRanges (snd (detectFunctions d st))) = Some (line_range (Z.of_nat j) t).
Proof.
  intros Hj Hs Hf Hlast. rewrite detectFunctions_spec. cbn [snd].
  rewrite functionRanges_after_detect. unfold detected.
  rewrite (detect_fold_last _ 0 JSMap.empty [] j t n Hj Hs Hf Hlast). reflexivity.
Qed.

Lemma detect_last_declaration_wins_witness :
  JSMap.get (lit "f")
    (functionRanges
       (snd (detectFunctions
               (js_document [lit "function f(a) {}"; lit "let x = 1;"; lit "const f = (a, b) => a;"])
               initial_state)))
  = Some (line_range 2 (lit "const f = (a, b) => a;")).
Proof.
  apply (detect_last_declaration_wins
           (js_document [lit "function f(a) {}"; lit "let x = 1;"; lit "const f = (a, b) => a;"])
           initial_state 2 (lit "const f = (a, b) => a;") (lit "f"));
    [reflexivity | vm_compute; reflexivity | vm_compute; reflexivity |].
  intros [|[|[|j']]] t' Hlt Hn; try lia; destruct j'; discriminate Hn.
Defined.

Lemma jsmap_set_keys {V} k (v : V) m :
  List.map fst (JSMap.set k v m) =
  if existsb (fun k' => JS.eqb k' k) (List.map fst m)
  then List.map fst m else List.map fst m ++ [k].
Proof.
  induction m as [|[k0 v0] m IH]; cbn [JSMap.set List.map fst existsb]; [reflexivity|].
  destruct (JS.eqb k0 k) eqn:E; cbn [orb List.map fst]; [reflexivity|].
  rewrite IH. destruct (existsb _ _); reflexivity.
Qed.

Lemma jsmap_set_nodup {V} k (v : V) m :
  List.NoDup (List.map fst m) -> List.NoDup (List.map fst (JSMap.set k v m)).
Proof.
  intros H. rewrite jsmap_set_keys.
  destruct (existsb (fun k' => JS.eqb k' k) (List.map fst m)) eqn:E; [exact H|].
  apply NoDup_ListNoDup, NoDup_app. split; [apply NoDup_ListNoDup; exact H|].
  split; [|apply NoDup_singleton].
  intros x Hx Hk. apply list_elem_of_In in Hx. apply list_elem_of_In in Hk.
  destruct Hk as [<-|[]].
  assert (existsb (fun k' => JS.eqb k' k) (List.map fst m) = true).
  { apply existsb_exists. exists k. split; [exact Hx | apply jseqb_refl]. }
  congruence.
Qed.

Lemma jsmap_set_length {V} k (v : V) m :
  (length (JSMap.set k v m) <= S (length m))%nat.
Proof.
  induction m as [|[k0 v0] m IH]; cbn [JSMap.set length]; [lia|].
  destruct (JS.eqb k0 k); cbn [length]; lia.
Qed.

Lemma detect_fold_keys ls : forall i m edits,
  List.NoDup (List.map fst m) ->
  List.NoDup (List.map fst (fst (detect_fold ls i m edits))) /\
  (length (fst (detect_fold ls i m edits)) <= length m + length ls)%nat.
Proof.
  induction ls as [|t rest IH]; intros i m edits H; cbn [detect_fold fst length].
  - split; [exact H | lia].
  - destruct (skipped_line t).
    + destruct (IH (i + 1) m edits H). split; [assumption | lia].
    + destruct (findFunctionDefinition t) as [n|].
      * match goal with |- context [detect_fold rest ?i ?m' ?e'] =>
          destruct (IH i m' e' (jsmap_set_nodup _ _ _ H)) as [H1 H2] end.
        split; [exact H1|].
        pose proof (jsmap_set_length n (line_range i t) m). lia.
      * destruct (IH (i + 1) m edits H). split; [assumption | lia].
Qed.

(** X2.  Each detection pass clears and rebuilds the map: what it leaves
    in [functionRanges] does not depend on the state before the pass, has
    one entry per name (no duplicate keys), and at most one entry per line
    of the document. *)
Theorem detect_rebuilds_map d st1 st2 :
  functionRanges (snd (detectFunctions d st1)) = functionRanges (snd (detectFunctions d st2)) /\
  List.NoDup (List.map fst (JSMap.entries (functionRanges (snd (detectFunctions d st1))))) /\
  JSMap.size (functionRanges (snd (detectFunctions d st1))) <= lineCount d.
Proof.
  rewrite !detectFunctions_spec. cbn [snd]. rewrite !functionRanges_after_detect.
  split; [reflexivity|].
  destruct (detect_fold_keys (doc_lines d) 0 JSMap.empty [] (List.NoDup_nil _)) as [H1 H2].
  split; [exact H1|]. unfold JSMap.size, lineCount, detected.
  change (length (@JSMap.empty Range)) with O in H2. lia.
Qed.

Lemma detect_fold_edits_acc ls : forall i m m' e0,
  snd (detect_fold ls i m e0) = e0 ++ snd (detect_fold ls i m' []).
Proof.
  induction ls as [|t rest IH]; intros i m m' e0; cbn [detect_fold snd].
  - rewrite app_nil_r. reflexivity.
  - destruct (skipped_line t); [apply IH|].
    destruct (findFunctionDefinition t) as [n|]; [|apply IH].
    destruct (negb (endsWith t placeholder)).
    + rewrite (IH _ _ (JSMap.set n (line_range i t) m') (e0 ++ _)).
      rewrite (IH _ (JSMap.set n (line_range i t) m') (JSMap.set n (line_range i t) m')
                 ([] ++ _)).
      rewrite <- !app_assoc. reflexivity.
    + apply IH.
Qed.

Lemma needs_padding_cases t :
  needs_padding t = true <->
  skipped_line t = false /\ (exists n, findFunctionDefinition t = Some n) /\
  endsWith t placeholder = false.
Proof.
  unfold needs_padding. destruct (skipped_line t); cbn [negb andb].
  - split; [discriminate | intros [H _]; discriminate].
  - destruct (findFunctionDefinition t) as [n|]; cbn [andb].
    + destruct (endsWith t placeholder); cbn [negb]; split; try discriminate; eauto.
      intros (_ & _ & H). discriminate.
    + split; [discriminate | intros (_ & [n H] & _); discriminate].
Qed.

(** The edits of a pass: one per line that needs padding, in line order. *)
Lemma detect_fold_edits_cons t rest i m :
  snd (detect_fold (t :: rest) i m []) =
  (if needs_padding t
   then [{| insert_at := {| line := i; character := str_length t |};
            newText := placeholder |}]
   else []) ++ snd (detect_fold rest (i + 1) m []).
Proof.
  cbn [detect_fold]. unfold needs_padding.
  destruct (skipped_line t); cbn [negb andb app]; [reflexivity|].
  destruct (findFunctionDefinition t) as [n|]; cbn [andb app].
  - destruct (negb (endsWith t placeholder)); cbn [app].
    + rewrite (detect_fold_edits_acc rest (i + 1) _ m). reflexivity.
    + rewrite (detect_fold_edits_acc rest (i + 1) _ m). reflexivity.
  - reflexivity.
Qed.

Lemma detect_fold_edits_in ls : forall i m e,
  In e (snd (detect_fold ls i m [])) <->
  exists j t, nth_error ls j = Some t /\ needs_padding t = true /\
    e = {| insert_at := {| line := i + Z.of_nat j; character := str_length t |};
           newText := placeholder |}.
Proof.
  induction ls as [|t rest IH]; intros i m e.
  - cbn. split; [intros [] | intros (j & t & H & _); destruct j; discriminate].
  - rewrite detect_fold_edits_cons, in_app_iff, IH. split.
    + intros [H|(j & t' & Hj & Hp & ->)].
      * destruct (needs_padding t) eqn:Hp; [|destruct H].
        destruct H as [<-|[]]. exists O, t. repeat split; auto. do 2 f_equal. lia.
      * exists (S j), t'. repeat split; auto. do 2 f_equal. lia.
    + intros ([|j] & t' & Hj & Hp & ->); cbn [nth_error] in Hj.
      * injection Hj as ->. left. rewrite Hp. left. do 2 f_equal. lia.
      * right. exists j, t'. repeat split; auto. do 2 f_equal. lia.
Qed.

Lemma calls_after_detect d st :
  calls (after_detect d st) =
  calls st ++ match requested_edits d with [] => [] | es => [applyEdit es] end.
Proof.
  unfold after_detect, requested_edits.
  destruct (detect_fold (doc_lines d) 0 JSMap.empty []) as [m [|e es]]; cbn.
  - rewrite app_nil_r. reflexivity.
  - reflexivity.
Qed.

(** X3.  A detection pass calls [applyEdit] at most once, with all its
    edits together, and not at all when it has none.  The edits it
    requests are those that append the 50 spaces of padding at the end of
    a line that holds a detected declaration and does not yet end with
    that padding, and no others. *)
Theorem detect_padding_edits d st :
  calls (snd (detectFunctions d st)) =
    calls st ++ match requested_edits d with [] => [] | es => [applyEdit es] end /\
  forall e, In e (requested_edits d) <->
    exists j t, nth_error (doc_lines d) j = Some t /\ needs_padding t = true /\
      e = {| insert_at := {| line := Z.of_nat j; character := str_length t |};
             newText := placeholder |}.
Proof.
  rewrite detectFunctions_spec. cbn [snd]. split; [apply calls_after_detect|].
  intros e. unfold requested_edits. rewrite detect_fold_edits_in. reflexivity.
Qed.

(** ** The padding does not change what is detected *)

Lemma trimStart_spaces_app w x : spaces w -> trimStart (w ++ x) = trimStart x.
Proof.
  induction w as [|c w IH]; intros H; [reflexivity|].
  inversion H; subst. cbn [app trimStart].
  match goal with H : is_space c = true |- _ => rewrite H end. apply IH. assumption.
Qed.

Lemma trimStart_nonspace_app t w : trimStart t <> [] -> trimStart (t ++ w) = trimStart t ++ w.
Proof.
  induction t as [|c t IH]; cbn [app trimStart]; [contradiction|].
  destruct (is_space c); [exact IH | reflexivity].
Qed.

Lemma trimStart_nil t : trimStart t = [] -> spaces t.
Proof.
  induction t as [|c t IH]; cbn [trimStart]; [constructor|].
  destruct (is_space c) eqn:E; [|discriminate].
  intros H. constructor; [exact E | apply IH; exact H].
Qed.

Lemma trimStart_of_spaces t : spaces t -> trimStart t = [].
Proof.
  intros H. rewrite <- (app_nil_r t). rewrite trimStart_spaces_app by exact H. reflexivity.
Qed.

Lemma trimEnd_spaces_app x w : spaces w -> trimEnd (x ++ w) = trimEnd x.
Proof.
  intros H. unfold trimEnd. rewrite rev_app_distr.
  rewrite trimStart_spaces_app; [reflexivity | apply Forall_rev; exact H].
Qed.

(** Trailing white space does not change the trimmed text. *)
Lemma trim_spaces_app t w : spaces w -> trim (t ++ w) = trim t.
Proof.
  intros H. unfold trim. destruct (trimStart t) as [|c u] eqn:E.
  - apply trimStart_nil in E.
    rewrite trimStart_of_spaces; [reflexivity|]. apply Forall_app. split; assumption.
  - rewrite trimStart_nonspace_app by congruence. rewrite E.
    apply trimEnd_spaces_app. exact H.
Qed.

Lemma spaces_placeholder : spaces placeholder.
Proof. apply Forall_forallb. reflexivity. Qed.

Lemma endsWith_app t p : endsWith (t ++ p) p = true.
Proof.
  unfold endsWith. rewrite rev_app_distr. apply startsWith_spec. eauto.
Qed.

(** What follows a declaration on its line does not change the name found. *)
Lemma findFunctionDefinition_app t x n :
  findFunctionDefinition t = Some n -> findFunctionDefinition (t ++ x) = Some n.
Proof.
  intros H. apply findFunctionDefinition_spec in H as [sh Hd].
  apply findFunctionDefinition_spec. exists sh.
  destruct sh; cbn [declaration] in *.
  - destruct Hd as (e & a & w1 & w2 & rest & He & Ha & Hw1 & Hn & Hw2 & ->).
    exists e, a, w1, w2, (rest ++ x). repeat split; try assumption; try apply Hw1; try apply Hn.
    rewrite <- !app_assoc. reflexivity.
  - destruct Hd as (e & w1 & w2 & w3 & a & args & w4 & rest &
                    He & Hw1 & Hn & Hw2 & Hw3 & Ha & Hargs & Hw4 & ->).
    exists e, w1, w2, w3, a, args, w4, (rest ++ x).
    repeat split; try assumption; try apply Hw1; try apply Hn.
    rewrite <- !app_assoc. reflexivity.
  - destruct Hd as (e & w1 & w2 & w3 & w4 & rest & He & Hw1 & Hn & Hw2 & Hw3 & Hw4 & ->).
    exists e, w1, w2, w3, w4, (rest ++ x).
    repeat split; try assumption; try apply Hw1; try apply Hn.
    rewrite <- !app_assoc. reflexivity.
  - destruct Hd as (e & a & w1 & args & w2 & rest & He & Ha & Hn & Hw1 & Hargs & Hw2 & ->).
    exists e, a, w1, args, w2, (rest ++ x).
    repeat split; try assumption; try apply Hn.
    rewrite <- !app_assoc. reflexivity.
Qed.

Lemma found_starts_word t n : findFunctionDefinition t = Some n -> starts_word t.
Proof.
  intros H. apply findFunctionDefinition_spec in H as [sh Hd].
  eapply declaration_starts_word. exact Hd.
Qed.

Lemma line_range_padded i t : line_range i (t ++ placeholder) = line_range i t.
Proof. unfold line_range. rewrite trim_spaces_app by apply spaces_placeholder. reflexivity. Qed.

Lemma update_line_app pre t rest f :
  update_line (pre ++ t :: rest) (length pre) f = pre ++ f t :: rest.
Proof.
  induction pre as [|a pre IH]; cbn [app length update_line]; [reflexivity|].
  rewrite IH. reflexivity.
Qed.

Lemma insert_text_end t s : insert_text t (str_length t) s = t ++ s.
Proof.
  unfold insert_text, str_length. rewrite Nat2Z.id, firstn_all, skipn_all, app_nil_r.
  reflexivity.
Qed.

(** Applying the requested edits appends the padding to the lines that
    need it and leaves the other lines alone. *)
Lemma apply_requested_edits ls : forall pre m,
  apply_edits (snd (detect_fold ls (Z.of_nat (length pre)) m [])) (pre ++ ls) =
  pre ++ List.map (fun t => if needs_padding t then t ++ placeholder else t) ls.
Proof.
  induction ls as [|t rest IH]; intros pre m; [reflexivity|].
  rewrite detect_fold_edits_cons. cbn [List.map].
  replace (Z.of_nat (length pre) + 1) with (Z.of_nat (length (pre ++ [t])))
    by (rewrite length_app; cbn [length]; lia).
  destruct (needs_padding t).
  - cbn [app apply_edits fold_left]. unfold apply_edit at 2.
    cbn [insert_at line character newText]. rewrite Nat2Z.id, update_line_app.
    rewrite insert_text_end.
    replace (length (pre ++ [t])) with (length (pre ++ [t ++ placeholder]))
      by (rewrite !length_app; reflexivity).
    replace (pre ++ (t ++ placeholder) :: rest) with ((pre ++ [t ++ placeholder]) ++ rest)
      by (rewrite <- app_assoc; reflexivity).
    fold (apply_edits (snd (detect_fold rest (Z.of_nat (length (pre ++ [t ++ placeholder]))) m []))
            ((pre ++ [t ++ placeholder]) ++ rest)).
    rewrite IH. rewrite <- app_assoc. reflexivity.
  - cbn [app].
    replace (pre ++ t :: rest) with ((pre ++ [t]) ++ rest)
      by (rewrite <- app_assoc; reflexivity).
    rewrite IH. rewrite <- app_assoc. reflexivity.
Qed.

Lemma detect_fold_map_acc ls : forall i m e e',
  fst (detect_fold ls i m e) = fst (detect_fold ls i m e').
Proof.
  induction ls as [|t rest IH]; intros i m e e'; cbn [detect_fold fst]; [reflexivity|].
  destruct (skipped_line t); [apply IH|].
  destruct (findFunctionDefinition t); [|apply IH].
  destruct (negb (endsWith t placeholder)); apply IH.
Qed.

(** A second pass over the padded lines finds the same functions with the
    same ranges, and asks for no edit. *)
Lemma detect_fold_padded ls : forall i m edits,
  detect_fold (List.map (fun t => if needs_padding t then t ++ placeholder else t) ls)
              i m edits
  = (fst (detect_fold ls i m edits), edits).
Proof.
  induction ls as [|t rest IH]; intros i m edits; [reflexivity|].
  cbn [List.map]. destruct (needs_padding t) eqn:Hp.
  - apply needs_padding_cases in Hp as (Hs & [n Hf] & He).
    cbn [detect_fold]. rewrite Hs, Hf.
    rewrite (starts_word_not_skipped _ (starts_word_app _ placeholder (found_starts_word _ _ Hf))).
    rewrite (findFunctionDefinition_app _ placeholder _ Hf).
    rewrite endsWith_app, He, line_range_padded. cbn [negb].
    rewrite IH. f_equal. apply detect_fold_map_acc.
  - cbn [detect_fold].
    assert (Hno : skipped_line t = true \/ findFunctionDefinition t = None \/
                  endsWith t placeholder = true).
    { unfold needs_padding in Hp. destruct (skipped_line t); [auto|].
      destruct (findFunctionDefinition t); [|auto].
      destruct (endsWith t placeholder); [auto | discriminate]. }
    destruct (skipped_line t); [apply IH|].
    destruct (findFunctionDefinition t) as [n|]; [|apply IH].
    destruct Hno as [Hno|[Hno|Hno]]; try discriminate.
    rewrite Hno. cbn [negb]. apply IH.
Qed.

(** X4.  Once the host has applied the edits a pass requested, the next
    pass over the document detects the same functions with the same ranges
    and requests no further edit, so it does not call [applyEdit] again:
    the padding is inserted once. *)
Theorem detect_after_padding d :
  let d' := with_lines d (apply_edits (requested_edits d) (doc_lines d)) in
  detected d' = detected d /\
  requested_edits d' = [] /\
  forall st, calls (snd (detectFunctions d' st)) = calls st.
Proof.
  intros d'.
  assert (Hfold : detect_fold (doc_lines d') 0 JSMap.empty [] = (detected d, [])).
  { unfold d', with_lines, requested_edits. cbn [doc_lines].
    pose proof (apply_requested_edits (doc_lines d) [] JSMap.empty) as H.
    change (Z.of_nat (length (@nil jsstring))) with 0 in H. cbn [app] in H.
    rewrite H. apply detect_fold_padded. }
  assert (Hreq : requested_edits d' = []) by (unfold requested_edits; rewrite Hfold; reflexivity).
  split; [unfold detected at 1; rewrite Hfold; reflexivity|].
  split; [exact Hreq|].
  intros st. rewrite detectFunctions_spec. cbn [snd].
  rewrite calls_after_detect, Hreq. apply app_nil_r.
Qed.

(** * Further properties of the extractor *)

Lemma scan_braces_app a b : forall c f,
  scan_braces (a ++ b) c f =
  scan_braces b (fst (scan_braces a c f)) (snd (scan_braces a c f)).
Proof.
  induction a as [|x a IH]; intros c f; cbn [app scan_braces]; [reflexivity|].
  destruct (x =? 123)%N; [apply IH|]. destruct (x =? 125)%N; apply IH.
Qed.

(** Scanning the joined text is scanning the lines one after the other. *)
Lemma scan_braces_join ls : forall c f,
  scan_braces (join newline ls) c f = scan_lines ls c f.
Proof.
  induction ls as [|t rest IH]; intros c f; [reflexivity|].
  cbn [scan_lines]. destruct rest as [|t' rest].
  - cbn [join scan_lines]. destruct (scan_braces t c f). reflexivity.
  - change (join newline (t :: t' :: rest)) with (t ++ newline ++ join newline (t' :: rest)).
    rewrite scan_braces_app. destruct (scan_braces t c f) as [c1 f1]. cbn [fst snd].
    change (newline ++ join newline (t' :: rest)) with (10%N :: join newline (t' :: rest)).
    cbn [scan_braces N.eqb Pos.eqb]. apply IH.
Qed.

(** The counter is the number of opening braces less the number of closing
    ones, and the flag tells whether an opening brace was met. *)
Lemma scan_braces_counts t : forall c f,
  scan_braces t c f =
  (c + Z.of_nat (count_occ N.eq_dec t 123%N) - Z.of_nat (count_occ N.eq_dec t 125%N),
   f || existsb (N.eqb 123) t).
Proof.
  induction t as [|x t IH]; intros c f; cbn [scan_braces count_occ existsb].
  - rewrite orb_false_r. f_equal. lia.
  - destruct (N.eq_dec x 123%N) as [->|H1].
    + cbn [N.eqb Pos.eqb orb]. rewrite IH.
      destruct (N.eq_dec 123%N 125%N); [discriminate|].
      rewrite orb_true_r. f_equal. lia.
    + destruct (N.eqb_spec x 123%N); [contradiction|].
      destruct (N.eqb_spec 123%N x); [congruence|]. cbn [orb].
      destruct (N.eq_dec x 125%N) as [->|H2].
      * cbn [N.eqb Pos.eqb]. rewrite IH. f_equal. lia.
      * destruct (N.eqb_spec x 125%N); [contradiction|]. rewrite IH. reflexivity.
Qed.

Lemma extract_fold_some ls : forall b f code res,
  extract_fold ls b f code = Some res ->
  exists k, (k < length ls)%nat /\ closes_at b f ls k = true /\
    res = join newline (code ++ firstn (S k) ls).
Proof.
  induction ls as [|t rest IH]; intros b f code res; cbn [extract_fold]; [discriminate|].
  destruct (scan_braces t b f) as [b' f'] eqn:E.
  destruct (f' && (b' =? 0)) eqn:Hc.
  - intros [= <-]. exists O. rewrite closes_at_first, E. cbn [fst snd length firstn].
    split; [lia|]. split; [exact Hc | reflexivity].
  - intros H. apply IH in H as (k & Hk & Hcl & ->).
    exists (S k). rewrite closes_at_cons, E. cbn [fst snd length firstn].
    split; [lia|]. split; [exact Hcl|]. rewrite <- app_assoc. reflexivity.
Qed.

Lemma join_cons_prefix sep t l : exists r, join sep (t :: l) = t ++ r.
Proof.
  destruct l as [|t' l]; cbn [join].
  - exists []. rewrite app_nil_r. reflexivity.
  - eauto.
Qed.

(** X5.  Whenever the extractor returns a text, the text holds as many
    closing braces as opening ones and at least one opening brace, and it
    begins with the text of the start line. *)
Theorem extract_result_balanced ed startLine code :
  extractFunctionCode (Some ed) startLine = Ret (Some code) ->
  count_occ N.eq_dec code 123%N = count_occ N.eq_dec code 125%N /\
  In 123%N code /\
  exists t, nth_error (doc_lines (document ed)) (Z.to_nat startLine) = Some t /\
            startsWith code t = true.
Proof.
  intros H.
  assert (Hs : 0 <= startLine).
  { destruct (Z.le_gt_cases 0 startLine) as [Hle|Hgt]; [exact Hle|].
    destruct (extractFunctionCode_negative ed startLine ltac:(lia)) as [e He]. congruence. }
  rewrite extractFunctionCode_fold in H by exact Hs. injection H as H.
  apply extract_fold_some in H as (k & Hk & Hc & ->). cbn [app].
  set (ls := skipn (Z.to_nat startLine) (doc_lines (document ed))) in *.
  unfold closes_at in Hc.
  pose proof (scan_braces_join (firstn (S k) ls) 0 false) as Hj.
  destruct (scan_lines (firstn (S k) ls) 0 false) as [b' f'].
  apply andb_prop in Hc as [-> Hb]. apply Z.eqb_eq in Hb. subst b'.
  rewrite scan_braces_counts in Hj. injection Hj as Hcount Hopen.
  split; [lia|]. split.
  - cbn [orb] in Hopen. apply existsb_exists in Hopen as (x & Hx & Hx').
    apply N.eqb_eq in Hx'. subst x. exact Hx.
  - destruct ls as [|t rest] eqn:El; [cbn in Hk; lia|].
    exists t. split.
    + pose proof (nth_error_skipn (Z.to_nat startLine) (doc_lines (document ed)) O) as Hn.
      fold ls in Hn. rewrite El in Hn. cbn [nth_error] in Hn.
      rewrite Nat.add_0_r in Hn. symmetry. exact Hn.
    + cbn [firstn]. destruct (join_cons_prefix newline t (firstn k rest)) as [r ->].
      apply startsWith_spec. eauto.
Qed.

Lemma extract_result_balanced_witness :
  count_occ N.eq_dec (lit "function f() {" ++ newline ++ lit "}") 123%N =
  count_occ N.eq_dec (lit "function f() {" ++ newline ++ lit "}") 125%N.
Proof.
  apply (extract_result_balanced
           (editor_of (js_document [lit "function f() {"; lit "}"; lit "g();"])) 0).
  vm_compute. reflexivity.
Defined.

(** X6.  Outside the document the extractor behaves as follows: a start
    line at or past the line count gives null; a negative start line makes
    [lineAt] throw; and without an active editor the result is null. *)
Theorem extract_out_of_range ed startLine :
  (lineCount (document ed) <= startLine ->
   extractFunctionCode (Some ed) startLine = Ret None) /\
  (startLine < 0 -> exists e, extractFunctionCode (Some ed) startLine = Throw e) /\
  extractFunctionCode None startLine = Ret None.
Proof.
  split; [|split; [apply extractFunctionCode_negative | reflexivity]].
  intros H. unfold extractFunctionCode.
  replace (Z.to_nat (lineCount (document ed) - startLine)) with O by lia. reflexivity.
Qed.

Lemma extract_out_of_range_witness :
  extractFunctionCode (Some (editor_of (js_document [lit "function f() {"; lit "}"]))) 2
  = Ret None.
Proof.
  apply (proj1 (extract_out_of_range
                  (editor_of (js_document [lit "function f() {"; lit "}"])) 2)).
  vm_compute. discriminate.
Defined.

(** * Further properties of the handlers *)

Lemma undisturbed_refl st : undisturbed st st.
Proof.
  unfold undisturbed. split; [|auto]. exists []. rewrite app_nil_r. auto.
Qed.

Lemma undisturbed_trans st1 st2 st3 :
  undisturbed st1 st2 -> undisturbed st2 st3 -> undisturbed st1 st3.
Proof.
  intros ((x1 & E1 & F1) & ? & ? & ? & ?) ((x2 & E2 & F2) & ? & ? & ? & ?).
  split; [|repeat split; congruence].
  exists (x1 ++ x2). rewrite E2, E1, <- app_assoc. split; [reflexivity|].
  rewrite forallb_app, F1, F2. reflexivity.
Qed.

Lemma background_ret {A} (a : A) : background (ret a).
Proof. intros st. apply undisturbed_refl. Qed.

Lemma background_lift {A} (o : Outcome A) : background (lift o).
Proof. intros st. apply undisturbed_refl. Qed.

Lemma background_get : background get.
Proof. intros st. apply undisturbed_refl. Qed.

Lemma background_bind {A B} (m : M A) (f : A -> M B) :
  background m -> (forall a, background (f a)) -> background (bind m f).
Proof.
  intros Hm Hf st. unfold bind. specialize (Hm st).
  destruct (m st) as [[a|e] st1]; cbn [snd] in *; [|exact Hm].
  eapply undisturbed_trans; [exact Hm | apply Hf].
Qed.

Lemma background_call c : is_dispatch c = false -> background (call c).
Proof.
  intros Hc st. unfold call. cbn [snd]. split; [|cbn; auto].
  exists [c]. cbn. rewrite Hc. auto.
Qed.

Lemma background_set_functionRanges m : background (set_functionRanges m).
Proof. intros st. split; [|cbn; auto]. exists []. cbn. rewrite app_nil_r. auto. Qed.

Lemma background_set_complexityRanges m : background (set_complexityRanges m).
Proof. intros st. split; [|cbn; auto]. exists []. cbn. rewrite app_nil_r. auto. Qed.

Ltac background_step :=
  first [ apply background_ret | apply background_lift | apply background_get
        | apply background_set_functionRanges | apply background_set_complexityRanges
        | apply background_call; reflexivity
        | apply background_bind; [|intros ?] ].

Lemma background_detect_loop n : forall d i edits, background (detect_loop n d i edits).
Proof.
  induction n as [|n IH]; intros d i edits; cbn [detect_loop]; [apply background_ret|].
  apply background_bind; [apply background_lift|]. intros l.
  destruct (skipped_line (text l)); [apply IH|].
  destruct (findFunctionDefinition (text l)); [|apply IH].
  repeat background_step.
  destruct (negb (endsWith (text l) placeholder)); [|apply IH].
  apply background_bind; [apply background_lift|]. intros p. apply IH.
Qed.

Lemma background_detectFunctions d : background (detectFunctions d).
Proof.
  unfold detectFunctions. apply background_bind; [apply background_set_functionRanges|].
  intros _. apply background_bind; [apply background_detect_loop|].
  intros [|e es]; [apply background_ret | apply background_call; reflexivity].
Qed.

Lemma background_createDecorations : background createDecorations.
Proof. unfold createDecorations. repeat background_step. Qed.

Lemma background_analyzeComplexity escomplex doc :
  background (analyzeComplexity escomplex doc).
Proof.
  unfold analyzeComplexity. destruct doc as [d|]; [|repeat background_step].
  destruct (getText d) as [|c t]; [repeat background_step|].
  destruct (escomplex (c :: t)) as [[[[ms|]]|]|e]; repeat background_step.
Qed.

Lemma background_highlight_loop d ms : forall cds rds,
  background (highlight_loop d ms cds rds).
Proof.
  induction ms as [|m rest IH]; intros cds rds; cbn [highlight_loop]; [apply background_ret|].
  destruct (valid_metric m) as [[[metric s] e]|];
    [|apply background_bind; [apply background_call; reflexivity | intros _; apply IH]].
  destruct (lineAt d (e - 1)) as [tl|];
    [|apply background_bind; [apply background_call; reflexivity | intros _; apply IH]].
  destruct (new_Range (s - 1) 0 (e - 1) (str_length (trim (text tl)))) as [r|];
    [|apply background_bind; [apply background_call; reflexivity | intros _; apply IH]].
  destruct (complexity metric >? 9); [|apply IH].
  destruct (new_Range (s - 1) 0 (s - 1) 0) as [rr|];
    [|apply background_bind; [apply background_call; reflexivity | intros _; apply IH]].
  apply background_bind; [apply background_get|]. intros st0.
  apply background_bind; [apply background_set_complexityRanges|]. intros _. apply IH.
Qed.

Lemma background_highlightComplexFunctions metrics :
  background (highlightComplexFunctions metrics).
Proof.
  unfold highlightComplexFunctions. apply background_bind; [apply background_get|].
  intros st0. destruct (activeEditor st0) as [ed|]; [|repeat background_step].
  destruct (lineCount (document ed) <? 10); [apply background_ret|].
  destruct metrics as [[|m ms]|]; [repeat background_step | | repeat background_step].
  apply background_bind; [apply background_set_complexityRanges|]. intros _.
  apply background_bind; [apply background_highlight_loop|]. intros ds.
  repeat background_step.
Qed.

Lemma background_analysis escomplex d :
  background (metrics <- analyzeComplexity escomplex (Some d) ;;
              highlightComplexFunctions metrics).
Proof.
  apply background_bind; [apply background_analyzeComplexity|].
  intros metrics. apply background_highlightComplexFunctions.
Qed.

Lemma background_updateDecorations escomplex : background (updateDecorations escomplex).
Proof.
  unfold updateDecorations. apply background_bind; [apply background_get|].
  intros st0. destruct (activeEditor st0) as [ed|]; [|apply background_ret].
  destruct (negb (isValidSourceFile (document ed))); [repeat background_step|].
  apply background_bind.
  - destruct (lineCount (document ed) >? 10);
      [apply background_analysis | repeat background_step].
  - intros _. apply background_bind; [apply background_detectFunctions|]. intros _.
    apply background_bind; [apply background_createDecorations|]. intros ds.
    repeat background_step.
Qed.

Lemma background_updateBatchButton : background updateBatchButton.
Proof.
  unfold updateBatchButton. apply background_bind; [apply background_get|].
  intros st0. destruct (activeEditor st0) as [ed|]; [|repeat background_step].
  apply background_bind.
  - destruct (negb (isValidSourceFile (document ed))); repeat background_step.
  - intros _. apply background_bind; [apply background_get|]. intros st1.
    destruct (JSMap.size (functionRanges st1) >=? 2); repeat background_step.
Qed.

(** X8.  While an edit is in progress ([isEditingFunction] is set, or less
    than 2000 ms have passed since the last typing time), a selection
    change starts no test generation, neither for one function nor for the
    batch, and leaves the last click time as it is, whatever the caret
    position and whatever the metrics engine does. *)
Theorem no_dispatch_while_editing escomplex currentTime event st :
  isEditingFunction st = true \/ currentTime - lastTypingTime st < TYPING_COOLDOWN ->
  undisturbed st (snd (handleSelectionChange escomplex currentTime event st)).
Proof.
  intros Hedit. unfold handleSelectionChange. unfold bind at 1, get at 1.
  destruct (activeEditor st) as [ed|]; [|apply undisturbed_refl].
  destruct (negb (same_editor (textEditor event) ed)); [apply undisturbed_refl|].
  destruct (selections event) as [|sel more]; [apply undisturbed_refl|].
  destruct (negb (isEmpty sel)); [apply undisturbed_refl|].
  unfold bind at 1. pose proof (background_updateDecorations escomplex st) as H1.
  destruct (updateDecorations escomplex st) as [[[]|e1] st1]; cbn [snd] in *; [|exact H1].
  unfold bind at 1. pose proof (background_updateBatchButton st1) as H2.
  destruct (updateBatchButton st1) as [[[]|e2] st2]; cbn [snd] in *;
    [|eapply undisturbed_trans; eassumption].
  unfold bind at 1.
  assert (H3 : undisturbed st2
                 (snd ((if lineCount (document ed) >? 10
                        then metrics <- analyzeComplexity escomplex (Some (document ed)) ;;
                             highlightComplexFunctions metrics
                        else ret tt) st2))).
  { destruct (lineCount (document ed) >? 10);
      [apply background_analysis | apply undisturbed_refl]. }
  destruct ((if lineCount (document ed) >? 10
             then metrics <- analyzeComplexity escomplex (Some (document ed)) ;;
                  highlightComplexFunctions metrics
             else ret tt) st2) as [[[]|e3] st3]; cbn [snd] in *;
    [|eapply undisturbed_trans; [eassumption|]; eapply undisturbed_trans; eassumption].
  assert (H : undisturbed st st3).
  { eapply undisturbed_trans; [eassumption|]. eapply undisturbed_trans; eassumption. }
  unfold bind at 1, lift at 1.
  destruct (lineAt (document ed) (line (active sel))) as [l|e4]; cbn [snd]; [|exact H].
  destruct (trim (text l)) as [|c0 t0]; [exact H|].
  unfold bind at 1, get at 1.
  destruct H as (Hq & Ha & He & Hc & Ht).
  assert (Hcond : isEditingFunction st3
                  || (currentTime - lastTypingTime st3 <? TYPING_COOLDOWN) = true).
  { rewrite He, Ht. destruct Hedit as [-> | Hlt]; [reflexivity|].
    apply Z.ltb_lt in Hlt. rewrite Hlt. apply orb_true_r. }
  rewrite Hcond. cbn [snd ret]. repeat split; assumption.
Qed.

Lemma no_dispatch_while_editing_witness :
  let st := with_lastClickTime 0
              {| activeEditor := Some (editor_of two_functions);
                 functionRanges := JSMap.empty; complexityRanges := JSMap.empty;
                 isEditingFunction := true; lastClickTime := 0; lastTypingTime := 0;
                 calls := [] |} in
  undisturbed st
    (snd (handleSelectionChange (fun _ => Ret None) 10000
            {| textEditor := editor_of two_functions;
               selections := [caret 1 15; caret 0 0] |} st)).
Proof.
  intros st. apply no_dispatch_while_editing. left. reflexivity.
Defined.

Lemma find_range_on_line_some es l n r :
  find_range_on_line es l = Some (n, r) -> In (n, r) es /\ line (range_start r) = l.
Proof.
  induction es as [|[n0 r0] es IH]; cbn [find_range_on_line]; [discriminate|].
  destruct (Z.eqb_spec (line (range_start r0)) l) as [E|_].
  - intros [= -> ->]. split; [left; reflexivity | exact E].
  - intros H. apply IH in H as [H1 H2]. split; [right; exact H1 | exact H2].
Qed.

Lemma lineAt_inside d n :
  0 <= n < lineCount d -> exists t, lineAt d n = Ret {| lineNumber := n; text := t |}.
Proof.
  intros H. unfold lineCount in H.
  destruct (nth_error (doc_lines d) (Z.to_nat n)) as [t|] eqn:E.
  - exists t. rewrite <- (Z2Nat.id n) at 1 2 by lia. apply lineAt_nth. exact E.
  - apply nth_error_None in E. lia.
Qed.

(** X7.  A click on the test decoration of a function (an empty caret 5 or
    6 columns past the trimmed end of a line on which a detected function
    starts) records the click time and starts test generation for the
    function recorded on that line, with the code the extractor returns
    for it, provided the event is for the active editor, the line is not
    blank, no edit is in progress and the click debounce has elapsed. *)
Theorem single_click_dispatches escomplex currentTime event st ed sel more l n r :
  activeEditor st = Some ed ->
  same_editor (textEditor event) ed = true ->
  selections event = sel :: more ->
  isEmpty sel = true ->
  0 <= line (active sel) ->
  nth_error (doc_lines (document ed)) (Z.to_nat (line (active sel))) = Some l ->
  trim l <> [] ->
  character (active sel) = str_length (trim l) + 5 \/
  character (active sel) = str_length (trim l) + 6 ->
  isEditingFunction st = false ->
  TYPING_COOLDOWN <= currentTime - lastTypingTime st ->
  CLICK_DEBOUNCE_TIME < currentTime - lastClickTime st ->
  find_range_on_line (JSMap.entries (functions_in_view st ed)) (line (active sel))
    = Some (n, r) ->
  exists st' log code,
    handleSelectionChange escomplex currentTime event st = (Ret tt, st') /\
    lastClickTime st' = currentTime /\
    extractFunctionCode (Some ed) (line (active sel)) = Ret code /\
    calls st' = log ++ [call_handleTestGeneration
                          {| info_name := n; info_range := r; info_code := code |}].
Proof.
  intros He Hsame Hsel Hempty Hline Hl Htrim Hcol Hedit Htyping Hclick Hfind.
  unfold handleSelectionChange. unfold bind at 1, get at 1.
  rewrite He, Hsame, Hsel, Hempty. cbn [negb].
  unfold bind at 1.
  destruct (updateDecorations_spec escomplex st ed He)
    as (st1 & -> & Ha1 & Hf1 & He1 & Hc1 & Ht1).
  unfold bind at 1.
  destruct (updateBatchButton_total st1) as (st2 & -> & (Ha2 & Hf2 & He2 & Hc2 & Ht2)).
  unfold bind at 1.
  destruct (analysis_block_total escomplex (document ed) (ret tt) st2)
    as (st3 & -> & (Ha3 & Hf3 & He3 & Hc3 & Ht3)).
  { eexists. split; [reflexivity | apply same_session_refl]. }
  unfold bind at 1, lift at 1.
  pose proof (lineAt_nth _ _ _ Hl) as Hla. rewrite Z2Nat.id in Hla by exact Hline.
  rewrite Hla. cbn [text lineNumber].
  assert (Hm : forall (x y : M unit),
            match trim l with [] => x | _ :: _ => y end = y).
  { intros x y. destruct (trim l); [contradiction | reflexivity]. }
  rewrite Hm.
  unfold bind at 1, get at 1.
  assert (E1 : isEditingFunction st3 = false) by congruence.
  assert (E2 : lastTypingTime st3 = lastTypingTime st) by congruence.
  assert (E3 : lastClickTime st3 = lastClickTime st) by congruence.
  assert (E4 : functionRanges st3 = functions_in_view st ed) by congruence.
  assert (E5 : activeEditor st3 = Some ed) by congruence.
  rewrite E1, E2, E3. cbn [orb].
  destruct (Z.ltb_spec (currentTime - lastTypingTime st) TYPING_COOLDOWN); [lia|].
  assert (Hbatch : (character (active sel) <=? str_length (trim l) + 1) = false)
    by (apply Z.leb_gt; lia).
  rewrite Hbatch, !andb_false_r.
  assert (Hdel : ((character (active sel) =? str_length (trim l) + 5)
                  || (character (active sel) =? str_length (trim l) + 6)) = true).
  { destruct Hcol as [-> | ->]; rewrite Z.eqb_refl; [reflexivity | apply orb_true_r]. }
  rewrite Hdel.
  destruct (Z.gtb_spec (currentTime - lastClickTime st) CLICK_DEBOUNCE_TIME); [|lia].
  cbn [andb]. unfold bind at 1, set_lastClickTime at 1. unfold bind at 1, get at 1.
  cbn [functionRanges activeEditor with_lastClickTime].
  rewrite E4, Hfind, E5.
  destruct (find_range_on_line_some _ _ _ _ Hfind) as [_ Hr]. rewrite Hr.
  rewrite extractFunctionCode_fold by exact Hline.
  unfold bind at 1, lift at 1. unfold call.
  eexists _, _, _. split; [reflexivity|]. split; [reflexivity|]. split; reflexivity.
Qed.

Lemma single_click_dispatches_witness :
  exists st' log code,
    handleSelectionChange (fun _ => Ret None) 10000
      {| textEditor := editor_of two_functions; selections := [caret 0 20] |}
      (session_on (editor_of two_functions)) = (Ret tt, st') /\
    lastClickTime st' = 10000 /\
    extractFunctionCode (Some (editor_of two_functions)) (line (active (caret 0 20)))
      = Ret code /\
    calls st' = log ++ [call_handleTestGeneration
                          {| info_name := lit "a";
                             info_range := line_range 0 (lit "function a() {}");
                             info_code := code |}].
Proof.
  apply (single_click_dispatches (fun _ => Ret None) 10000
           {| textEditor := editor_of two_functions; selections := [caret 0 20] |}
           (session_on (editor_of two_functions)) (editor_of two_functions)
           (caret 0 20) [] (lit "function a() {}") (lit "a")
           (line_range 0 (lit "function a() {}")));
    try reflexivity; try discriminate; try (vm_compute; discriminate).
  left. reflexivity.
Defined.

(** * The source-file filter and the handlers of editor and document changes *)

Lemma includes_spec s p : includes s p = true <-> exists a b, s = a ++ p ++ b.
Proof.
  assert (Hhere : forall s, startsWith s p = true -> exists a b, s = a ++ p ++ b).
  { intros s0 E. apply startsWith_spec in E as [r E]. exists [], r. exact E. }
  assert (Hnot : forall s b, startsWith s p = false -> s <> p ++ b).
  { intros s0 b E H. enough (startsWith s0 p = true) by congruence.
    apply startsWith_spec. eauto. }
  unfold includes, indexOf. generalize 0%nat.
  induction s as [|c s IH]; intros i; cbn [indexOf_from].
  - destruct (startsWith [] p) eqn:E.
    + split; [intros _; apply Hhere; exact E | reflexivity].
    + split; [discriminate|]. intros (a & b & H). destruct a; [|discriminate].
      exfalso. exact (Hnot _ _ E H).
  - destruct (startsWith (c :: s) p) eqn:E.
    + split; [intros _; apply Hhere; exact E | reflexivity].
    + rewrite IH. split.
      * intros (a & b & ->). exists (c :: a), b. reflexivity.
      * intros (a & b & H). destruct a as [|c' a].
        -- exfalso. exact (Hnot _ _ E H).
        -- injection H as _ ->. eauto.
Qed.

(** X9.  A document is processed exactly when its language identifier is
    [javascript] or [typescript] and its file name (the whole path)
    contains neither [.test.] nor [.spec.] at any position. *)
Theorem isValidSourceFile_spec d :
  isValidSourceFile d = true <->
  (languageId d = lit "javascript" \/ languageId d = lit "typescript") /\
  (forall a b, fileName d <> a ++ lit ".test." ++ b) /\
  (forall a b, fileName d <> a ++ lit ".spec." ++ b).
Proof.
  unfold isValidSourceFile. cbv zeta.
  rewrite andb_true_iff, orb_true_iff, negb_true_iff, orb_false_iff, !jseqb_eq.
  assert (Hn : forall p, includes (fileName d) p = false <->
                         forall a b, fileName d <> a ++ p ++ b).
  { intros p. split.
    - intros H a b E. enough (includes (fileName d) p = true) by congruence.
      apply includes_spec. eauto.
    - intros H. destruct (includes (fileName d) p) eqn:E; [|reflexivity].
      apply includes_spec in E as (a & b & E). exfalso. exact (H a b E). }
  rewrite !Hn. reflexivity.
Qed.

Lemma trimStart_split t : exists w, spaces w /\ t = w ++ trimStart t.
Proof.
  induction t as [|c t (w & Hw & IH)]; cbn [trimStart].
  - exists []. split; [constructor | reflexivity].
  - destruct (is_space c) eqn:E.
    + exists (c :: w). split; [constructor; assumption|]. cbn [app]. congruence.
    + exists []. split; [constructor | reflexivity].
Qed.

(** The pattern of [handleDocumentChange] matches the texts that start,
    after any white space, with two slashes. *)
Lemma comment_insertion_spec t :
  exec pattern_comment_insertion t <> None <->
  startsWith (trimStart t) (lit "//") = true.
Proof.
  unfold pattern_comment_insertion. cbn [seq_of]. rewrite exec_anchored. split.
  - intros H.
    destruct (rmatch (RSeq (RStar CSpace) (RLit (lit "//"))) 0 t None
                (fun _ _ cap => Some {| index := 0; group1 := cap |})) eqn:E;
      [|congruence].
    apply rmatch_sound in E as (w & rest & cap' & -> & Hm & _).
    peel Hm ws Hws. apply matches_star_inv in Hws as [Hws _].
    apply matches_lit_inv in Hm as [-> _].
    rewrite <- app_assoc. rewrite trimStart_spaces_app by exact Hws.
    change (trimStart (lit "//" ++ rest)) with (lit "//" ++ rest).
    apply startsWith_spec. eauto.
  - intros H. apply startsWith_spec in H as [r Hr].
    destruct (trimStart_split t) as (w & Hw & Ht). rewrite Ht, Hr.
    replace (w ++ lit "//" ++ r) with ((w ++ lit "//") ++ r)
      by (rewrite <- app_assoc; reflexivity).
    apply rmatch_complete with (cap' := None); [|discriminate].
    eapply matches_seq; [apply spaces_star_matches; exact Hw | apply matches_lit].
Qed.

(** X10.  A batch of document changes counts as significant, and so
    refreshes the decorations, exactly when the text of one of its changes
    does not start, after leading white space, with two slashes.  A
    deletion (empty text) is such a change; an empty batch has none. *)
Theorem significantChange_spec contentChanges :
  significantChange contentChanges = true <->
  exists t, In t contentChanges /\ startsWith (trimStart t) (lit "//") = false.
Proof.
  unfold significantChange. rewrite existsb_exists.
  split; intros (t & Hin & H); exists t; (split; [exact Hin|]).
  - destruct (exec pattern_comment_insertion t) eqn:E; [discriminate|].
    destruct (startsWith (trimStart t) (lit "//")) eqn:S; [|reflexivity].
    apply comment_insertion_spec in S. congruence.
  - destruct (exec pattern_comment_insertion t) eqn:E; [|reflexivity].
    assert (S : startsWith (trimStart t) (lit "//") = true)
      by (apply comment_insertion_spec; congruence).
    congruence.
Qed.

(** X11.  When the editor switches to a file that is not processed (a test
    file, or not JavaScript or TypeScript), the function map of the
    previous file is kept as it is: the test decorations are cleared, the
    batch button is hidden, and then it is shown again if that stale map
    holds at least two functions. *)
Theorem editor_change_to_excluded_file escomplex ed st :
  isValidSourceFile (document ed) = false ->
  exists st',
    handleEditorChange escomplex (Some ed) st = (Ret tt, st') /\
    activeEditor st' = Some ed /\
    functionRanges st' = functionRanges st /\
    complexityRanges st' = complexityRanges st /\
    calls st' = calls st ++
      [setDecorations decorationType []; statusBar_hide;
       if JSMap.size (functionRanges st) >=? 2 then statusBar_show else statusBar_hide].
Proof.
  intros Hv. unfold handleEditorChange, set_activeEditor, updateDecorations,
    updateBatchButton, bind, get, call, ret.
  cbn [activeEditor with_activeEditor with_call]. rewrite Hv. cbn [negb].
  cbn [activeEditor functionRanges with_activeEditor with_call]. rewrite Hv. cbn [negb].
  cbn [activeEditor functionRanges with_activeEditor with_call].
  destruct (JSMap.size (functionRanges st) >=? 2); eexists;
    (split; [reflexivity|]);
    cbn [activeEditor functionRanges complexityRanges calls with_activeEditor with_call];
    rewrite <- !app_assoc; auto.
Qed.

Lemma editor_change_to_excluded_file_witness :
  let ed := editor_of {| languageId := lit "javascript"; fileName := lit "a.test.js";
                         doc_lines := [lit "function c() {}"]; eol := newline |} in
  let st := after_detect two_functions (session_on (editor_of two_functions)) in
  exists st',
    handleEditorChange (fun _ => Ret None) (Some ed) st = (Ret tt, st') /\
    activeEditor st' = Some ed /\
    functionRanges st' = functionRanges st /\
    complexityRanges st' = complexityRanges st /\
    calls st' = calls st ++
      [setDecorations decorationType []; statusBar_hide;
       if JSMap.size (functionRanges st) >=? 2 then statusBar_show else statusBar_hide].
Proof.
  intros ed st.
  apply (editor_change_to_excluded_file (fun _ => Ret None) ed st).
  vm_compute. reflexivity.
Defined.

(** X12.  When the editor switches to a processed source file, the handler
    returns normally whatever the metrics engine does, the function map is
    exactly the functions detected in the new document, no test generation
    is started, and the last thing done is to show the batch button when
    that document has at least two detected functions and to hide it
    otherwise. *)
Theorem editor_change_to_source_file escomplex ed st :
  isValidSourceFile (document ed) = true ->
  exists st' log,
    handleEditorChange escomplex (Some ed) st = (Ret tt, st') /\
    activeEditor st' = Some ed /\
    functionRanges st' = detected (document ed) /\
    forallb (fun c => negb (is_dispatch c)) log = true /\
    calls st' = calls st ++ log ++
      [if JSMap.size (detected (document ed)) >=? 2
       then statusBar_show else statusBar_hide].
Proof.
  intros Hv. unfold handleEditorChange. unfold bind at 1, set_activeEditor at 1.
  destruct (updateDecorations_spec escomplex (with_activeEditor (Some ed) st) ed eq_refl)
    as (st1 & E & Ha & Hf & _).
  pose proof (background_updateDecorations escomplex (with_activeEditor (Some ed) st))
    as ((log & Hc & Hlog) & _).
  rewrite E in Hc. cbn [snd calls with_activeEditor] in Hc.
  unfold functions_in_view in Hf. rewrite Hv in Hf.
  unfold bind at 1. rewrite E.
  unfold updateBatchButton, bind, get, call, ret. rewrite Ha, Hv. cbn [negb].
  rewrite Hf.
  destruct (JSMap.size (detected (document ed)) >=? 2);
    (eexists; exists log; split; [reflexivity|]);
    cbn [activeEditor functionRanges calls with_call];
    rewrite Hc, <- app_assoc; auto.
Qed.

Lemma editor_change_to_source_file_witness :
  exists st' log,
    handleEditorChange (fun _ => Throw "engine") (Some (editor_of two_functions))
      initial_state = (Ret tt, st') /\
    activeEditor st' = Some (editor_of two_functions) /\
    functionRanges st' = detected two_functions /\
    forallb (fun c => negb (is_dispatch c)) log = true /\
    calls st' = calls initial_state ++ log ++
      [if JSMap.size (detected two_functions) >=? 2
       then statusBar_show else statusBar_hide].
Proof.
  apply (editor_change_to_source_file (fun _ => Throw "engine")
           (editor_of two_functions) initial_state).
  vm_compute. reflexivity.
Defined.

(** * The keys of [complexityRanges] *)

Lemma lineAt_ret_inside d n tl : lineAt d n = Ret tl -> 0 <= n < lineCount d.
Proof.
  unfold lineAt.
  destruct (Z.ltb_spec n 0); destruct (Z.leb_spec (lineCount d) n); cbn [orb];
    try discriminate.
  intros _. lia.
Qed.

Lemma new_Range_ret sl sc el ec r : new_Range sl sc el ec = Ret r -> 0 <= sl /\ 0 <= el.
Proof.
  unfold new_Range, new_Position.
  destruct (Z.ltb_spec sl 0); [discriminate|].
  destruct (sc <? 0); [discriminate|].
  destruct (Z.ltb_spec el 0); [discriminate|].
  intros _. lia.
Qed.

Lemma new_Range_total sl sc el ec :
  0 <= sl -> 0 <= sc -> 0 <= el -> 0 <= ec -> exists r, new_Range sl sc el ec = Ret r.
Proof.
  intros. unfold new_Range. rewrite !new_Position_ok by assumption.
  match goal with |- context [isBefore ?a ?b] => destruct (isBefore a b) end; eauto.
Qed.

Lemma jsmap_get_set_iff {V} k (v : V) m n :
  JSMap.get n (JSMap.set k v m) <> None <-> n = k \/ JSMap.get n m <> None.
Proof.
  destruct (decide (k = n)) as [->|Hne].
  - rewrite jsmap_get_set_eq. split; [left; reflexivity | discriminate].
  - rewrite jsmap_get_set_ne by exact Hne.
    split; [right; assumption | intros [->|H]; [contradiction | exact H]].
Qed.

Lemma recordable_skip d m rest (A : Prop) n :
  (forall metric, m = Some metric -> recordable d metric -> False) ->
  (A \/ (exists metric, In (Some metric) rest /\ name metric = n /\ recordable d metric)) <->
  (A \/ (exists metric, In (Some metric) (m :: rest) /\ name metric = n /\
                        recordable d metric)).
Proof.
  intros Hhead. split; (intros [H|(mt & Hin & Hn & Hr)]; [left; exact H|]); right.
  - exists mt. split; [right; exact Hin | auto].
  - destruct Hin as [->|Hin]; [exfalso; exact (Hhead mt eq_refl Hr)|].
    exists mt. auto.
Qed.

(** The loop of the projector never throws, and the names it leaves in
    [complexityRanges] are those that were there and those of the
    recordable metrics. *)
Lemma highlight_loop_keys d ms : forall cds rds st,
  exists cds' rds' st',
    highlight_loop d ms cds rds st = (Ret (cds', rds'), st') /\
    forall n,
      JSMap.get n (complexityRanges st') <> None <->
      JSMap.get n (complexityRanges st) <> None \/
      exists metric, In (Some metric) ms /\ name metric = n /\ recordable d metric.
Proof.
  induction ms as [|m rest IH]; intros cds rds st.
  - exists cds, rds, st. split; [reflexivity|]. intros n. split; [auto|].
    intros [H|(mt & [] & _)]. exact H.
  - assert (Hskip : forall c cds0,
      (forall metric, m = Some metric -> recordable d metric -> False) ->
      exists cds' rds' st',
        (call c ;;; highlight_loop d rest cds0 rds) st = (Ret (cds', rds'), st') /\
        forall n,
          JSMap.get n (complexityRanges st') <> None <->
          JSMap.get n (complexityRanges st) <> None \/
          exists metric, In (Some metric) (m :: rest) /\ name metric = n /\
                         recordable d metric).
    { intros c cds0 Hhead.
      destruct (IH cds0 rds (with_call c st)) as (cds' & rds' & st' & E & Hk).
      exists cds', rds', st'. unfold bind, call. rewrite E. split; [reflexivity|].
      intros n. rewrite Hk. cbn [complexityRanges with_call].
      apply recordable_skip. exact Hhead. }
    cbn [highlight_loop].
    destruct (valid_metric m) as [[[metric s] e]|] eqn:Hv.
    2:{ apply Hskip. intros mt -> (_ & s & e & Hl & _).
        unfold valid_metric in Hv. rewrite Hl in Hv. discriminate. }
    apply valid_metric_some in Hv as [-> Hl].
    assert (Hspan : forall mt, Some metric = Some mt -> recordable d mt ->
                      1 <= s /\ 1 <= e <= lineCount d).
    { intros mt [= <-] (_ & s' & e' & Hl' & Hs & He).
      rewrite Hl in Hl'. injection Hl' as <- <-. auto. }
    destruct (lineAt d (e - 1)) as [tl|msg] eqn:Hline.
    2:{ apply Hskip. intros mt Hm Hr. destruct (Hspan mt Hm Hr) as [_ He].
        destruct (lineAt_inside d (e - 1)) as [t Ht]; [lia|]. congruence. }
    destruct (new_Range (s - 1) 0 (e - 1) (str_length (trim (text tl)))) as [r|msg]
      eqn:Hrange.
    2:{ apply Hskip. intros mt Hm Hr. destruct (Hspan mt Hm Hr) as [Hs He].
        pose proof (str_length_nonneg (trim (text tl))).
        destruct (new_Range_total (s - 1) 0 (e - 1) (str_length (trim (text tl))))
          as [r Hr']; [lia..|]. congruence. }
    destruct (complexity metric >? 9) eqn:Hc.
    + destruct (new_Range (s - 1) 0 (s - 1) 0) as [rr|msg] eqn:Hrr.
      2:{ apply Hskip. intros mt Hm Hr. destruct (Hspan mt Hm Hr) as [Hs He].
          destruct (new_Range_total (s - 1) 0 (s - 1) 0) as [r' Hr']; [lia..|].
          congruence. }
      unfold bind at 1, get at 1. unfold bind at 1, set_complexityRanges at 1.
      match goal with |- context [highlight_loop d rest ?c ?r0 ?s0] =>
        destruct (IH c r0 s0) as (cds' & rds' & st' & E & Hk) end.
      exists cds', rds', st'. split; [exact E|].
      intros n. rewrite Hk. cbn [complexityRanges with_complexityRanges].
      rewrite jsmap_get_set_iff.
      assert (Hhead : recordable d metric).
      { split; [apply Z.gtb_lt in Hc; lia|]. exists s, e. split; [exact Hl|].
        apply lineAt_ret_inside in Hline. apply new_Range_ret in Hrange. lia. }
      split.
      * intros [[->|H]|(mt & Hin & Hn & Hr)].
        -- right. exists metric. split; [left; reflexivity | auto].
        -- left. exact H.
        -- right. exists mt. split; [right; exact Hin | auto].
      * intros [H|(mt & [[= <-]|Hin] & Hn & Hr)].
        -- left. right. exact H.
        -- left. left. symmetry. exact Hn.
        -- right. exists mt. auto.
    + match goal with |- context [highlight_loop d rest ?c ?r0 ?s0] =>
        destruct (IH c r0 s0) as (cds' & rds' & st' & E & Hk) end.
      exists cds', rds', st'. split; [exact E|].
      intros n. rewrite Hk. apply recordable_skip.
      intros mt [= <-] (H9 & _). rewrite Z.gtb_ltb in Hc. apply Z.ltb_ge in Hc. lia.
Qed.

(** X13.  On a document of at least 10 lines, a pass of the projector over
    a non-empty list of metrics replaces [complexityRanges]: afterwards a
    name has a range exactly when it is the name of a metric of this pass
    whose complexity exceeds 9 and whose lines lie in the document.
    Ranges of earlier passes are gone, and a metric with an unusable span
    is left out without stopping the others. *)
Theorem highlight_replaces_ranges st ed m ms :
  activeEditor st = Some ed -> 10 <= lineCount (document ed) ->
  exists st',
    highlightComplexFunctions (Some (m :: ms)) st = (Ret tt, st') /\
    forall n,
      JSMap.get n (complexityRanges st') <> None <->
      exists metric, In (Some metric) (m :: ms) /\ name metric = n /\
                     recordable (document ed) metric.
Proof.
  intros He Hl. rewrite (highlightComplexFunctions_loop st ed m ms He Hl).
  unfold bind at 1, set_complexityRanges at 1. unfold bind at 1.
  destruct (highlight_loop_keys (document ed) (m :: ms) [] []
              (with_complexityRanges JSMap.empty st))
    as (cds & rds & st' & E & Hk).
  rewrite E. unfold bind, call. eexists. split; [reflexivity|].
  intros n. cbn [complexityRanges with_call]. rewrite Hk.
  cbn [complexityRanges with_complexityRanges JSMap.get JSMap.empty].
  split; [intros [H|H]; [congruence | exact H] | auto].
Qed.

Lemma highlight_replaces_ranges_witness :
  exists st',
    highlightComplexFunctions (Some [Some scenario_metric])
      (session_on (editor_of (js_document (List.repeat (lit "x();") 12)))) = (Ret tt, st') /\
    forall n,
      JSMap.get n (complexityRanges st') <> None <->
      exists metric, In (Some metric) [Some scenario_metric] /\ name metric = n /\
                     recordable (document (editor_of (js_document
                                                        (List.repeat (lit "x();") 12))))
                                metric.
Proof.
  apply (highlight_replaces_ranges
           (session_on (editor_of (js_document (List.repeat (lit "x();") 12))))
           (editor_of (js_document (List.repeat (lit "x();") 12)))
           (Some scenario_metric) []);
    [reflexivity | vm_compute; discriminate].
Defined.

(** X14.  [analyzeComplexity] never throws.  It returns metrics only when
    there is a document with text for which the engine returned a list of
    methods: then nothing is shown or logged, there is one metric per
    method, in order, and each of them passes the guard of the highlight
    loop.  In every other case it returns [null] after at least one
    message was shown or logged. *)
Theorem analyzeComplexity_outcome escomplex doc st :
  exists r st',
    analyzeComplexity escomplex doc st = (Ret r, st') /\
    match r with
    | Some ms =>
        st' = st /\
        (exists d methods,
           doc = Some d /\ getText d <> [] /\
           escomplex (getText d) = Ret (Some {| methods := Some methods |}) /\
           ms = List.map (fun data => Some (metric_of_method data)) methods) /\
        Forall (fun m => valid_metric m <> None) ms
    | None => exists c log, calls st' = calls st ++ c :: log
    end.
Proof.
  unfold analyzeComplexity. destruct doc as [d|].
  - destruct (getText d) as [|c t] eqn:Ht.
    + eexists _, _. split; [reflexivity|]. eexists _, []. reflexivity.
    + destruct (escomplex (c :: t)) as [[[[ms|]]|]|e] eqn:Ee.
      * eexists _, _. split; [reflexivity|]. split; [reflexivity|]. split.
        -- exists d, ms. rewrite Ht. repeat split; [discriminate | exact Ee].
        -- apply List.Forall_forall. intros m Hin. apply in_map_iff in Hin as (data & <- & _).
           discriminate.
      * eexists _, _. split; [reflexivity|]. eexists _, [_].
        unfold bind, call, ret. cbn [calls with_call]. rewrite <- app_assoc. reflexivity.
      * eexists _, _. split; [reflexivity|]. eexists _, [_].
        unfold bind, call, ret. cbn [calls with_call]. rewrite <- app_assoc. reflexivity.
      * eexists _, _. split; [reflexivity|]. eexists _, []. reflexivity.
  - eexists _, _. split; [reflexivity|]. eexists _, []. reflexivity.
Qed.

(** X15.  The selection handler returns normally, whatever the metrics
    engine does and whatever the state of the session, as long as the
    caret of the first selection is on a line of the active document. *)
Theorem handleSelectionChange_returns escomplex currentTime event st :
  (forall ed sel more,
     activeEditor st = Some ed -> selections event = sel :: more ->
     0 <= line (active sel) < lineCount (document ed)) ->
  fst (handleSelectionChange escomplex currentTime event st) = Ret tt.
Proof.
  intros Hin. unfold handleSelectionChange. unfold bind at 1, get at 1.
  destruct (activeEditor st) as [ed|] eqn:He; [|reflexivity].
  destruct (negb (same_editor (textEditor event) ed)); [reflexivity|].
  destruct (selections event) as [|sel more] eqn:Hsel; [reflexivity|].
  destruct (negb (isEmpty sel)); [reflexivity|].
  specialize (Hin ed sel more eq_refl eq_refl).
  unfold bind at 1.
  destruct (updateDecorations_spec escomplex st ed He)
    as (st1 & -> & Ha1 & Hf1 & He1 & Hc1 & Ht1).
  unfold bind at 1.
  destruct (updateBatchButton_total st1) as (st2 & -> & (Ha2 & Hf2 & He2 & Hc2 & Ht2)).
  unfold bind at 1.
  destruct (analysis_block_total escomplex (document ed) (ret tt) st2)
    as (st3 & -> & (Ha3 & Hf3 & He3 & Hc3 & Ht3)).
  { eexists. split; [reflexivity | apply same_session_refl]. }
  unfold bind at 1, lift at 1.
  destruct (lineAt_inside (document ed) (line (active sel)) Hin) as [t ->].
  cbn [text lineNumber].
  destruct (trim t) as [|c0 t0]; [reflexivity|].
  unfold bind at 1, get at 1.
  destruct (isEditingFunction st3 || (currentTime - lastTypingTime st3 <? TYPING_COOLDOWN));
    [reflexivity|].
  match goal with |- context [if ?b then set_lastClickTime _ ;;; call _ else _] =>
    destruct b end; [reflexivity|].
  match goal with |- context [if ?b then _ else ret tt] => destruct b end; [|reflexivity].
  unfold bind at 1, set_lastClickTime at 1. unfold bind at 1, get at 1.
  cbn [functionRanges activeEditor with_lastClickTime].
  destruct (find_range_on_line (JSMap.entries (functionRanges st3)) (line (active sel)))
    as [[n r]|] eqn:Hfind; [|reflexivity].
  destruct (find_range_on_line_some _ _ _ _ Hfind) as [_ Hr].
  assert (E5 : activeEditor st3 = Some ed) by congruence.
  rewrite E5, Hr, extractFunctionCode_fold by lia. reflexivity.
Qed.

Lemma handleSelectionChange_returns_witness :
  fst (handleSelectionChange (fun _ => Throw "engine") 10000
         {| textEditor := editor_of two_functions; selections := [caret 0 20] |}
         (session_on (editor_of two_functions))) = Ret tt.
Proof.
  apply (handleSelectionChange_returns (fun _ => Throw "engine") 10000
           {| textEditor := editor_of two_functions; selections := [caret 0 20] |}
           (session_on (editor_of two_functions))).
  intros ed sel more H1 H2. injection H1 as <-. injection H2 as <- <-.
  vm_compute. split; [discriminate | reflexivity].
Defined.

(** * The test decorations *)

Lemma map_outcome_map {A B} (f : A -> Outcome B) (g : A -> B) l :
  (forall a, In a l -> f a = Ret (g a)) -> map_outcome f l = Ret (List.map g l).
Proof.
  induction l as [|a l IH]; intros H; cbn [map_outcome List.map]; [reflexivity|].
  rewrite (H a (or_introl eq_refl)), IH; [reflexivity|].
  intros a' Ha'. apply H. right. exact Ha'.
Qed.

(** X16.  Right after a detection pass [createDecorations] returns one
    test decoration per detected function, in the order of the map; each
    one is labelled with the name of a declaration found on a line of the
    document and spans columns 4 to 5 past the trimmed end of that line,
    next to the columns (5 and 6 past it) the selection handler takes for
    a click on it. *)
Theorem test_decorations_follow_detection d st :
  exists ds st',
    (detectFunctions d ;;; createDecorations) st = (Ret ds, st') /\
    List.map label ds =
      List.map (fun e => TestLabel (fst e)) (JSMap.entries (detected d)) /\
    forall dec, In dec ds ->
      exists j t n,
        nth_error (doc_lines d) j = Some t /\
        findFunctionDefinition t = Some n /\
        label dec = TestLabel n /\
        range dec =
          {| range_start := {| line := Z.of_nat j;
                               character := str_length (trim t) + 4 |};
             range_end := {| line := Z.of_nat j;
                             character := str_length (trim t) + 5 |} |}.
Proof.
  set (g := fun e : jsstring * Range =>
              {| range := {| range_start :=
                               {| line := line (range_end (snd e));
                                  character := character (range_end (snd e)) + 4 |};
                             range_end :=
                               {| line := line (range_end (snd e));
                                  character := character (range_end (snd e)) + 5 |} |};
                 label := TestLabel (fst e) |}).
  exists (List.map g (JSMap.entries (detected d))), (after_detect d st).
  split; [|split].
  - unfold bind at 1. rewrite detectFunctions_spec.
    unfold createDecorations, bind, get, lift. rewrite functionRanges_after_detect.
    rewrite (map_outcome_map _ g); [reflexivity|].
    intros [n r] Hin. apply detected_entries in Hin as (j & t & _ & -> & _).
    unfold g. cbn [fst snd line_range range_end line character]. unfold new_Range.
    pose proof (str_length_nonneg (trim t)).
    rewrite !new_Position_ok by lia. unfold isBefore. cbn [line character].
    rewrite Z.ltb_irrefl, Z.eqb_refl.
    destruct (Z.ltb_spec (str_length (trim t) + 4) (str_length (trim t) + 5)); [|lia].
    reflexivity.
  - rewrite List.map_map. reflexivity.
  - intros dec Hin. apply in_map_iff in Hin as ([n r] & <- & Hin).
    apply detected_entries in Hin as (j & t & Hj & -> & _ & Hf).
    exists j, t, n. auto.
Qed.

(** * The code block of an API response *)

Lemma lazy_until_sound closing inp g :
  lazy_until closing inp = Some g -> exists post, inp = g ++ closing ++ post.
Proof.
  revert g. induction inp as [|c t IH]; intros g; cbn [lazy_until].
  - destruct (startsWith [] closing) eqn:E; [|discriminate].
    intros [= <-]. apply startsWith_spec in E. exact E.
  - destruct (startsWith (c :: t) closing) eqn:E.
    + intros [= <-]. apply startsWith_spec in E. exact E.
    + destruct (lazy_until closing t) as [g'|]; [|discriminate].
      intros [= <-]. destruct (IH g' eq_refl) as [post ->]. exists post. reflexivity.
Qed.

Lemma lazy_until_complete closing b post : lazy_until closing (b ++ closing ++ post) <> None.
Proof.
  induction b as [|c b IH]; cbn [app].
  - assert (E : startsWith (closing ++ post) closing = true)
      by (apply startsWith_spec; eauto).
    destruct (closing ++ post); cbn [lazy_until]; rewrite E; discriminate.
  - cbn [lazy_until]. destruct (startsWith (c :: b ++ closing ++ post) closing);
      [discriminate|].
    destruct (lazy_until closing (b ++ closing ++ post)); [discriminate | exact IH].
Qed.

Lemma match_fenced_sound text g :
  match_fenced text = Some g ->
  exists a c, text = a ++ fence_open ++ g ++ fence_close ++ c.
Proof.
  assert (Hhere : forall text,
            match strip_prefix fence_open text with
            | Some rest => lazy_until fence_close rest
            | None => None
            end = Some g ->
            exists a c, text = a ++ fence_open ++ g ++ fence_close ++ c).
  { intros text0. destruct (strip_prefix fence_open text0) as [rest|] eqn:E; [|discriminate].
    apply strip_prefix_spec in E as ->. intros H.
    apply lazy_until_sound in H as [post ->]. exists [], post. reflexivity. }
  induction text as [|x t IH]; cbn [match_fenced].
  - intros H. apply Hhere.
    destruct (match strip_prefix fence_open [] with
              | Some rest => lazy_until fence_close rest
              | None => None
              end); [exact H | discriminate].
  - destruct (match strip_prefix fence_open (x :: t) with
              | Some rest => lazy_until fence_close rest
              | None => None
              end) as [g'|] eqn:E.
    + intros [= ->]. apply Hhere. exact E.
    + intros H. apply IH in H as (a & c & ->). exists (x :: a), c. reflexivity.
Qed.

Lemma match_fenced_complete a b c :
  match_fenced (a ++ fence_open ++ b ++ fence_close ++ c) <> None.
Proof.
  induction a as [|x a IH]; cbn [app].
  - pose proof (lazy_until_complete fence_close b c) as H.
    remember (fence_open ++ b ++ fence_close ++ c) as text eqn:Et.
    assert (E : strip_prefix fence_open text = Some (b ++ fence_close ++ c))
      by (subst text; apply strip_prefix_app).
    destruct text; cbn [match_fenced]; rewrite E;
      destruct (lazy_until fence_close (b ++ fence_close ++ c));
      [discriminate | contradiction | discriminate | contradiction].
  - cbn [match_fenced].
    destruct (match strip_prefix fence_open (x :: a ++ fence_open ++ b ++ fence_close ++ c)
              with
              | Some rest => lazy_until fence_close rest
              | None => None
              end); [discriminate | exact IH].
Qed.

Lemma lazy_until_no_backtick code post :
  Forall (fun c => c <> 96%N) code ->
  lazy_until fence_close (code ++ fence_close ++ post) = Some code.
Proof.
  induction 1 as [|c code Hc _ IH]; cbn [app].
  - assert (E : startsWith (fence_close ++ post) fence_close = true)
      by (apply startsWith_spec; eauto).
    destruct (fence_close ++ post); cbn [lazy_until]; rewrite E; reflexivity.
  - cbn [lazy_until]. rewrite IH.
    change (startsWith (c :: code ++ fence_close ++ post) fence_close)
      with ((96 =? c)%N && startsWith (code ++ fence_close ++ post) (lit "``")).
    destruct (N.eqb_spec 96 c) as [E|_]; [congruence | reflexivity].
Qed.

Lemma match_fenced_no_backtick pre code post :
  Forall (fun c => c <> 96%N) pre -> Forall (fun c => c <> 96%N) code ->
  match_fenced (pre ++ fence_open ++ code ++ fence_close ++ post) = Some code.
Proof.
  intros Hpre Hcode. induction Hpre as [|x pre Hx _ IH]; cbn [app].
  - remember (fence_open ++ code ++ fence_close ++ post) as text eqn:Et.
    assert (E : strip_prefix fence_open text = Some (code ++ fence_close ++ post))
      by (subst text; apply strip_prefix_app).
    destruct text; cbn [match_fenced]; rewrite E, lazy_until_no_backtick by exact Hcode;
      reflexivity.
  - cbn [match_fenced].
    change (strip_prefix fence_open (x :: pre ++ fence_open ++ code ++ fence_close ++ post))
      with (if (96 =? x)%N
            then strip_prefix (lit "``javascript" ++ newline)
                   (pre ++ fence_open ++ code ++ fence_close ++ post)
            else None).
    destruct (N.eqb_spec 96 x) as [E|_]; [congruence | exact IH].
Qed.

(** X18.  From a response that holds a fenced javascript block, with no
    backtick before the fence or inside the block, both extractors return
    the code of the block with the white space around it trimmed,
    whatever follows the closing fence. *)
Theorem extract_fenced_code pre code post :
  Forall (fun c => c <> 96%N) pre -> Forall (fun c => c <> 96%N) code ->
  extractTestCode (pre ++ fence_open ++ code ++ fence_close ++ post) = trim code /\
  extractRefactoredCode (pre ++ fence_open ++ code ++ fence_close ++ post) = trim code.
Proof.
  intros Hpre Hcode. unfold extractTestCode, extractRefactoredCode.
  rewrite (match_fenced_no_backtick pre code post Hpre Hcode). auto.
Qed.

Lemma extract_fenced_code_witness :
  extractTestCode (lit "Here: " ++ fence_open ++ lit " test(1); " ++ fence_close
                   ++ lit " and ```more```") = trim (lit " test(1); ") /\
  extractRefactoredCode (lit "Here: " ++ fence_open ++ lit " test(1); " ++ fence_close
                         ++ lit " and ```more```") = trim (lit " test(1); ").
Proof.
  apply (extract_fenced_code (lit "Here: ") (lit " test(1); ") (lit " and ```more```"));
    vm_compute; repeat (apply List.Forall_cons; [discriminate|]); apply List.Forall_nil.
Defined.

(** X19.  A response with no closed javascript fence (none at all, or one
    that is opened and never closed) comes back whole: [extractTestCode]
    returns it unchanged, opening fence and surrounding white space
    included, and [extractRefactoredCode] returns it trimmed. *)
Theorem extract_unfenced_response response :
  (forall a b c, response <> a ++ fence_open ++ b ++ fence_close ++ c) ->
  extractTestCode response = response /\
  extractRefactoredCode response = trim response.
Proof.
  intros H. unfold extractTestCode, extractRefactoredCode.
  destruct (match_fenced response) as [g|] eqn:E; [|auto].
  apply match_fenced_sound in E as (a & c & E). exfalso. exact (H a g c E).
Qed.

Lemma extract_unfenced_response_witness :
  extractTestCode (fence_open ++ lit "test(1); ") = fence_open ++ lit "test(1); " /\
  extractRefactoredCode (fence_open ++ lit "test(1); ") = trim (fence_open ++ lit "test(1); ").
Proof.
  apply (extract_unfenced_response (fence_open ++ lit "test(1); ")).
  intros a b c E.
  apply (match_fenced_complete a b c). rewrite <- E. vm_compute. reflexivity.
Defined.

(** * Statements taken for methods *)

(** X20.  [findFunctionDefinition] knows no reserved word: a line that
    starts with a word followed by a parenthesised text and an opening
    brace is taken for a method of that name, whatever the word, so that a
    statement [if (...) {], [for (...) {], [while (...) {] or
    [switch (...) {] at the start of a line is reported as a function, and
    [detectFunctions] records a range under that name. *)
Theorem control_statement_detected n w1 args w2 rest d st i :
  word1 n -> spaces w1 -> no_rparen args -> spaces w2 ->
  nth_error (doc_lines d) i =
    Some (n ++ w1 ++ lit "(" ++ args ++ lit ")" ++ w2 ++ lit "{" ++ rest) ->
  findFunctionDefinition (n ++ w1 ++ lit "(" ++ args ++ lit ")" ++ w2 ++ lit "{" ++ rest)
    = Some n /\
  JSMap.get n (functionRanges (snd (detectFunctions d st))) <> None.
Proof.
  intros Hn Hw1 Hargs Hw2 Hi.
  assert (Hd : declaration MethodShorthand n
                 (n ++ w1 ++ lit "(" ++ args ++ lit ")" ++ w2 ++ lit "{" ++ rest)).
  { exists [], [], w1, args, w2, rest. repeat split; try assumption; try (left; reflexivity).
    - destruct Hn as [Hn _]. exact Hn.
    - destruct Hn as [_ Hn]. exact Hn. }
  assert (Hf : findFunctionDefinition
                 (n ++ w1 ++ lit "(" ++ args ++ lit ")" ++ w2 ++ lit "{" ++ rest) = Some n).
  { apply findFunctionDefinition_spec. exists MethodShorthand. exact Hd. }
  split; [exact Hf|].
  rewrite detectFunctions_spec. cbn [snd]. rewrite functionRanges_after_detect.
  exact (detect_fold_records (doc_lines d) 0 JSMap.empty [] i _ n Hi
           (starts_word_not_skipped _ (declaration_starts_word _ _ _ Hd)) Hf).
Qed.

Lemma control_statement_detected_witness :
  findFunctionDefinition (lit "if" ++ [32%N] ++ lit "(" ++ lit "x > 0" ++ lit ")" ++
                          [32%N] ++ lit "{" ++ []) = Some (lit "if") /\
  JSMap.get (lit "if")
    (functionRanges (snd (detectFunctions (js_document [lit "if (x > 0) {"; lit "}"])
                            initial_state))) <> None.
Proof.
  apply (control_statement_detected (lit "if") [32%N] (lit "x > 0") [32%N] []
           (js_document [lit "if (x > 0) {"; lit "}"]) initial_state 0).
  - split; [discriminate | apply Forall_forallb; reflexivity].
  - apply Forall_forallb. reflexivity.
  - vm_compute. repeat (apply List.Forall_cons; [reflexivity|]). apply List.Forall_nil.
  - apply Forall_forallb. reflexivity.
  - reflexivity.
Defined.

(** * The maintainability calculator *)

Local Open Scope R_scope.

Lemma ln_le x y : 0 < x -> x <= y -> ln x <= ln y.
Proof.
  intros Hx [Hlt | ->]; [|apply Rle_refl].
  apply Rlt_le, ln_increasing; assumption.
Qed.

Lemma Int_part_le x y : x <= y -> (Int_part x <= Int_part y)%Z.
Proof.
  intros H. destruct (base_Int_part x) as [Hx _]. destruct (base_Int_part y) as [_ Hy].
  assert (Hlt : IZR (Int_part x) < IZR (Int_part y + 1)) by (rewrite plus_IZR; lra).
  apply lt_IZR in Hlt. lia.
Qed.

Lemma toFixed2_le x y : x <= y -> toFixed2 x <= toFixed2 y.
Proof.
  intros H. unfold toFixed2.
  assert (Hi : (Int_part (x * 100 + / 2) <= Int_part (y * 100 + / 2))%Z)
    by (apply Int_part_le; lra).
  apply IZR_le in Hi. lra.
Qed.

(** A number with two decimals is its own rounding. *)
Lemma toFixed2_hundredths z : toFixed2 (IZR z / 100) = IZR z / 100.
Proof.
  unfold toFixed2. f_equal. f_equal. symmetry. apply Int_part_spec. lra.
Qed.

(** The index before rounding, as a function of the two logarithms. *)
Lemma index_antitone a a' c c' b b' :
  a <= a' -> c <= c' -> b <= b' ->
  Rmax 0 ((171 - 5.2 * a' - 0.23 * c' - 16.2 * b') * 100 / 171)
  <= Rmax 0 ((171 - 5.2 * a - 0.23 * c - 16.2 * b) * 100 / 171).
Proof. intros Ha Hc Hb. apply Rle_max_compat_l. lra. Qed.

Lemma epsilon_pos : 0 < epsilon.
Proof. unfold epsilon. lra. Qed.

(** C9.  With the other two arguments fixed, the index does not increase
    when the cyclomatic complexity grows, nor when the Halstead effort
    grows, over non-negative inputs. *)
Theorem calculateMaintainability_antitone :
  (forall effort sloc c1 c2,
     0 <= effort -> 0 <= sloc -> 0 <= c1 -> c1 <= c2 ->
     calculateMaintainability effort c2 sloc <= calculateMaintainability effort c1 sloc) /\
  (forall cyclo sloc e1 e2,
     0 <= cyclo -> 0 <= sloc -> 0 <= e1 -> e1 <= e2 ->
     calculateMaintainability e2 cyclo sloc <= calculateMaintainability e1 cyclo sloc).
Proof.
  pose proof epsilon_pos as He. split.
  - intros effort sloc c1 c2 _ _ _ Hc. unfold calculateMaintainability.
    apply toFixed2_le, index_antitone; [apply Rle_refl | exact Hc | apply Rle_refl].
  - intros cyclo sloc e1 e2 _ _ H1 H12. unfold calculateMaintainability.
    apply toFixed2_le, index_antitone; [|apply Rle_refl | apply Rle_refl].
    apply ln_le; lra.
Qed.

Lemma calculateMaintainability_antitone_witness :
  calculateMaintainability 500 12 20 <= calculateMaintainability 500 3 20 /\
  calculateMaintainability 500 12 20 <= calculateMaintainability 100 12 20.
Proof.
  split.
  - apply (proj1 calculateMaintainability_antitone 500 20 3 12); lra.
  - apply (proj2 calculateMaintainability_antitone 12 20 100 500); lra.
Defined.

(** ** Bounds on the logarithm of [epsilon] *)

Lemma fixed_scale_pos : 0 < IZR fixed_scale.
Proof. apply IZR_lt. reflexivity. Qed.

Lemma exp_double t : exp (2 * t) = exp t * exp t.
Proof. replace (2 * t) with (t + t) by lra. apply exp_plus. Qed.

Lemma square_down_exp n : forall z t,
  (0 <= z)%Z -> IZR z / IZR fixed_scale <= exp t ->
  IZR (square_down n z) / IZR fixed_scale <= exp (2 ^ n * t).
Proof.
  pose proof fixed_scale_pos as HS.
  induction n as [|n IH]; intros z t Hz H; cbn [square_down pow].
  - rewrite Rmult_1_l. exact H.
  - replace (2 * 2 ^ n * t) with (2 ^ n * (2 * t)) by ring.
    apply IH.
    + apply Z.div_pos; [nia | reflexivity].
    + rewrite exp_double.
      assert (Hd : (fixed_scale * (z * z / fixed_scale) <= z * z)%Z)
        by (apply Z.mul_div_le; reflexivity).
      apply IZR_le in Hd. rewrite !mult_IZR in Hd.
      assert (H0 : 0 <= IZR z / IZR fixed_scale).
      { apply Rmult_le_pos; [apply IZR_le; exact Hz | left; apply Rinv_0_lt_compat, HS]. }
      apply Rle_trans with (IZR z / IZR fixed_scale * (IZR z / IZR fixed_scale)).
      * apply Rmult_le_reg_r with (IZR fixed_scale); [exact HS|].
        apply Rmult_le_reg_r with (IZR fixed_scale); [exact HS|].
        field_simplify; [|lra|lra]. nra.
      * apply Rmult_le_compat; assumption.
Qed.

Lemma square_up_exp n : forall z t,
  (0 <= z)%Z -> exp t <= IZR z / IZR fixed_scale ->
  exp (2 ^ n * t) <= IZR (square_up n z) / IZR fixed_scale.
Proof.
  pose proof fixed_scale_pos as HS.
  induction n as [|n IH]; intros z t Hz H; cbn [square_up pow].
  - rewrite Rmult_1_l. exact H.
  - replace (2 * 2 ^ n * t) with (2 ^ n * (2 * t)) by ring.
    apply IH.
    + apply Z.div_pos; [unfold fixed_scale; nia | reflexivity].
    + rewrite exp_double.
      assert (Hd : (z * z <= fixed_scale * ((z * z + fixed_scale - 1) / fixed_scale))%Z).
      { pose proof (Z.mul_succ_div_gt (z * z + fixed_scale - 1) fixed_scale eq_refl).
        lia. }
      apply IZR_le in Hd. rewrite !mult_IZR in Hd.
      pose proof (exp_pos t) as Hp.
      apply Rle_trans with (IZR z / IZR fixed_scale * (IZR z / IZR fixed_scale)).
      * apply Rmult_le_compat; lra.
      * apply Rmult_le_reg_r with (IZR fixed_scale); [exact HS|].
        apply Rmult_le_reg_r with (IZR fixed_scale); [exact HS|].
        field_simplify; [|lra|lra]. nra.
Qed.

Lemma ln_100000_upper : ln 100000 <= 11.5130.
Proof.
  pose proof fixed_scale_pos as HS.
  assert (H0 : IZR 100000068622827529907 / IZR fixed_scale <= exp (11.5130 / 16777216)).
  { eapply Rle_trans; [|apply exp_ineq1_le].
    change fixed_scale with 100000000000000000000%Z. lra. }
  apply (square_down_exp 24) in H0; [|lia].
  replace (square_down 24 100000068622827529907) with 10000705872495421458677913%Z in H0
    by (vm_compute; reflexivity).
  replace (2 ^ 24 * (11.5130 / 16777216)) with 11.5130 in H0 by (simpl pow; lra).
  rewrite <- (ln_exp 11.5130). apply ln_le; [lra|].
  eapply Rle_trans; [|exact H0].
  change fixed_scale with 100000000000000000000%Z. lra.
Qed.

Lemma ln_100000_lower : 11.5129 <= ln 100000.
Proof.
  pose proof fixed_scale_pos as HS.
  assert (H0 : exp (11.5129 / 16777216) <= IZR 100000068622278573599 / IZR fixed_scale).
  { pose proof (exp_ineq1_le (- (11.5129 / 16777216))) as H.
    rewrite exp_Ropp in H.
    pose proof (exp_pos (11.5129 / 16777216)) as Hp.
    assert (Hinv : exp (11.5129 / 16777216) <= / (1 + - (11.5129 / 16777216))).
    { rewrite <- (Rinv_inv (exp (11.5129 / 16777216))).
      apply Rinv_le_contravar; [lra | exact H]. }
    eapply Rle_trans; [exact Hinv|].
    change fixed_scale with 100000000000000000000%Z.
    apply Rmult_le_reg_r with (1 + - (11.5129 / 16777216)); [lra|].
    rewrite Rinv_l by lra. lra. }
  apply (square_up_exp 24) in H0; [|lia].
  replace (square_up 24 100000068622278573599) with 9999784854676665082244081%Z in H0
    by (vm_compute; reflexivity).
  replace (2 ^ 24 * (11.5129 / 16777216)) with 11.5129 in H0 by (simpl pow; lra).
  rewrite <- (ln_exp 11.5129). apply ln_le; [apply exp_pos|].
  eapply Rle_trans; [exact H0|].
  change fixed_scale with 100000000000000000000%Z. lra.
Qed.

Lemma ln_epsilon : ln (0 + epsilon) = - ln 100000.
Proof.
  unfold epsilon. replace (0 + 1 / 100000) with (/ 100000) by lra.
  apply ln_Rinv. lra.
Qed.

(** The value at the origin: with [epsilon = 1e-5] both logarithms are
    about -11.51, and the index is 244.08. *)
Lemma calculateMaintainability_origin : calculateMaintainability 0 0 0 = 244.08.
Proof.
  unfold calculateMaintainability. cbv zeta. rewrite ln_epsilon.
  pose proof ln_100000_lower as Hl. pose proof ln_100000_upper as Hu.
  set (L := ln 100000) in *.
  rewrite Rmax_right by lra.
  unfold toFixed2.
  replace (Int_part ((171 - 5.2 * - L - 0.23 * 0 - 16.2 * - L) * 100 / 171 * 100 + / 2))
    with 24408%Z by (apply Int_part_spec; lra).
  lra.
Qed.

Lemma toFixed2_0 : toFixed2 0 = 0.
Proof. replace 0 with (IZR 0 / 100) at 2 by lra. rewrite <- (toFixed2_hundredths 0). f_equal. lra. Qed.

Lemma toFixed2_100 : toFixed2 100 = 100.
Proof.
  replace 100 with (IZR 10000 / 100) at 2 by lra.
  rewrite <- (toFixed2_hundredths 10000). f_equal. lra.
Qed.

Lemma ln_nonneg x : 1 <= x -> 0 <= ln x.
Proof. intros H. rewrite <- ln_1. apply ln_le; lra. Qed.

(** C1, as the code has it.  With [epsilon = 1e-5] the index at (0, 0, 0)
    is 244.08, not 100.  The result is never negative; over non-negative
    inputs it is at most that value at the origin; and it does not exceed
    100 once effort and sloc are both at least 1. *)
Theorem calculateMaintainability_range :
  calculateMaintainability 0 0 0 = 244.08 /\
  (forall effort cyclo sloc, 0 <= calculateMaintainability effort cyclo sloc) /\
  (forall effort cyclo sloc,
     0 <= effort -> 0 <= cyclo -> 0 <= sloc ->
     calculateMaintainability effort cyclo sloc <= 244.08) /\
  (forall effort cyclo sloc,
     1 <= effort -> 0 <= cyclo -> 1 <= sloc ->
     calculateMaintainability effort cyclo sloc <= 100).
Proof.
  pose proof epsilon_pos as He.
  split; [exact calculateMaintainability_origin|]. split; [|split].
  - intros effort cyclo sloc. unfold calculateMaintainability. cbv zeta.
    rewrite <- toFixed2_0 at 1. apply toFixed2_le, Rmax_l.
  - intros effort cyclo sloc H1 H2 H3. rewrite <- calculateMaintainability_origin.
    unfold calculateMaintainability. cbv zeta.
    apply toFixed2_le, index_antitone; [apply ln_le; lra | exact H2 | apply ln_le; lra].
  - intros effort cyclo sloc H1 H2 H3. unfold calculateMaintainability. cbv zeta.
    apply Rle_trans with (toFixed2 100); [|rewrite toFixed2_100; apply Rle_refl].
    apply toFixed2_le.
    pose proof (ln_nonneg (effort + epsilon) ltac:(lra)).
    pose proof (ln_nonneg (sloc + epsilon) ltac:(lra)).
    apply Rmax_lub; lra.
Qed.

Lemma calculateMaintainability_range_witness :
  calculateMaintainability 500 12 20 <= 100 /\ calculateMaintainability (/ 2) 0 0 <= 244.08.
Proof.
  split.
  - apply (proj2 (proj2 (proj2 calculateMaintainability_range)) 500 12 20); lra.
  - apply (proj1 (proj2 (proj2 calculateMaintainability_range)) (/ 2) 0 0); lra.
Defined.

(** C1, as stated, fails at the very input it names: the index at
    (0, 0, 0) is 244.08, which is neither within rounding of 100 nor at
    most 100. *)
Lemma calculateMaintainability_origin_not_100 :
  calculateMaintainability 0 0 0 = 244.08 /\
  ~ (Rabs (calculateMaintainability 0 0 0 - 100) <= / 200) /\
  ~ (calculateMaintainability 0 0 0 <= 100).
Proof.
  rewrite calculateMaintainability_origin. split; [reflexivity|]. split.
  - rewrite Rabs_right by lra. lra.
  - lra.
Qed.

(** The earlier copy of the calculator, with [+ 1] inside the logarithms,
    does have the value 100 at the origin and stays within 0 and 100. *)
Lemma calculateMaintainability_v1_range :
  calculateMaintainability_v1 0 0 0 = 100 /\
  forall effort cyclo sloc,
    0 <= effort -> 0 <= cyclo -> 0 <= sloc ->
    0 <= calculateMaintainability_v1 effort cyclo sloc <= 100.
Proof.
  split.
  - unfold calculateMaintainability_v1. cbv zeta.
    replace (0 + 1) with 1 by lra. rewrite ln_1.
    rewrite Rmax_right by lra.
    replace ((171 - 5.2 * 0 - 0.23 * 0 - 16.2 * 0) * 100 / 171) with 100 by lra.
    apply toFixed2_100.
  - intros effort cyclo sloc H1 H2 H3. unfold calculateMaintainability_v1. cbv zeta. split.
    + rewrite <- toFixed2_0 at 1. apply toFixed2_le, Rmax_l.
    + apply Rle_trans with (toFixed2 100); [|rewrite toFixed2_100; apply Rle_refl].
      apply toFixed2_le.
      pose proof (ln_nonneg (effort + 1) ltac:(lra)).
      pose proof (ln_nonneg (sloc + 1) ltac:(lra)).
      apply Rmax_lub; lra.
Qed.

(** X17.  For non-negative inputs the earlier calculator of
    [modules/utils.js] stays between 0 and 100, and the calculator of
    [extension.js] never rates the same function lower than it does. *)
Theorem calculateMaintainability_v1_bounds effort cyclo sloc :
  0 <= effort -> 0 <= cyclo -> 0 <= sloc ->
  0 <= calculateMaintainability_v1 effort cyclo sloc <= 100 /\
  calculateMaintainability_v1 effort cyclo sloc <=
  calculateMaintainability effort cyclo sloc.
Proof.
  intros H1 H2 H3. unfold calculateMaintainability_v1, calculateMaintainability.
  cbv zeta.
  pose proof (ln_nonneg (effort + 1) ltac:(lra)) as He.
  pose proof (ln_nonneg (sloc + 1) ltac:(lra)) as Hs.
  assert (Heps : 0 < epsilon) by (unfold epsilon; lra).
  assert (Heps1 : epsilon <= 1) by (unfold epsilon; lra).
  pose proof (ln_le (effort + epsilon) (effort + 1) ltac:(lra) ltac:(lra)) as He'.
  pose proof (ln_le (sloc + epsilon) (sloc + 1) ltac:(lra) ltac:(lra)) as Hs'.
  split; [split|].
  - rewrite <- toFixed2_0 at 1. apply toFixed2_le, Rmax_l.
  - apply Rle_trans with (toFixed2 100); [|rewrite toFixed2_100; apply Rle_refl].
    apply toFixed2_le. apply Rmax_lub; lra.
  - apply toFixed2_le. apply Rmax_lub; [apply Rmax_l|].
    eapply Rle_trans; [|apply Rmax_r]. lra.
Qed.

Lemma calculateMaintainability_v1_bounds_witness :
  0 <= calculateMaintainability_v1 500 12 20 <= 100 /\
  calculateMaintainability_v1 500 12 20 <= calculateMaintainability 500 12 20.
Proof.
  apply (calculateMaintainability_v1_bounds 500 12 20); lra.
Defined.
